(** * The aufs graph driver (daemon/graphdriver/aufs/dirs.go)

    A shallow embedding of the driver's layer store, parent-chain files,
    union mount engine and reference-counted mount registry, and the
    properties of the specification proved about it.

    The driver is glue between the operating system and its caller, so the
    platform (file system, mount table, kernel) is an interface [OS]: reads
    are functions of the current [World], every call that changes the
    platform returns the next [World].  Driver code runs in a small state
    monad that threads the world, the trace of platform calls issued so far,
    the error log, the active-mount map of the driver and the package-level
    variables. *)

From Stdlib Require Import ZArith String Ascii List Lia Bool.
From stdpp Require Import base gmap strings list.

Open Scope string_scope.
Open Scope list_scope.

(** ** Go values *)

(** [len] of a Go string: its number of bytes, an [int]. *)
Definition len (s : string) : Z := Z.of_nat (String.length s).

(** Go's [int] on linux/amd64 is 64 bits wide, two's complement. *)
Definition int_min : Z := (- 2 ^ 63)%Z.
Definition int_max : Z := (2 ^ 63 - 1)%Z.
Definition wrap_int (z : Z) : Z := ((z + 2 ^ 63) `mod` 2 ^ 64 - 2 ^ 63)%Z.
Definition int_add (x y : Z) : Z := wrap_int (x + y)%Z.
Definition int_sub (x y : Z) : Z := wrap_int (x - y)%Z.

(** [copy(dst, src)] into the free part of a byte buffer: the buffer [b] of
    [make([]byte, cap)] is kept as its written prefix [b[:bp]]; [copy] moves
    [min(len(dst), len(src))] bytes. *)
Definition copy_into (cap : Z) (buf src : string) : string :=
  buf +:+ substring 0 (Z.to_nat (cap - len buf)%Z) src.

(** ** Errors *)

Definition errno := Z.
Definition ENOENT : errno := 2%Z.
Definition EEXIST : errno := 17%Z.
Definition ENOTEMPTY : errno := 39%Z.

Inductive error : Type :=
| OsError (e : errno)          (* an error of the platform: *PathError, Errno *)
| ErrTooLong                   (* bufio.ErrTooLong *)
| ErrAufsNotSupported          (* "AUFS was not found in /proc/filesystems" *)
| ErrNotSupported              (* graphdriver.ErrNotSupported *)
| ErrIncompatibleFS            (* graphdriver.ErrIncompatibleFS *)
| ErrUnknownID                 (* fmt.Errorf("Unknown ID") *)
| ErrAufsMount (target : string) (cause : error).
                               (* "error creating aufs mount to %s: %v" *)

(** [os.IsNotExist] and [os.IsExist]. *)
Definition IsNotExist (e : error) : bool :=
  match e with OsError n => (n =? ENOENT)%Z | _ => false end.
Definition IsExist (e : error) : bool :=
  match e with
  | OsError n => (n =? EEXIST)%Z || (n =? ENOTEMPTY)%Z
  | _ => false
  end.

(** A Go result [(v, err)] of which exactly one component is meaningful. *)
Inductive result (A : Type) : Type :=
| Ok (a : A)
| Err (e : error).
Arguments Ok {A} a.
Arguments Err {A} e.

Definition os_result {A : Type} (r : errno + A) : result A :=
  match r with inl e => Err (OsError e) | inr a => Ok a end.
Definition os_error (r : option errno) : option error :=
  match r with Some e => Some (OsError e) | None => None end.

(** ** bufio.Scanner with the default split function ScanLines *)

Definition LF : ascii := "010"%char.
Definition CR : ascii := "013"%char.
Definition MaxScanTokenSize : Z := 65536%Z.

(** [dropCR]: one trailing carriage return is removed from a token. *)
Fixpoint dropCR (s : string) : string :=
  match s with
  | EmptyString => EmptyString
  | String c EmptyString => if Ascii.eqb c CR then EmptyString else s
  | String c rest => String c (dropCR rest)
  end.

(** The tokens [Scan] delivers for the bytes [s] that follow the pending,
    still unterminated bytes [cur], and the scanner's own error: a line is
    ended by a line feed, the last line may be unterminated, and a pending
    line that fills the whole buffer of [MaxScanTokenSize] bytes stops the
    scan with [ErrTooLong]. *)
Fixpoint scan_from (cur s : string) : list string * option error :=
  match s with
  | EmptyString =>
      (match cur with EmptyString => [] | _ => [dropCR cur] end, None)
  | String c rest =>
      if Ascii.eqb c LF then
        let '(toks, e) := scan_from EmptyString rest in
        (dropCR cur :: toks, e)
      else if (MaxScanTokenSize <=? len cur + 1)%Z then ([], Some ErrTooLong)
      else scan_from (cur +:+ String c EmptyString) rest
  end.

(** A file that was opened and read to its end: the bytes delivered, and the
    read error that ended the stream if it was not end-of-file. *)
Definition stream : Type := string * option errno.

(** [for s.Scan() { ... s.Text() ... }] followed by [s.Err()]: the scanner
    reports its own error, otherwise the read error of the stream. *)
Definition scan_stream (f : stream) : list string * option error :=
  let '(toks, e) := scan_from EmptyString (fst f) in
  (toks, match e with Some e' => Some e' | None => os_error (snd f) end).

(** [strings.Contains]. *)
Definition Contains (s sub : string) : bool :=
  match index 0 sub s with Some _ => true | None => false end.

(** ** The platform *)

(** A directory entry as [ioutil.ReadDir] reports it: name and [IsDir()]. *)
Definition dirent : Type := string * bool.

(** The collaborators of the driver: the Go library and the kernel
    ([os], [ioutil], [fmt], [syscall], [os/exec]), the packages [pkg/mount],
    [graphdriver] and [libcontainer/label], and the files of package [aufs]
    that wrap the mount system calls (the functions [mount] and [Unmount]).
    Reads are functions of the world; a call that may change the platform
    returns its error and the next world.  A file handle is named by the
    path it was created at. *)
Record OS : Type := mkOS {
  World : Type;
  (* reads *)
  ioutil_ReadDir : World → string → errno + list dirent;
  os_Open : World → string → errno + stream;
  mountpk_Mounted : World → string → bool * option errno;
  graphdriver_GetFSMagic : World → string → errno + Z;
  (* calls with an effect *)
  exec_Run : string → list string → World → option errno * World;
  os_MkdirAll : string → Z → World → option errno * World;
  mountpk_MakePrivate : string → World → option errno * World;
  os_Create : string → World → option errno * World;
  fmt_Fprintln : string → string → World → option errno * World;
  os_Close : string → World → option errno * World;
  os_Rename : string → string → World → option errno * World;
  os_RemoveAll : string → World → option errno * World;
  os_Remove : string → World → option errno * World;
  ioutil_TempDir : string → string → World → (errno + string) * World;
  sys_mount :
    string → string → string → Z → string → World → option errno * World;
  Unmount : string → World → option errno * World;
  (* constants and pure functions *)
  syscall_Getpagesize : Z;
  path_Join : list string → string;
  label_FormatMountLabel : string → string → string;
  FsMagicBtrfs : Z;
  FsMagicAufs : Z;
  FsNames : Z → option string
}.

(** Modelled from the spec: the flag [MsRemount] of mount_linux.go (not part
    of the sources at hand), "the [MS_REMOUNT] flag"; 32 is its value in the
    Linux ABI. *)
Definition MsRemount : Z := 32%Z.

(** A call issued to the platform that may change it, and the two
    operations of the driver's mutex.  The trace pairs each event with the
    error the platform answered. *)
Inductive Event : Type :=
| EvLock
| EvUnlock
| EvExec (cmd : string) (args : list string)
| EvMkdirAll (p : string) (perm : Z)
| EvMakePrivate (p : string)
| EvCreate (p : string)
| EvFprintln (p : string) (line : string)
| EvClose (p : string)
| EvRename (oldp newp : string)
| EvRemoveAll (p : string)
| EvRemove (p : string)
| EvTempDir (dir prefix : string)
| EvMount (source target fstype : string) (flags : Z) (data : string)
| EvUnmount (target : string).

(** [type Driver struct]: the three roots.  The field [active] is mutable
    through the pointer receiver and lives in the state below; the embedded
    mutex shows as [EvLock] and [EvUnlock] in the trace. *)
Record Driver : Type := mkDriver {
  rootNFSImageLayers : string;
  rootLocalContainerLayers : string;
  rootLocalImageLayers : string
}.

(** [type IdDesc struct], fields [id] and [rootPath]. *)
Record IdDesc : Type := mkIdDesc {
  desc_id : string;
  desc_rootPath : string
}.

(** The state the driver code runs in. *)
Record St (os : OS) : Type := mkSt {
  world : World os;
  trace : list (Event * option errno);
                                 (* calls so far and their errors, oldest first *)
  errlog : list string;          (* logrus.Errorf *)
  active : gmap string Z;        (* a.active *)
  enableDirpermLock : bool;      (* the sync.Once has fired *)
  enableDirperm : bool;
  backingFs : string
}.
Arguments mkSt {os} _ _ _ _ _ _ _.
Arguments world {os} _.
Arguments trace {os} _.
Arguments errlog {os} _.
Arguments active {os} _.
Arguments enableDirpermLock {os} _.
Arguments enableDirperm {os} _.
Arguments backingFs {os} _.

(** A computation returns a value or panics. *)
Inductive Res (A : Type) : Type :=
| Val (a : A)
| Panic (msg : string).
Arguments Val {A} a.
Arguments Panic {A} msg.

Definition M (os : OS) (A : Type) : Type := St os → Res A * St os.

Section Monad.

Context {os : OS}.

Definition ret {A : Type} (a : A) : M os A := λ s, (Val a, s).
Definition bind {A B : Type} (m : M os A) (k : A → M os B) : M os B :=
  λ s, match m s with
       | (Val a, s') => k a s'
       | (Panic msg, s') => (Panic msg, s')
       end.
Definition panic {A : Type} (msg : string) : M os A := λ s, (Panic msg, s).

(** [defer cleanup] placed in front of [body]: [cleanup] runs when [body]
    returns and also when it panics. *)
Definition defer {A : Type} (cleanup : M os unit) (body : M os A) : M os A :=
  λ s, let '(r, s1) := body s in
       match cleanup s1 with
       | (Val _, s2) => (r, s2)
       | (Panic msg, s2) => (Panic msg, s2)
       end.

(** Reading the world, and issuing a call: the event and the error the
    platform answers are appended to the trace, and the world is replaced by
    the one the platform returns. *)
Definition reads {A : Type} (f : World os → A) : M os A :=
  λ s, (Val (f (world s)), s).

Definition call (ev : Event) (f : World os → option errno * World os)
  : M os (option errno) :=
  λ s, let '(e, w) := f (world s) in
       (Val e, mkSt w (trace s ++ [(ev, e)]) (errlog s) (active s)
                    (enableDirpermLock s) (enableDirperm s) (backingFs s)).

Definition call_value {A : Type} (ev : Event)
    (f : World os → (errno + A) * World os) : M os (errno + A) :=
  λ s, let '(r, w) := f (world s) in
       (Val r, mkSt w (trace s ++ [(ev, match r with
                                        | inl e => Some e
                                        | inr _ => None
                                        end)])
                    (errlog s) (active s)
                    (enableDirpermLock s) (enableDirperm s) (backingFs s)).

Definition emit (ev : Event) : M os unit :=
  λ s, (Val tt, mkSt (world s) (trace s ++ [(ev, None)]) (errlog s) (active s)
                     (enableDirpermLock s) (enableDirperm s) (backingFs s)).

Definition Errorf (msg : string) : M os unit :=
  λ s, (Val tt, mkSt (world s) (trace s) (errlog s ++ [msg]) (active s)
                     (enableDirpermLock s) (enableDirperm s) (backingFs s)).

Definition Lock : M os unit := emit EvLock.
Definition Unlock : M os unit := emit EvUnlock.

(** [a.active[k]], [a.active[k] = v], [delete(a.active, k)] and
    [make(map[string]int)]; a missing key reads as the zero value. *)
Definition active_get (k : string) : M os Z :=
  λ s, (Val (default 0%Z (active s !! k)), s).
Definition active_set (k : string) (v : Z) : M os unit :=
  λ s, (Val tt, mkSt (world s) (trace s) (errlog s) (<[k := v]> (active s))
                     (enableDirpermLock s) (enableDirperm s) (backingFs s)).
Definition active_delete (k : string) : M os unit :=
  λ s, (Val tt, mkSt (world s) (trace s) (errlog s) (delete k (active s))
                     (enableDirpermLock s) (enableDirperm s) (backingFs s)).
Definition active_make : M os unit :=
  λ s, (Val tt, mkSt (world s) (trace s) (errlog s) ∅
                     (enableDirpermLock s) (enableDirperm s) (backingFs s)).

(** The package-level variables. *)
Definition get_enableDirpermLock : M os bool :=
  λ s, (Val (enableDirpermLock s), s).
Definition get_enableDirperm : M os bool := λ s, (Val (enableDirperm s), s).
Definition set_enableDirpermLock (b : bool) : M os unit :=
  λ s, (Val tt, mkSt (world s) (trace s) (errlog s) (active s)
                     b (enableDirperm s) (backingFs s)).
Definition set_enableDirperm (b : bool) : M os unit :=
  λ s, (Val tt, mkSt (world s) (trace s) (errlog s) (active s)
                     (enableDirpermLock s) b (backingFs s)).
Definition set_backingFs (name : string) : M os unit :=
  λ s, (Val tt, mkSt (world s) (trace s) (errlog s) (active s)
                     (enableDirpermLock s) (enableDirperm s) name).

End Monad.

Notation "x <- m ;; k" := (bind m (λ x, k))
  (at level 100, m at next level, right associativity, only parsing).
Notation "m ;;; k" := (bind m (λ _, k))
  (at level 100, right associativity, only parsing).

(** ** The driver *)

Section Driver.

Context {os : OS}.

(** *** dirs.go *)

(** The loop of [getChilds]: [includeType] 1 keeps only files, 2 only
    directories. *)
Fixpoint getChilds_loop (includeType : Z) (dirs : list dirent)
    (out : list string) : list string :=
  match dirs with
  | [] => out
  | d :: rest =>
      if (includeType =? 1)%Z && snd d then
        getChilds_loop includeType rest out
      else if (includeType =? 2)%Z && negb (snd d) then
        getChilds_loop includeType rest out
      else getChilds_loop includeType rest (out ++ [fst d])
  end.

Definition getChilds (w : World os) (root : string) (includeType : Z)
  : result (list string) :=
  match ioutil_ReadDir os w root with
  | inl e => Err (OsError e)
  | inr dirs => Ok (getChilds_loop includeType dirs [])
  end.

Definition loadIds (w : World os) (root : string) : result (list string) :=
  getChilds w root 1.

Definition getChildDirs (w : World os) (root : string)
  : result (list string) :=
  getChilds w root 2.

(** The loop of [getParentIds] over the scanned lines. *)
Fixpoint getParentIds_loop (toks out : list string) : list string :=
  match toks with
  | [] => out
  | t :: rest =>
      if negb (String.eqb t "") then getParentIds_loop rest (out ++ [t])
      else getParentIds_loop rest out
  end.

(** [getParentIds] returns both its slice and its error; the nil slice of
    the failed [os.Open] is the empty list. *)
Definition getParentIds (w : World os) (root id : string)
  : list string * option error :=
  match os_Open os w (path_Join os [root; "layers"; id]) with
  | inl e => ([], Some (OsError e))
  | inr f =>
      let '(toks, e) := scan_stream f in
      (getParentIds_loop toks [], e)
  end.

(** *** aufs.go *)

Definition incompatibleFsMagic : list Z := [FsMagicBtrfs os; FsMagicAufs os].

Definition var_rootNFSImageLayers : string := "/mnt".
Definition var_rootLocalContainerLayers : string :=
  "/var/lib/docker-aufs/container-layers".
Definition var_rootLocalImageLayers : string :=
  "/var/lib/docker-aufs/image-layers".

Definition supportsAufs : M os (option error) :=
  _ <- call (EvExec "modprobe" ["aufs"]) (exec_Run os "modprobe" ["aufs"]) ;;
  f <- reads (λ w, os_Open os w "/proc/filesystems") ;;
  match f with
  | inl e => ret (Some (OsError e))
  | inr f =>
      if existsb (λ t, Contains t "aufs") (fst (scan_stream f))
      then ret None
      else ret (Some ErrAufsNotSupported)
  end.

Fixpoint createRootDir_loop (root : string) (paths : list string)
  : M os (option error) :=
  match paths with
  | [] => ret None
  | p :: rest =>
      let d := path_Join os [root; p] in
      err <- call (EvMkdirAll d 493) (os_MkdirAll os d 493) ;;
      match err with
      | Some e => ret (Some (OsError e))
      | None => createRootDir_loop root rest
      end
  end.

Definition createRootDir (root : string) : M os (option error) :=
  err <- call (EvMkdirAll root 493) (os_MkdirAll os root 493) ;;
  match err with
  | Some e =>
      if IsExist (OsError e) then ret None else ret (Some (OsError e))
  | None =>
      err <- createRootDir_loop root ["mnt"; "diff"; "layers"] ;;
      match err with
      | Some e => ret (Some e)
      | None =>
          err <- call (EvMakePrivate root) (mountpk_MakePrivate os root) ;;
          match err with
          | Some e => ret (Some (OsError e))
          | None => ret None
          end
      end
  end.

(** [Init]: the driver it returns owns a fresh [active] map. *)
Definition Init (root : string) (options : list string)
  : M os (result Driver) :=
  err <- supportsAufs ;;
  match err with
  | Some _ => ret (Err ErrNotSupported)
  | None =>
      r <- reads (λ w, graphdriver_GetFSMagic os w root) ;;
      match r with
      | inl e => ret (Err (OsError e))
      | inr fsMagic =>
          match FsNames os fsMagic with
          | Some fsName => set_backingFs fsName
          | None => ret tt
          end ;;;
          if existsb (Z.eqb fsMagic) incompatibleFsMagic
          then ret (Err ErrIncompatibleFS)
          else
            let a := mkDriver var_rootNFSImageLayers
                              var_rootLocalContainerLayers
                              var_rootLocalImageLayers in
            active_make ;;;
            err <- createRootDir (rootLocalContainerLayers a) ;;
            match err with
            | Some e => ret (Err e)
            | None =>
                err <- createRootDir (rootLocalImageLayers a) ;;
                match err with
                | Some e => ret (Err e)
                | None => ret (Ok a)
                end
            end
      end
  end.

(** [lookupId] returns a descriptor whose [rootPath] is still the zero
    value, or nil. *)
Fixpoint lookupId (targetId : string) (ids : list string) : option IdDesc :=
  match ids with
  | [] => None
  | id :: rest =>
      if String.eqb id targetId then Some (mkIdDesc id "")
      else lookupId targetId rest
  end.

(** The first loop of [getIdDesc], over the local roots: [None] when the
    loop ends without a return. *)
Fixpoint getIdDesc_local (w : World os) (targetId : string)
    (paths : list string) : option (result IdDesc) :=
  match paths with
  | [] => None
  | p :: rest =>
      match loadIds w (path_Join os [p; "layers"]) with
      | Err e => Some (Err e)
      | Ok ids =>
          match lookupId targetId ids with
          | Some idDesc => Some (Ok (mkIdDesc (desc_id idDesc) p))
          | None => getIdDesc_local w targetId rest
          end
      end
  end.

(** The second loop of [getIdDesc], over the sub-directories of the remote
    root, and the final return. *)
Fixpoint getIdDesc_remote (w : World os) (a : Driver) (targetId : string)
    (dirs : list string) : result IdDesc :=
  match dirs with
  | [] => Err ErrUnknownID
  | subdir :: rest =>
      match loadIds w (path_Join os [rootNFSImageLayers a; subdir; "layers"])
      with
      | Err _ => getIdDesc_remote w a targetId rest
      | Ok ids =>
          match lookupId targetId ids with
          | Some idDesc =>
              Ok (mkIdDesc (desc_id idDesc)
                           (path_Join os [rootNFSImageLayers a; subdir]))
          | None => getIdDesc_remote w a targetId rest
          end
      end
  end.

Definition getIdDesc (w : World os) (a : Driver) (targetId : string)
  : result IdDesc :=
  let paths := [rootLocalContainerLayers a; rootLocalImageLayers a] in
  match getIdDesc_local w targetId paths with
  | Some r => r
  | None =>
      match getChildDirs w (rootNFSImageLayers a) with
      | Err e => Err e
      | Ok dirs => getIdDesc_remote w a targetId dirs
      end
  end.

Definition Exists (w : World os) (a : Driver) (id : string) : bool :=
  match getIdDesc w a id with
  | Ok _ => true
  | Err _ => false
  end.

Definition rootLocalLayers (a : Driver) (isImageLayer : bool) : string :=
  if isImageLayer then rootLocalImageLayers a else rootLocalContainerLayers a.

Fixpoint createDirsFor_loop (rootPath id : string) (paths : list string)
  : M os (option error) :=
  match paths with
  | [] => ret None
  | p :: rest =>
      let d := path_Join os [rootPath; p; id] in
      err <- call (EvMkdirAll d 493) (os_MkdirAll os d 493) ;;
      match err with
      | Some e => ret (Some (OsError e))
      | None => createDirsFor_loop rootPath id rest
      end
  end.

Definition createDirsFor (a : Driver) (id : string) (isImageLayer : bool)
  : M os (result string) :=
  let rootPath := rootLocalLayers a isImageLayer in
  err <- createDirsFor_loop rootPath id ["mnt"; "diff"] ;;
  match err with
  | Some e => ret (Err e)
  | None => ret (Ok rootPath)
  end.

(** The loop of [Create] that writes the chain of the parent. *)
Fixpoint Create_loop (f : string) (ids : list string) : M os (option error) :=
  match ids with
  | [] => ret None
  | i :: rest =>
      err <- call (EvFprintln f i) (fmt_Fprintln os f i) ;;
      match err with
      | Some e => ret (Some (OsError e))
      | None => Create_loop f rest
      end
  end.

Definition Create (a : Driver) (id parent : string) (isImageLayer : bool)
  : M os (option error) :=
  r <- createDirsFor a id isImageLayer ;;
  match r with
  | Err e => ret (Some e)
  | Ok rootPath =>
      let f := path_Join os [rootPath; "layers"; id] in
      err <- call (EvCreate f) (os_Create os f) ;;
      match err with
      | Some e => ret (Some (OsError e))
      | None =>
          defer (call (EvClose f) (os_Close os f) ;;; ret tt)
            (if negb (String.eqb parent "") then
               r <- reads (λ w, getIdDesc w a parent) ;;
               match r with
               | Err e => ret (Some e)
               | Ok parentIdDesc =>
                   r <- reads (λ w, getParentIds w (desc_rootPath parentIdDesc)
                                                 (desc_id parentIdDesc)) ;;
                   match snd r with
                   | Some e => ret (Some e)
                   | None =>
                       err <- call (EvFprintln f parent)
                                   (fmt_Fprintln os f parent) ;;
                       match err with
                       | Some e => ret (Some (OsError e))
                       | None => Create_loop f (fst r)
                       end
                   end
               end
             else ret None)
      end
  end.

(** [a.mounted]. *)
Definition mounted (w : World os) (idDesc : IdDesc) : bool * option errno :=
  let target :=
    path_Join os [desc_rootPath idDesc; "mnt"; desc_id idDesc] in
  mountpk_Mounted os w target.

Definition unmount (a : Driver) (idDesc : IdDesc) : M os (option error) :=
  r <- reads (λ w, mounted w idDesc) ;;
  if bool_decide (snd r ≠ None) || negb (fst r) then ret (os_error (snd r))
  else
    let target :=
      path_Join os [desc_rootPath idDesc; "mnt"; desc_id idDesc] in
    err <- call (EvUnmount target) (Unmount os target) ;;
    ret (os_error err).

(** The loop of [getParentLayerPaths]; [layers[i] = ...] fills the slice in
    order. *)
Fixpoint getParentLayerPaths_loop (w : World os) (a : Driver)
    (parentIds : list string) : result (list string) :=
  match parentIds with
  | [] => Ok []
  | p :: rest =>
      match getIdDesc w a p with
      | Err e => Err e
      | Ok parentIdDesc =>
          match getParentLayerPaths_loop w a rest with
          | Err e => Err e
          | Ok layers =>
              Ok (path_Join os [desc_rootPath parentIdDesc; "diff";
                                desc_id parentIdDesc] :: layers)
          end
      end
  end.

Definition getParentLayerPaths (w : World os) (a : Driver) (idDesc : IdDesc)
  : result (list string) :=
  match getParentIds w (desc_rootPath idDesc) (desc_id idDesc) with
  | (_, Some e) => Err e
  | (parentIds, None) => getParentLayerPaths_loop w a parentIds
  end.

(** The closure of [useDirperm], run by the [sync.Once]. *)
Definition useDirperm_probe : M os unit :=
  r <- call_value (EvTempDir "" "docker-aufs-base")
            (ioutil_TempDir os "" "docker-aufs-base") ;;
  match r with
  | inl _ => Errorf "error checking dirperm1"
  | inr base =>
      defer (call (EvRemoveAll base) (os_RemoveAll os base) ;;; ret tt)
        (r <- call_value (EvTempDir "" "docker-aufs-union")
                         (ioutil_TempDir os "" "docker-aufs-union") ;;
         match r with
         | inl _ => Errorf "error checking dirperm1"
         | inr union =>
             defer (call (EvRemoveAll union) (os_RemoveAll os union) ;;;
                    ret tt)
               (let opts := "br:" +:+ base +:+
                            ",dirperm1,xino=/dev/shm/aufs.xino" in
                err <- call (EvMount "none" union "aufs" 0 opts)
                            (sys_mount os "none" union "aufs" 0 opts) ;;
                match err with
                | Some _ => ret tt
                | None =>
                    set_enableDirperm true ;;;
                    err <- call (EvUnmount union) (Unmount os union) ;;
                    match err with
                    | Some _ =>
                        Errorf "error checking dirperm1: failed to unmount"
                    | None => ret tt
                    end
                end)
         end)
  end.

Definition useDirperm : M os bool :=
  done <- get_enableDirpermLock ;;
  (if done then ret tt
   else useDirperm_probe ;;; set_enableDirpermLock true) ;;;
  get_enableDirperm.

(** The inner loop of [aufsMount] while [firstMount] holds: branches are
    copied into the buffer until one does not fit ([break]); the result is
    the buffer and the branches from [ro[i]] on. *)
Fixpoint aufsMount_fill (cap : Z) (b : string) (ro : list string)
  : string * list string :=
  match ro with
  | [] => (b, [])
  | r :: rest =>
      let layer := ":" +:+ r +:+ "=ro+wh" in
      if (cap <? len b + len layer)%Z then (b, ro)
      else aufsMount_fill cap (copy_into cap b layer) rest
  end.

(** The inner loop once [firstMount] is false: one remount per branch. *)
Fixpoint aufsMount_append (target mountLabel : string) (ro : list string)
  : M os (option error) :=
  match ro with
  | [] => ret None
  | r :: rest =>
      let layer := ":" +:+ r +:+ "=ro+wh" in
      let data := label_FormatMountLabel os ("append" +:+ layer) mountLabel in
      err <- call (EvMount "none" target "aufs" MsRemount data)
                  (sys_mount os "none" target "aufs" MsRemount data) ;;
      match err with
      | Some e => ret (Some (OsError e))
      | None => aufsMount_append target mountLabel rest
      end
  end.

(** [aufsMount].  The outer loop runs once with [firstMount] true (fill the
    buffer, mount) and, unless [i == len(ro)] by then, once more with
    [firstMount] false, where the inner loop remounts every branch that is
    left or returns.  The deferred function unmounts the target when the
    named result [err] is not nil; it finds [err] nil when [make] panics. *)
Definition aufsMount (ro : list string) (rw target mountLabel : string)
  : M os (option error) :=
  err <-
    (dirperm <- useDirperm ;;
     let offset := (54 + (if dirperm then len "dirperm1" else 0))%Z in
     let cap := (syscall_Getpagesize os - len mountLabel - offset)%Z in
     if (cap <? 0)%Z then panic "makeslice: len out of range"
     else
       let b := copy_into cap "" ("br:" +:+ rw +:+ "=rw") in
       let '(b, rest) := aufsMount_fill cap b ro in
       dirperm <- useDirperm ;;
       let opts := "dio,xino=/dev/shm/aufs.xino" +:+
                   (if dirperm then ",dirperm1" else "") in
       let data :=
         label_FormatMountLabel os (b +:+ "," +:+ opts) mountLabel in
       err <- call (EvMount "none" target "aufs" 0 data)
                   (sys_mount os "none" target "aufs" 0 data) ;;
       match err with
       | Some e => ret (Some (OsError e))
       | None => aufsMount_append target mountLabel rest
       end) ;;
  match err with
  | Some e =>
      _ <- call (EvUnmount target) (Unmount os target) ;;
      ret (Some e)
  | None => ret None
  end.

(** [a.mount]. *)
Definition mount (a : Driver) (idDesc : IdDesc) (mountLabel : string)
  : M os (option error) :=
  r <- reads (λ w, mounted w idDesc) ;;
  if bool_decide (snd r ≠ None) || fst r then ret (os_error (snd r))
  else
    let target :=
      path_Join os [desc_rootPath idDesc; "mnt"; desc_id idDesc] in
    let rw := path_Join os [desc_rootPath idDesc; "diff"; desc_id idDesc] in
    r <- reads (λ w, getParentLayerPaths w a idDesc) ;;
    match r with
    | Err e => ret (Some e)
    | Ok layers =>
        err <- aufsMount layers rw target mountLabel ;;
        match err with
        | Some e => ret (Some (ErrAufsMount target e))
        | None => ret None
        end
    end.

(** [err != nil && !os.IsNotExist(err)]. *)
Definition fatal (err : option error) : bool :=
  match err with
  | Some e => negb (IsNotExist e)
  | None => false
  end.

(** The loop of [Remove] over [tmpDirs] and the statements after it.  Each
    [defer os.RemoveAll(tmpPath)] stays pending until [Remove] returns, so
    it encloses everything that follows it. *)
Fixpoint Remove_loop (idDesc : IdDesc) (tmpDirs : list string)
  : M os (option error) :=
  match tmpDirs with
  | [] =>
      let f := path_Join os [desc_rootPath idDesc; "layers"; desc_id idDesc] in
      err <- call (EvRemove f) (os_Remove os f) ;;
      if fatal (os_error err) then ret (os_error err) else ret None
  | p :: rest =>
      let realPath := path_Join os [desc_rootPath idDesc; p; desc_id idDesc] in
      let tmpPath :=
        path_Join os [desc_rootPath idDesc; p;
                      desc_id idDesc +:+ "-removing"] in
      err <- call (EvRename realPath tmpPath)
                  (os_Rename os realPath tmpPath) ;;
      if fatal (os_error err) then ret (os_error err)
      else
        defer (call (EvRemoveAll tmpPath) (os_RemoveAll os tmpPath) ;;; ret tt)
          (Remove_loop idDesc rest)
  end.

Definition Remove (a : Driver) (id : string) : M os (option error) :=
  Lock ;;;
  defer Unlock
    (r <- reads (λ w, getIdDesc w a id) ;;
     match r with
     | Err e => ret (Some e)
     | Ok idDesc =>
         count <- active_get (desc_id idDesc) ;;
         (if negb (count =? 0)%Z
          then Errorf ("Removing active id " +:+ desc_id idDesc)
          else ret tt) ;;;
         err <- unmount a idDesc ;;
         match err with
         | Some e => ret (Some e)
         | None => Remove_loop idDesc ["mnt"; "diff"]
         end
     end).

(** [Get] returns [(path, err)]. *)
Definition Get (a : Driver) (id mountLabel : string)
  : M os (string * option error) :=
  r <- reads (λ w, getIdDesc w a id) ;;
  match r with
  | Err e => ret ("", Some e)
  | Ok idDesc =>
      r <- reads (λ w, getParentIds w (desc_rootPath idDesc)
                                    (desc_id idDesc)) ;;
      if fatal (snd r) then ret ("", snd r)
      else
        let ids := match snd r with Some _ => [] | None => fst r end in
        Lock ;;;
        defer Unlock
          (count <- active_get id ;;
           let out :=
             path_Join os [desc_rootPath idDesc; "diff"; desc_id idDesc] in
           r <- (if (0 <? Z.of_nat (length ids))%Z then
                   let out :=
                     path_Join os [desc_rootPath idDesc; "mnt";
                                   desc_id idDesc] in
                   if (count =? 0)%Z then
                     err <- mount a idDesc mountLabel ;;
                     match err with
                     | Some e => ret (Err e)
                     | None => ret (Ok out)
                     end
                   else ret (Ok out)
                 else ret (Ok out)) ;;
           match r with
           | Err e => ret ("", Some e)
           | Ok out =>
               active_set id (int_add count 1) ;;;
               ret (out, None)
           end)
  end.

Definition Put (a : Driver) (id : string) : M os (option error) :=
  r <- reads (λ w, getIdDesc w a id) ;;
  match r with
  | Err e => ret (Some e)
  | Ok idDesc =>
      Lock ;;;
      defer Unlock
        (count <- active_get (desc_id idDesc) ;;
         if (1 <? count)%Z then
           active_set (desc_id idDesc) (int_sub count 1) ;;;
           ret None
         else
           r <- reads (λ w, getParentIds w (desc_rootPath idDesc)
                                         (desc_id idDesc)) ;;
           (if (0 <? Z.of_nat (length (fst r)))%Z
            then _ <- unmount a idDesc ;; ret tt
            else ret tt) ;;;
           active_delete (desc_id idDesc) ;;;
           ret None)
  end.

End Driver.

(** ** The driver: every id, and cleanup *)

Section Maintenance.

Context {os : OS}.

(** The first loop of [loadAllIds], over the local roots: an error of
    reading a local layers/ directory ends the call. *)
Fixpoint loadAllIds_local (w : World os) (paths : list string)
    (allIds : list string) : result (list string) :=
  match paths with
  | [] => Ok allIds
  | p :: rest =>
      match loadIds w (path_Join os [p; "layers"]) with
      | Err e => Err e
      | Ok ids => loadAllIds_local w rest (allIds ++ ids)
      end
  end.

(** The second loop of [loadAllIds], over the sub-directories of the remote
    root: one whose layers/ cannot be read is passed over. *)
Fixpoint loadAllIds_remote (w : World os) (a : Driver) (dirs : list string)
    (allIds : list string) : list string :=
  match dirs with
  | [] => allIds
  | subdir :: rest =>
      match loadIds w (path_Join os [rootNFSImageLayers a; subdir; "layers"])
      with
      | Err _ => loadAllIds_remote w a rest allIds
      | Ok ids => loadAllIds_remote w a rest (allIds ++ ids)
      end
  end.

(** [a.loadAllIds]: when the remote root cannot be listed the local ids are
    returned with a nil error. *)
Definition loadAllIds (w : World os) (a : Driver) : result (list string) :=
  let paths := [rootLocalContainerLayers a; rootLocalImageLayers a] in
  match loadAllIds_local w paths [] with
  | Err e => Err e
  | Ok allIds =>
      match getChildDirs w (rootNFSImageLayers a) with
      | Err _ => Ok allIds
      | Ok dirs => Ok (loadAllIds_remote w a dirs allIds)
      end
  end.

(** Two collaborators of [Cleanup] that are not part of [OS]:
    [mountpk.Unmount] of package pkg/mount and [stringid.TruncateID]. *)
Variable mountpk_Unmount : string → World os → option errno * World os.
Variable stringid_TruncateID : string → string.

(** A call of a collaborator outside [OS]: the world moves on; the trace
    records the calls of [OS] and the mutex only. *)
Definition effect (f : World os → option errno * World os)
  : M os (option errno) :=
  λ s, let '(e, w) := f (world s) in
       (Val e, mkSt w (trace s) (errlog s) (active s)
                    (enableDirpermLock s) (enableDirperm s) (backingFs s)).

(** The loop of [Cleanup] over the ids.  The lines logged keep the id and
    leave out the text of the error. *)
Fixpoint Cleanup_loop (a : Driver) (ids : list string) : M os unit :=
  match ids with
  | [] => ret tt
  | id :: rest =>
      r <- reads (λ w, getIdDesc w a id) ;;
      match r with
      | Err _ =>
          Errorf ("Unknown ID: " +:+ id) ;;;
          Cleanup_loop a rest
      | Ok idDesc =>
          err <- unmount a idDesc ;;
          match err with
          | Some _ => Errorf ("Unmounting " +:+ stringid_TruncateID id)
          | None => ret tt
          end ;;;
          Cleanup_loop a rest
      end
  end.

Definition Cleanup (a : Driver) : M os (option error) :=
  r <- reads (λ w, loadAllIds w a) ;;
  match r with
  | Err e => ret (Some e)
  | Ok ids =>
      Cleanup_loop a ids ;;;
      _ <- effect (mountpk_Unmount (rootLocalContainerLayers a)) ;;
      _ <- effect (mountpk_Unmount (rootLocalImageLayers a)) ;;
      ret None
  end.

End Maintenance.

(** ** Notions the properties are stated with *)

Section Notions.

Context {os : OS}.

(** A caller that uses one layer: a sequence of [Get] and [Put] calls. *)
Inductive call_op : Type :=
| CallGet (mountLabel : string)
| CallPut.

Definition run_call (a : Driver) (id : string) (op : call_op) : M os unit :=
  match op with
  | CallGet mountLabel => (_ <- Get a id mountLabel ;; ret tt)
  | CallPut => (_ <- Put a id ;; ret tt)
  end.

Fixpoint run_calls (a : Driver) (id : string) (ops : list call_op)
  : M os unit :=
  match ops with
  | [] => ret tt
  | op :: rest => (run_call a id op ;;; run_calls a id rest)
  end.

(** Every [Put] answers an earlier [Get] and every [Get] is answered. *)
Fixpoint balanced_from (depth : nat) (ops : list call_op) : bool :=
  match ops with
  | [] => Nat.eqb depth 0
  | CallGet _ :: rest => balanced_from (S depth) rest
  | CallPut :: rest =>
      match depth with
      | O => false
      | S d => balanced_from d rest
      end
  end.
Definition balanced (ops : list call_op) : bool := balanced_from 0 ops.

(** The id is visible to [Exists] at each call of the sequence. *)
Fixpoint resolvable_during (a : Driver) (id : string) (ops : list call_op)
    (s : St os) : bool :=
  match ops with
  | [] => true
  | op :: rest =>
      Exists (world s) a id
      && resolvable_during a id rest (snd (run_call a id op s))
  end.

(** A computation that leaves the active map alone. *)
Definition keeps_active {A : Type} (m : M os A) : Prop :=
  ∀ s, active (snd (m s)) = active s.

(** The layers/ directory [dir] lists a file named [targetId]. *)
Definition lists (w : World os) (dir targetId : string) : Prop :=
  ∃ ids, loadIds w dir = Ok ids ∧ In targetId ids.

(** The state after [a.Lock()]. *)
Definition locked (s : St os) : St os :=
  mkSt (world s) (trace s ++ [(EvLock, None)]) (errlog s) (active s)
       (enableDirpermLock s) (enableDirperm s) (backingFs s).

(** The paths of a layer below its root, and the names [Remove] moves its
    directories to. *)
Definition layer_path (d : IdDesc) (sub : string) : string :=
  path_Join os [desc_rootPath d; sub; desc_id d].
Definition removing_path (d : IdDesc) (sub : string) : string :=
  path_Join os [desc_rootPath d; sub; desc_id d +:+ "-removing"].

(** What [a.unmount] issues and returns: nothing when the mount table
    cannot be read or does not hold the target, else one [Unmount]. *)
Inductive unmount_trace (d : IdDesc)
  : list (Event * option errno) → option error → Prop :=
| UT_not_mounted (e : option errno) :
    unmount_trace d [] (os_error e)
| UT_unmounted (r : option errno) :
    unmount_trace d [(EvUnmount (layer_path d "mnt"), r)] (os_error r).

(** What [Remove] issues after the unmount and what it returns then: the
    two renames, the removal of the layers file, and the deferred removals
    of the renamed trees in the reverse order of their [defer]. *)
Inductive Remove_loop_trace (d : IdDesc)
  : list (Event * option errno) → option error → Prop :=
| RL_first_rename_fails (e : errno) :
    fatal (Some (OsError e)) = true →
    Remove_loop_trace d
      [(EvRename (layer_path d "mnt") (removing_path d "mnt"), Some e)]
      (Some (OsError e))
| RL_second_rename_fails (r1 x1 : option errno) (e : errno) :
    fatal (os_error r1) = false →
    fatal (Some (OsError e)) = true →
    Remove_loop_trace d
      [(EvRename (layer_path d "mnt") (removing_path d "mnt"), r1);
       (EvRename (layer_path d "diff") (removing_path d "diff"), Some e);
       (EvRemoveAll (removing_path d "mnt"), x1)]
      (Some (OsError e))
| RL_done (r1 r2 r3 x2 x1 : option errno) :
    fatal (os_error r1) = false →
    fatal (os_error r2) = false →
    Remove_loop_trace d
      [(EvRename (layer_path d "mnt") (removing_path d "mnt"), r1);
       (EvRename (layer_path d "diff") (removing_path d "diff"), r2);
       (EvRemove (layer_path d "layers"), r3);
       (EvRemoveAll (removing_path d "diff"), x2);
       (EvRemoveAll (removing_path d "mnt"), x1)]
      (if fatal (os_error r3) then os_error r3 else None).

Inductive Remove_trace (d : IdDesc)
  : list (Event * option errno) → option error → Prop :=
| RT_unmount_fails (U : list (Event * option errno)) (e : error) :
    unmount_trace d U (Some e) →
    Remove_trace d ([(EvLock, None)] ++ U ++ [(EvUnlock, None)]) (Some e)
| RT_unmounted (U R : list (Event * option errno)) (err : option error) :
    unmount_trace d U None →
    Remove_loop_trace d R err →
    Remove_trace d ([(EvLock, None)] ++ U ++ R ++ [(EvUnlock, None)]) err.

(** An id that a line of a layers file can hold: not empty, no line feed,
    no carriage return at its end, shorter than the scanner's buffer. *)
Fixpoint no_LF (s : string) : bool :=
  match s with
  | EmptyString => true
  | String c rest => negb (Ascii.eqb c LF) && no_LF rest
  end.

Definition valid_id (i : string) : bool :=
  negb (String.eqb i "") && no_LF i && String.eqb (dropCR i) i
  && (len i <? MaxScanTokenSize)%Z.

(** The bytes of file [f] after the calls of a trace: [os.Create] truncates
    it, [fmt.Fprintln] appends its operand and a line feed. *)
Fixpoint written (f : string) (tr : list (Event * option errno))
    (content : string) : string :=
  match tr with
  | [] => content
  | (EvCreate p, None) :: rest =>
      written f rest (if String.eqb p f then "" else content)
  | (EvFprintln p line, None) :: rest =>
      written f rest (if String.eqb p f
                      then content +:+ line +:+ String LF EmptyString
                      else content)
  | _ :: rest => written f rest content
  end.

(** The bytes of a layers file that holds a chain: each id and a line
    feed. *)
Fixpoint lines (chain : list string) : string :=
  match chain with
  | [] => ""
  | i :: rest => i +:+ String LF (lines rest)
  end.

(** The length of the branches [:<ro>=ro+wh] of a list of directories. *)
Fixpoint branches_len (ro : list string) : Z :=
  match ro with
  | [] => 0%Z
  | r :: rest => (len (":" +:+ r +:+ "=ro+wh") + branches_len rest)%Z
  end.

(** The branches [:<ro>=ro+wh] of a list of directories, concatenated. *)
Fixpoint branches (ro : list string) : string :=
  match ro with
  | [] => ""
  | r :: rest => ":" +:+ r +:+ "=ro+wh" +:+ branches rest
  end.

(** The calls of the union mount engine: the size of its buffer, the
    trailing options, the first mount with the buffer [b], and the remount
    that appends one branch. *)
Definition mount_room (dirperm : bool) (mountLabel : string) : Z :=
  (syscall_Getpagesize os - len mountLabel
   - (54 + (if dirperm then len "dirperm1" else 0)))%Z.
Definition mount_opts (dirperm : bool) : string :=
  "dio,xino=/dev/shm/aufs.xino" +:+ (if dirperm then ",dirperm1" else "").
Definition first_mount_call (target mountLabel b : string) (dirperm : bool)
  : Event :=
  EvMount "none" target "aufs" 0
          (label_FormatMountLabel os (b +:+ "," +:+ mount_opts dirperm)
                                  mountLabel).
Definition remount_call (target mountLabel r : string) : Event :=
  EvMount "none" target "aufs" MsRemount
          (label_FormatMountLabel os ("append:" +:+ r +:+ "=ro+wh") mountLabel).

(** The calls ascribed to the union mount engine for the writable branch
    [rw] and the read-only branches [ro]: for some [k], one first mount
    whose options are [br:<rw>=rw] and the [k] leading branches, then one
    remount for each of the remaining branches, in their order. *)
Definition one_mount_then_remounts (rw target mountLabel : string)
    (ro : list string) (dirperm : bool) (evs : list Event) : Prop :=
  ∃ k : nat,
    k <= length ro
    ∧ evs =
        first_mount_call target mountLabel
          ("br:" +:+ rw +:+ "=rw" +:+ branches (take k ro)) dirperm
        :: map (remount_call target mountLabel) (drop k ro).


(** The order of deletions that lets the metadata file go last: every
    recursive deletion comes before every removal of a file. *)
Definition trees_deleted_before_metadata (evs : list Event) : Prop :=
  ∀ (i j : nat) (p q : string),
    evs !! i = Some (EvRemoveAll p) → evs !! j = Some (EvRemove q) → i < j.

(** A mount call on [target] that the platform accepted. *)
Definition mount_succeeded (target : string) (x : Event * option errno)
  : Prop :=
  ∃ flags data, x = (EvMount "none" target "aufs" flags data, None).


End Notions.

(** ** Notions of the properties of single functions *)

Section Shapes.

Context {os : OS}.

(** The calls of a plan issued in its order until the first one fails. *)
Inductive stops_at_first_error (plan : list Event)
  : list (Event * option errno) → option errno → Prop :=
| plan_done :
    stops_at_first_error plan (map (λ ev, (ev, None)) plan) None
| plan_fails (j : nat) (ev : Event) (e : errno) :
    plan !! j = Some ev →
    stops_at_first_error plan
      (map (λ ev, (ev, None)) (take j plan) ++ [(ev, Some e)]) (Some e).

(** The calls of the probe for dirperm1 on the world [w], and the flag
    after it when it was [flag] before: each temporary directory that was
    created is removed at the end, the union before the base, and the flag
    is set only when the mount was accepted. *)
Inductive probe_trace (w : World os) (flag : bool)
  : list (Event * option errno) → bool → Prop :=
| PT_no_base (e : errno) :
    fst (ioutil_TempDir os "" "docker-aufs-base" w) = inl e →
    probe_trace w flag [(EvTempDir "" "docker-aufs-base", Some e)] flag
| PT_no_union (base : string) (e : errno) (x : option errno) :
    fst (ioutil_TempDir os "" "docker-aufs-base" w) = inr base →
    probe_trace w flag
      [(EvTempDir "" "docker-aufs-base", None);
       (EvTempDir "" "docker-aufs-union", Some e);
       (EvRemoveAll base, x)] flag
| PT_refused (base union : string) (e : errno) (x y : option errno) :
    fst (ioutil_TempDir os "" "docker-aufs-base" w) = inr base →
    fst (ioutil_TempDir os "" "docker-aufs-union"
           (snd (ioutil_TempDir os "" "docker-aufs-base" w))) = inr union →
    probe_trace w flag
      [(EvTempDir "" "docker-aufs-base", None);
       (EvTempDir "" "docker-aufs-union", None);
       (EvMount "none" union "aufs" 0
          ("br:" +:+ base +:+ ",dirperm1,xino=/dev/shm/aufs.xino"), Some e);
       (EvRemoveAll union, x);
       (EvRemoveAll base, y)] flag
| PT_accepted (base union : string) (u x y : option errno) :
    fst (ioutil_TempDir os "" "docker-aufs-base" w) = inr base →
    fst (ioutil_TempDir os "" "docker-aufs-union"
           (snd (ioutil_TempDir os "" "docker-aufs-base" w))) = inr union →
    probe_trace w flag
      [(EvTempDir "" "docker-aufs-base", None);
       (EvTempDir "" "docker-aufs-union", None);
       (EvMount "none" union "aufs" 0
          ("br:" +:+ base +:+ ",dirperm1,xino=/dev/shm/aufs.xino"), None);
       (EvUnmount union, u);
       (EvRemoveAll union, x);
       (EvRemoveAll base, y)] true.

(** An event of the mutex. *)
Definition is_lock_event (x : Event * option errno) : Prop :=
  fst x = EvLock ∨ fst x = EvUnlock.

(** The events of a call that takes the mutex at most once: none, or a lock,
    events that are not of the mutex, and the unlock as the last event. *)
Definition critical_section (evs : list (Event * option errno)) : Prop :=
  evs = []
  ∨ ∃ mid, evs = (EvLock, None) :: mid ++ [(EvUnlock, None)]
           ∧ Forall (λ x, ¬ is_lock_event x) mid.

(** A computation that appends events to the trace, none of the mutex. *)
Definition lock_free {A : Type} (m : M os A) : Prop :=
  ∀ s, ∃ evs, trace (snd (m s)) = trace s ++ evs
              ∧ Forall (λ x, ¬ is_lock_event x) evs.

(** Every count the active map holds is at least 1 (and an [int]). *)
Definition counts_positive (act : gmap string Z) : Prop :=
  ∀ k v, act !! k = Some v → (1 <= v <= int_max)%Z.

(** The loop of [Cleanup] over the ids it was given, from the world [w]:
    the calls it issues, the messages it logs and the world it leaves.
    Each id is resolved in the world as the calls before it have left it.
    An id that does not resolve is logged and passed over; so is a layer
    whose mount table cannot be read; a layer that is not mounted is passed
    over in silence; for a layer that is mounted [Unmount] is called once
    on its mount point, and whatever it answers the loop goes on with the
    next id, a failure being logged. *)
Inductive Cleanup_steps (trunc : string → string) (a : Driver)
  : World os → list string → list (Event * option errno) → list string
    → World os → Prop :=
| CS_done (w : World os) :
    Cleanup_steps trunc a w [] [] [] w
| CS_unknown (w w' : World os) (id : string) (ids : list string) (e : error)
    (evs : list (Event * option errno)) (log : list string) :
    getIdDesc w a id = Err e →
    Cleanup_steps trunc a w ids evs log w' →
    Cleanup_steps trunc a w (id :: ids) evs (("Unknown ID: " +:+ id) :: log) w'
| CS_no_mount_table (w w' : World os) (id : string) (ids : list string)
    (d : IdDesc) (b : bool) (e : errno)
    (evs : list (Event * option errno)) (log : list string) :
    getIdDesc w a id = Ok d →
    mounted w d = (b, Some e) →
    Cleanup_steps trunc a w ids evs log w' →
    Cleanup_steps trunc a w (id :: ids) evs
                  (("Unmounting " +:+ trunc id) :: log) w'
| CS_not_mounted (w w' : World os) (id : string) (ids : list string)
    (d : IdDesc) (evs : list (Event * option errno)) (log : list string) :
    getIdDesc w a id = Ok d →
    mounted w d = (false, None) →
    Cleanup_steps trunc a w ids evs log w' →
    Cleanup_steps trunc a w (id :: ids) evs log w'
| CS_unmounted (w w' : World os) (id : string) (ids : list string)
    (d : IdDesc) (evs : list (Event * option errno)) (log : list string) :
    getIdDesc w a id = Ok d →
    mounted w d = (true, None) →
    fst (Unmount os (layer_path (os:=os) d "mnt") w) = None →
    Cleanup_steps trunc a (snd (Unmount os (layer_path (os:=os) d "mnt") w)) ids
                  evs log w' →
    Cleanup_steps trunc a w (id :: ids)
                  ((EvUnmount (layer_path (os:=os) d "mnt"), None) :: evs) log w'
| CS_unmount_fails (w w' : World os) (id : string) (ids : list string)
    (d : IdDesc) (e : errno)
    (evs : list (Event * option errno)) (log : list string) :
    getIdDesc w a id = Ok d →
    mounted w d = (true, None) →
    fst (Unmount os (layer_path (os:=os) d "mnt") w) = Some e →
    Cleanup_steps trunc a (snd (Unmount os (layer_path (os:=os) d "mnt") w)) ids
                  evs log w' →
    Cleanup_steps trunc a w (id :: ids)
                  ((EvUnmount (layer_path (os:=os) d "mnt"), Some e) :: evs)
                  (("Unmounting " +:+ trunc id) :: log) w'.

End Shapes.

(** ** A simulated platform

    A small in-memory platform on which the driver runs: a file system of
    directories and files named by clean absolute paths, a mount table, the
    magic of the backing file system, and calls and paths that are set to
    fail.  The properties below are proved for every platform; this one
    instantiates them on concrete inputs. *)
Module Sim.

Definition EIO : errno := 5%Z.
Definition EBADF : errno := 9%Z.
Definition ENOTDIR : errno := 20%Z.
Definition EISDIR : errno := 21%Z.
Definition EINVAL : errno := 22%Z.

Definition slash : ascii := "/"%char.

(** The elements of a path between its slashes. *)
Fixpoint split_slash (cur s : string) : list string :=
  match s with
  | EmptyString => [cur]
  | String c rest =>
      if Ascii.eqb c slash then cur :: split_slash EmptyString rest
      else split_slash (cur +:+ String c EmptyString) rest
  end.

(** [path.Clean] on the elements of a path, the stack of kept elements in
    reverse: empty and [.] elements go, [..] removes the element before it,
    is dropped at the root and kept in front of a relative path. *)
Fixpoint clean_elems (rooted : bool) (stack elems : list string)
  : list string :=
  match elems with
  | [] => rev stack
  | e :: rest =>
      if String.eqb e "" || String.eqb e "." then
        clean_elems rooted stack rest
      else if String.eqb e ".." then
        match stack with
        | top :: below =>
            if String.eqb top ".." then clean_elems rooted (e :: stack) rest
            else clean_elems rooted below rest
        | [] =>
            if rooted then clean_elems rooted [] rest
            else clean_elems rooted [e] rest
        end
      else clean_elems rooted (e :: stack) rest
  end.

Definition Clean (p : string) : string :=
  match p with
  | EmptyString => "."
  | String c _ =>
      let rooted := Ascii.eqb c slash in
      let body :=
        String.concat "/" (clean_elems rooted [] (split_slash "" p)) in
      if rooted then "/" +:+ body
      else if String.eqb body "" then "." else body
  end.

(** [path.Join]. *)
Definition Join (elem : list string) : string :=
  match List.filter (λ e, negb (String.eqb e "")) elem with
  | [] => ""
  | es => Clean (String.concat "/" es)
  end.

Definition dirname (p : string) : string :=
  "/" +:+ String.concat "/"
            (removelast (clean_elems true [] (split_slash "" p))).
Definition basename (p : string) : string :=
  List.last (clean_elems true [] (split_slash "" p)) "".

(** [Some content] is a file, [None] a directory. *)
Definition node : Type := string * option string.

Record machine : Type := mkMachine {
  nodes : list node;
  mounts : list string;
  magic : Z;
  dirperm1 : bool;               (* the kernel knows the option dirperm1 *)
  unreadable : list string;      (* paths whose reads fail with EIO *)
  vanished : list string;        (* files still listed but already gone *)
  faults : list Event;           (* calls that fail with EIO *)
  tmpcount : nat
}.

Global Instance Event_eq_dec : EqDecision Event.
Proof. solve_decision. Defined.

Definition with_nodes (w : machine) (ns : list node) : machine :=
  mkMachine ns (mounts w) (magic w) (dirperm1 w) (unreadable w) (vanished w)
            (faults w) (tmpcount w).
Definition with_mounts (w : machine) (ms : list string) : machine :=
  mkMachine (nodes w) ms (magic w) (dirperm1 w) (unreadable w) (vanished w)
            (faults w) (tmpcount w).

Fixpoint find_node (ns : list node) (p : string) : option (option string) :=
  match ns with
  | [] => None
  | (q, k) :: rest => if String.eqb q p then Some k else find_node rest p
  end.

(** [q] is [p] or lies below it. *)
Definition under (p q : string) : bool :=
  String.eqb q p || String.prefix (p +:+ "/") q.

Fixpoint insert_sorted (d : dirent) (l : list dirent) : list dirent :=
  match l with
  | [] => [d]
  | x :: rest =>
      if String.leb (fst d) (fst x) then d :: l else x :: insert_sorted d rest
  end.

Definition children (ns : list node) (p : string) : list dirent :=
  fold_right insert_sorted []
    (omap (λ n : node,
             if String.eqb (dirname (fst n)) p && negb (String.eqb (fst n) p)
             then Some (basename (fst n),
                        match snd n with None => true | Some _ => false end)
             else None) ns).

Definition sim_ReadDir (w : machine) (p : string) : errno + list dirent :=
  if bool_decide (p ∈ unreadable w) then inl EIO
  else match find_node (nodes w) p with
       | None => inl ENOENT
       | Some (Some _) => inl ENOTDIR
       | Some None => inr (children (nodes w) p)
       end.

Definition sim_Open (w : machine) (p : string) : errno + stream :=
  if bool_decide (p ∈ unreadable w) then inl EIO
  else if bool_decide (p ∈ vanished w) then inl ENOENT
  else match find_node (nodes w) p with
       | None => inl ENOENT
       | Some (Some content) => inr (content, None)
       | Some None => inr ("", Some EISDIR)
       end.

Definition sim_Mounted (w : machine) (p : string) : bool * option errno :=
  (bool_decide (p ∈ mounts w), None).

Definition sim_GetFSMagic (w : machine) (p : string) : errno + Z :=
  match find_node (nodes w) p with
  | None => inl ENOENT
  | Some _ => inr (magic w)
  end.

(** A call fails with EIO when it is listed in [faults]. *)
Definition guarded (ev : Event) (f : machine → option errno * machine)
  : machine → option errno * machine :=
  λ w, if bool_decide (ev ∈ faults w) then (Some EIO, w) else f w.

(** The directories on the way to [p], outermost first, [p] included. *)
Fixpoint ancestors (pre : string) (elems : list string) : list string :=
  match elems with
  | [] => []
  | e :: rest => let d := pre +:+ "/" +:+ e in d :: ancestors d rest
  end.

Fixpoint mkdirs (ns : list node) (ds : list string)
  : option errno * list node :=
  match ds with
  | [] => (None, ns)
  | d :: rest =>
      match find_node ns d with
      | Some (Some _) => (Some ENOTDIR, ns)
      | Some None => mkdirs ns rest
      | None => mkdirs (ns ++ [(d, None)]) rest
      end
  end.

Definition sim_MkdirAll (p : string) (perm : Z)
  : machine → option errno * machine :=
  guarded (EvMkdirAll p perm) (λ w,
    let '(e, ns) :=
      mkdirs (nodes w)
             (ancestors "" (clean_elems true [] (split_slash "" p))) in
    (e, with_nodes w ns)).

Definition sim_Create (p : string) : machine → option errno * machine :=
  guarded (EvCreate p) (λ w,
    match find_node (nodes w) (dirname p), find_node (nodes w) p with
    | Some None, None => (None, with_nodes w (nodes w ++ [(p, Some "")]))
    | Some None, Some (Some _) =>
        (None, with_nodes w
                 (map (λ n : node, if String.eqb (fst n) p
                                   then (p, Some "") else n) (nodes w)))
    | Some None, Some None => (Some EISDIR, w)
    | Some (Some _), _ => (Some ENOTDIR, w)
    | None, _ => (Some ENOENT, w)
    end).

Definition sim_Fprintln (p line : string)
  : machine → option errno * machine :=
  guarded (EvFprintln p line) (λ w,
    match find_node (nodes w) p with
    | Some (Some _) =>
        (None, with_nodes w
                 (map (λ n : node,
                         match snd n with
                         | Some content =>
                             if String.eqb (fst n) p
                             then (p, Some (content +:+ line
                                            +:+ String LF EmptyString))
                             else n
                         | None => n
                         end) (nodes w)))
    | _ => (Some EBADF, w)
    end).

Definition sim_Close (p : string) : machine → option errno * machine :=
  guarded (EvClose p) (λ w, (None, w)).

Definition remove_under (ns : list node) (p : string) : list node :=
  List.filter (λ n : node, negb (under p (fst n))) ns.

Definition sim_Rename (oldp newp : string)
  : machine → option errno * machine :=
  guarded (EvRename oldp newp) (λ w,
    match find_node (nodes w) oldp with
    | None => (Some ENOENT, w)
    | Some _ =>
        match children (nodes w) newp with
        | _ :: _ => (Some ENOTEMPTY, w)
        | [] =>
            (None, with_nodes w
               (map (λ n : node,
                       if under oldp (fst n)
                       then (newp +:+ substring (String.length oldp)
                                        (String.length (fst n)) (fst n),
                             snd n)
                       else n)
                    (remove_under (nodes w) newp)))
        end
    end).

Definition sim_RemoveAll (p : string) : machine → option errno * machine :=
  guarded (EvRemoveAll p)
          (λ w, (None, with_nodes w (remove_under (nodes w) p))).

Definition sim_Remove (p : string) : machine → option errno * machine :=
  guarded (EvRemove p) (λ w,
    match find_node (nodes w) p with
    | None => (Some ENOENT, w)
    | Some _ =>
        match children (nodes w) p with
        | _ :: _ => (Some ENOTEMPTY, w)
        | [] => (None, with_nodes w (remove_under (nodes w) p))
        end
    end).

Definition sim_Exec (cmd : string) (args : list string)
  : machine → option errno * machine :=
  guarded (EvExec cmd args) (λ w, (None, w)).

Definition sim_MakePrivate (p : string) : machine → option errno * machine :=
  guarded (EvMakePrivate p) (λ w, (None, w)).

Definition digit (n : nat) : string :=
  String (ascii_of_nat (48 + n `mod` 10)) EmptyString.

Definition sim_TempDir (dir prefix : string)
  : machine → (errno + string) * machine :=
  λ w,
    if bool_decide (EvTempDir dir prefix ∈ faults w) then (inl EIO, w)
    else
      let d := Join [if String.eqb dir "" then "/tmp" else dir;
                     prefix +:+ digit (tmpcount w)] in
      let '(e, ns) :=
        mkdirs (nodes w)
               (ancestors "" (clean_elems true [] (split_slash "" d))) in
      match e with
      | Some e => (inl e, w)
      | None =>
          (inr d, mkMachine ns (mounts w) (magic w) (dirperm1 w)
                            (unreadable w) (vanished w) (faults w)
                            (S (tmpcount w)))
      end.

Definition sim_mount (source target fstype : string) (flags : Z)
    (data : string) : machine → option errno * machine :=
  guarded (EvMount source target fstype flags data) (λ w,
    match find_node (nodes w) target with
    | Some None =>
        if Contains data "dirperm1" && negb (dirperm1 w) then (Some EINVAL, w)
        else if Z.testbit flags 5 then
          if bool_decide (target ∈ mounts w) then (None, w)
          else (Some EINVAL, w)
        else (None, with_mounts w (target :: mounts w))
    | Some (Some _) => (Some ENOTDIR, w)
    | None => (Some ENOENT, w)
    end).

Definition sim_Unmount (target : string) : machine → option errno * machine :=
  guarded (EvUnmount target) (λ w,
    if bool_decide (target ∈ mounts w)
    then (None, with_mounts w (List.filter (λ m, negb (String.eqb m target))
                                           (mounts w)))
    else (Some EINVAL, w)).

Definition quote : string := String (ascii_of_nat 34) EmptyString.

(** [label.FormatMountLabel] of a build with SELinux support. *)
Definition sim_FormatMountLabel (src mountLabel : string) : string :=
  if String.eqb mountLabel "" then src
  else if String.eqb src "" then "context=" +:+ quote +:+ mountLabel +:+ quote
  else src +:+ ",context=" +:+ quote +:+ mountLabel +:+ quote.

Definition sim_FsNames (m : Z) : option string :=
  if (m =? 61267)%Z then Some "extfs"
  else if (m =? 2435016766)%Z then Some "btrfs"
  else if (m =? 1635083891)%Z then Some "aufs"
  else None.

Definition sim : OS :=
  mkOS machine sim_ReadDir sim_Open sim_Mounted sim_GetFSMagic
       sim_Exec sim_MkdirAll sim_MakePrivate sim_Create sim_Fprintln
       sim_Close sim_Rename sim_RemoveAll sim_Remove sim_TempDir
       sim_mount sim_Unmount
       4096%Z Join sim_FormatMountLabel 2435016766%Z 1635083891%Z sim_FsNames.

(** The driver [Init] returns. *)
Definition driver : Driver :=
  mkDriver "/mnt" "/var/lib/docker-aufs/container-layers"
           "/var/lib/docker-aufs/image-layers".

(** A machine with aufs in the kernel, an ext4 root and the directories the
    daemon has prepared. *)
Definition fresh : machine :=
  mkMachine [("/", None); ("/proc", None);
           ("/proc/filesystems",
            Some ("nodev" +:+ String "009"%char "sysfs" +:+ String LF ""
                  +:+ String "009"%char "ext4" +:+ String LF ""
                  +:+ "nodev" +:+ String "009"%char "aufs" +:+ String LF ""));
           ("/tmp", None); ("/mnt", None); ("/var", None); ("/var/lib", None);
           ("/var/lib/docker", None)]
          [] 61267%Z true [] [] [] 0.

Definition start (w : machine) : St sim :=
  mkSt (os:=sim) w [] [] ∅ false false "<unknown>".

(** The state after a computation, and its result. *)
Definition exec {A : Type} (m : M sim A) (s : St sim) : St sim := snd (m s).
Definition eval {A : Type} (m : M sim A) (s : St sim) : Res A := fst (m s).

(** The same state on a machine that differs in what fails. *)
Definition on_machine (f : machine → machine) (s : St sim) : St sim :=
  mkSt (os:=sim) (f (world s)) (trace s) (errlog s) (active s)
       (enableDirpermLock s) (enableDirperm s) (backingFs s).
Definition failing (evs : list Event) (w : machine) : machine :=
  mkMachine (nodes w) (mounts w) (magic w) (dirperm1 w) (unreadable w)
            (vanished w) evs (tmpcount w).
Definition hiding (ps : list string) (w : machine) : machine :=
  mkMachine (nodes w) (mounts w) (magic w) (dirperm1 w) ps
            (vanished w) (faults w) (tmpcount w).
Definition losing (ps : list string) (w : machine) : machine :=
  mkMachine (nodes w) (mounts w) (magic w) (dirperm1 w) (unreadable w)
            ps (faults w) (tmpcount w).

(** A scenario: the driver is initialised, the image layers A and B (on A)
    and the container layer C (on B) are created, and C is in use once. *)
Definition images : string := "/var/lib/docker-aufs/image-layers".
Definition containers : string := "/var/lib/docker-aufs/container-layers".

Definition s_init : St sim := exec (Init "/var/lib/docker" []) (start fresh).
Definition s_A : St sim := exec (Create driver "A" "" true) s_init.
Definition s_B : St sim := exec (Create driver "B" "A" true) s_A.
Definition s_C : St sim := exec (Create driver "C" "B" false) s_B.
Definition s_got : St sim := exec (Get driver "C" "") s_C.

Definition d_A : IdDesc := mkIdDesc "A" images.
Definition d_C : IdDesc := mkIdDesc "C" containers.

(** The events of removing C while it is in use. *)
Definition remove_events : list Event :=
  map fst (drop (length (trace s_got))
                (trace (exec (Remove driver "C") s_got))).

(** Mounting C by hand with a label so long that the buffer has room for
    the writable branch and one parent only. *)
Fixpoint filler (n : nat) : string :=
  match n with
  | O => ""
  | S m => String "x"%char (filler m)
  end.
Definition long_label : string := filler 3934.
Definition parents_C : list string :=
  ["/var/lib/docker-aufs/image-layers/diff/B";
   "/var/lib/docker-aufs/image-layers/diff/A"].
Definition rw_C : string := "/var/lib/docker-aufs/container-layers/diff/C".
Definition mnt_C : string := "/var/lib/docker-aufs/container-layers/mnt/C".
Definition s_probed : St sim := exec useDirperm s_C.
Definition s_mounted : St sim :=
  exec (aufsMount parents_C rw_C mnt_C long_label) s_C.

(** The same with a platform that refuses the remount of the second
    parent. *)
Definition s_refusing : St sim :=
  on_machine
    (failing [remount_call (os:=sim) mnt_C long_label
                           "/var/lib/docker-aufs/image-layers/diff/A"])
    s_C.
Definition s_refused : St sim :=
  exec (aufsMount parents_C rw_C mnt_C long_label) s_refusing.

(** An id with a line feed inside, and a layer on top of it. *)
Definition two_lines : string := "a" +:+ String LF "b".
Definition s_nl : St sim := exec (Create driver two_lines "" true) s_init.
Definition s_on_nl : St sim := exec (Create driver "c" two_lines true) s_nl.

(** An id with a carriage return at its end, and a layer on top of it. *)
Definition with_cr : string := "a" +:+ String CR "".
Definition s_cr : St sim := exec (Create driver with_cr "" true) s_init.
Definition s_on_cr : St sim := exec (Create driver "c" with_cr true) s_cr.

(** A remote partition that holds the layers R and, like the image root, A. *)
Definition s_remote : St sim :=
  exec (_ <- call (os:=sim) (EvMkdirAll "/mnt/p1/layers" 493)
                  (sim_MkdirAll "/mnt/p1/layers" 493) ;;
        _ <- call (os:=sim) (EvCreate "/mnt/p1/layers/R")
                  (sim_Create "/mnt/p1/layers/R") ;;
        call (os:=sim) (EvCreate "/mnt/p1/layers/A")
             (sim_Create "/mnt/p1/layers/A"))
       s_C.

(** [mountpk.Unmount] of package pkg/mount: nothing is done for a target
    that is not mounted. *)
Definition sim_mountpk_Unmount (target : string)
  : machine → option errno * machine :=
  λ w, if bool_decide (target ∈ mounts w)
       then (None, with_mounts w (List.filter (λ m, negb (String.eqb m target))
                                              (mounts w)))
       else (None, w).

(** [stringid.TruncateID]: the first 12 bytes of an id. *)
Definition sim_TruncateID (id : string) : string := substring 0 12 id.

(** A file next to the partition of the remote root. *)
Definition s_mixed : St sim :=
  exec (call (os:=sim) (EvCreate "/mnt/notes") (sim_Create "/mnt/notes"))
       s_remote.

(** The layer B is removed while C, whose chain names it, stays. *)
Definition s_dangling : St sim := exec (Remove driver "B") s_C.

(** A label that leaves a buffer of 10 bytes, and one that leaves none. *)
Definition tight_label : string := filler 4024.
Definition huge_label : string := filler 4050.

(** A layer whose parent does not exist is created all the same. *)
Definition s_orphan : St sim := exec (Create driver "D" "nowhere" true) s_C.

(** The layers B and C are in use, and the platform refuses to unmount C. *)
Definition s_two_mounted : St sim :=
  on_machine
    (failing [EvUnmount "/var/lib/docker-aufs/container-layers/mnt/C"])
    (exec (Get driver "B" "") s_got).

(** Mounting C with the label that leaves a buffer of 10 bytes, and the
    calls of the engine after the probe. *)
Definition s_cut : St sim :=
  exec (aufsMount parents_C rw_C mnt_C tight_label) s_C.
Definition cut_calls : list Event :=
  map fst (drop (length (trace s_probed)) (trace s_cut)).

(** The platform refuses the first mount of C, which holds the writable
    branch and the parent B; the calls of the engine after the probe. *)
Definition s_closed : St sim :=
  on_machine
    (failing [first_mount_call (os:=sim) mnt_C long_label
                ("br:" +:+ rw_C +:+ "=rw"
                 +:+ ":/var/lib/docker-aufs/image-layers/diff/B=ro+wh")
                true])
    s_C.
Definition s_turned_down : St sim :=
  exec (aufsMount parents_C rw_C mnt_C long_label) s_closed.
Definition refused_calls : list Event :=
  map fst (drop (length (trace (exec useDirperm s_closed)))
                (trace s_turned_down)).

End Sim.

(** * Properties *)

Create HintDb aufs.

Section Properties.

Context {os : OS}.

Arguments loadIds : simpl never.
Arguments getChildDirs : simpl never.
Arguments getIdDesc : simpl never.
Arguments getParentIds : simpl never.
Arguments mounted : simpl never.

(** ** Go integers *)

Lemma wrap_int_small (z : Z) : (int_min <= z <= int_max)%Z → wrap_int z = z.
Proof.
  unfold int_min, int_max, wrap_int. intros H.
  rewrite Z.mod_small; lia.
Qed.

Lemma wrap_int_range (z : Z) : (int_min <= wrap_int z <= int_max)%Z.
Proof.
  unfold int_min, int_max, wrap_int.
  pose proof (Z.mod_pos_bound (z + 2 ^ 63) (2 ^ 64)). lia.
Qed.

Lemma wrap_int_le (z : Z) : (int_min <= z)%Z → (wrap_int z <= z)%Z.
Proof.
  unfold int_min, wrap_int. intros H.
  pose proof (Z.mod_le (z + 2 ^ 63) (2 ^ 64)). lia.
Qed.

(** ** Computations that leave the active map alone *)

Lemma keeps_active_ret {A : Type} (a : A) : keeps_active (os:=os) (ret a).
Proof. intros s. reflexivity. Qed.

Lemma keeps_active_bind {A B : Type} (m : M os A) (k : A → M os B) :
  keeps_active (os:=os) m →
  (∀ a, keeps_active (os:=os) (k a)) →
  keeps_active (os:=os) (bind m k).
Proof.
  intros Hm Hk s. unfold bind. specialize (Hm s).
  destruct (m s) as [[a|msg] s1]; simpl in *.
  - rewrite Hk. exact Hm.
  - exact Hm.
Qed.

Lemma keeps_active_defer {A : Type} (c : M os unit) (m : M os A) :
  keeps_active (os:=os) c →
  keeps_active (os:=os) m →
  keeps_active (os:=os) (defer c m).
Proof.
  intros Hc Hm s. unfold defer. specialize (Hm s).
  destruct (m s) as [r s1]; simpl in *.
  specialize (Hc s1). destruct (c s1) as [[u|msg] s2]; simpl in *; congruence.
Qed.

Lemma keeps_active_call (ev : Event) f : keeps_active (os:=os) (call ev f).
Proof. intros s. unfold call. destruct (f (world s)); reflexivity. Qed.

Lemma keeps_active_call_value {A : Type} (ev : Event)
    (f : World os → (errno + A) * World os) :
  keeps_active (os:=os) (call_value ev f).
Proof. intros s. unfold call_value. destruct (f (world s)); reflexivity. Qed.

Ltac keeps :=
  repeat first
    [ solve [auto with aufs nocore]
    | apply keeps_active_bind; [|intros ?]
    | apply keeps_active_defer
    | apply keeps_active_ret
    | apply keeps_active_call
    | apply keeps_active_call_value
    | match goal with
      | |- keeps_active (match ?x with _ => _ end) => destruct x
      end
    | (intros ?; reflexivity) ].

Lemma keeps_active_useDirperm : keeps_active (os:=os) useDirperm.
Proof. unfold useDirperm, useDirperm_probe. keeps. Qed.
Hint Resolve keeps_active_useDirperm : aufs.

Lemma keeps_active_aufsMount_append (target mountLabel : string)
    (ro : list string) :
  keeps_active (os:=os) (aufsMount_append target mountLabel ro).
Proof. induction ro as [|r ro IH]; simpl; keeps. Qed.
Hint Resolve keeps_active_aufsMount_append : aufs.

Lemma keeps_active_aufsMount (ro : list string)
    (rw target mountLabel : string) :
  keeps_active (os:=os) (aufsMount ro rw target mountLabel).
Proof. unfold aufsMount. keeps. Qed.
Hint Resolve keeps_active_aufsMount : aufs.

Lemma keeps_active_mount (a : Driver) (d : IdDesc) (mountLabel : string) :
  keeps_active (os:=os) (mount a d mountLabel).
Proof. unfold mount. keeps. Qed.

Lemma keeps_active_unmount (a : Driver) (d : IdDesc) :
  keeps_active (os:=os) (unmount a d).
Proof. unfold unmount. keeps. Qed.

(** ** The layer store: resolving an id *)

Lemma getChilds_loop_filter (includeType : Z) (dirs : list dirent)
    (out : list string) :
  getChilds_loop includeType dirs out =
    out ++ map fst
      (List.filter
         (λ d : dirent, negb ((includeType =? 1)%Z && snd d)
                        && negb ((includeType =? 2)%Z && negb (snd d)))
         dirs).
Proof.
  revert out. induction dirs as [|d dirs IH]; intros out; simpl.
  - now rewrite app_nil_r.
  - destruct ((includeType =? 1)%Z && snd d); simpl; [apply IH|].
    destruct ((includeType =? 2)%Z && negb (snd d)); simpl; [apply IH|].
    rewrite IH, <- app_assoc. reflexivity.
Qed.

(** [loadIds] lists the entries that are not directories. *)
Lemma loadIds_files (w : World os) (dir : string) (ents : list dirent) :
  ioutil_ReadDir os w dir = inr ents →
  loadIds w dir = Ok (map fst (List.filter (λ d : dirent, negb (snd d)) ents)).
Proof.
  intros H. unfold loadIds, getChilds. rewrite H, getChilds_loop_filter.
  simpl. do 2 f_equal. apply filter_ext. intros [n []]; reflexivity.
Qed.

Lemma lookupId_In (targetId : string) (ids : list string) :
  In targetId ids → lookupId targetId ids = Some (mkIdDesc targetId "").
Proof.
  induction ids as [|i ids IH]; simpl; [tauto|].
  intros Hin. destruct (String.eqb i targetId) eqn:E.
  - apply String.eqb_eq in E. now subst.
  - destruct Hin as [->|Hin]; [|auto].
    rewrite String.eqb_refl in E. discriminate.
Qed.

Lemma lookupId_not_In (targetId : string) (ids : list string) :
  ¬ In targetId ids → lookupId targetId ids = None.
Proof.
  induction ids as [|i ids IH]; simpl; [reflexivity|].
  intros Hnin. destruct (String.eqb i targetId) eqn:E.
  - apply String.eqb_eq in E. tauto.
  - apply IH. tauto.
Qed.

Lemma lookupId_Some (targetId : string) (ids : list string) (d : IdDesc) :
  lookupId targetId ids = Some d → desc_id d = targetId.
Proof.
  induction ids as [|i ids IH]; simpl; [discriminate|].
  destruct (String.eqb i targetId) eqn:E; [|exact IH].
  apply String.eqb_eq in E. intros [= <-]. exact E.
Qed.

Lemma getIdDesc_remote_id (w : World os) (a : Driver) (targetId : string)
    (dirs : list string) (d : IdDesc) :
  getIdDesc_remote w a targetId dirs = Ok d → desc_id d = targetId.
Proof.
  induction dirs as [|sub dirs IH]; simpl; [discriminate|].
  destruct (loadIds w _) as [ids|e]; [|exact IH].
  destruct (lookupId targetId ids) as [d'|] eqn:E; [|exact IH].
  intros [= <-]. simpl. eapply lookupId_Some, E.
Qed.

(** The descriptor [getIdDesc] returns carries the id it was asked for. *)
Lemma getIdDesc_id (w : World os) (a : Driver) (targetId : string)
    (d : IdDesc) :
  getIdDesc w a targetId = Ok d → desc_id d = targetId.
Proof.
  unfold getIdDesc. simpl.
  destruct (loadIds w _) as [ids|e]; [|discriminate].
  destruct (lookupId targetId ids) as [d'|] eqn:E.
  { intros [= <-]. simpl. eapply lookupId_Some, E. }
  destruct (loadIds w _) as [ids'|e]; [|discriminate].
  destruct (lookupId targetId ids') as [d'|] eqn:E'.
  { intros [= <-]. simpl. eapply lookupId_Some, E'. }
  destruct (getChildDirs w _) as [dirs|e]; [|discriminate].
  apply getIdDesc_remote_id.
Qed.

Lemma getIdDesc_remote_first (w : World os) (a : Driver) (targetId : string)
    (pre post : list string) (subdir : string) :
  (∀ d, In d pre →
     ¬ lists w (path_Join os [rootNFSImageLayers a; d; "layers"]) targetId) →
  lists w (path_Join os [rootNFSImageLayers a; subdir; "layers"]) targetId →
  getIdDesc_remote w a targetId (pre ++ subdir :: post) =
    Ok (mkIdDesc targetId (path_Join os [rootNFSImageLayers a; subdir])).
Proof.
  intros Hpre (ids & Hl & Hin).
  induction pre as [|d pre IH]; simpl.
  - rewrite Hl, (lookupId_In _ _ Hin). reflexivity.
  - assert (Hd := Hpre d (or_introl eq_refl)).
    destruct (loadIds w (path_Join os [rootNFSImageLayers a; d; "layers"]))
      as [ids'|e] eqn:E.
    + rewrite lookupId_not_In; [apply IH; intros; apply Hpre; now right|].
      intros Hin'. apply Hd. exists ids'. auto.
    + apply IH. intros; apply Hpre; now right.
Qed.

Lemma getIdDesc_remote_none (w : World os) (a : Driver) (targetId : string)
    (dirs : list string) :
  (∀ d, In d dirs →
     ¬ lists w (path_Join os [rootNFSImageLayers a; d; "layers"]) targetId) →
  getIdDesc_remote w a targetId dirs = Err ErrUnknownID.
Proof.
  induction dirs as [|d dirs IH]; simpl; [reflexivity|].
  intros Hall. assert (Hd := Hall d (or_introl eq_refl)).
  destruct (loadIds w (path_Join os [rootNFSImageLayers a; d; "layers"]))
    as [ids'|e] eqn:E.
  - rewrite lookupId_not_In; [apply IH; intros; apply Hall; now right|].
    intros Hin'. apply Hd. exists ids'. auto.
  - apply IH. intros; apply Hall; now right.
Qed.

(** C5. [getIdDesc] looks for the id in the layers/ directory of the
    local-container root, then of the local-image root, then of each
    sub-directory of the remote root in the order of the listing, and
    returns the descriptor of the first one that lists it, so that a
    more-preferred root shadows the others; a remote sub-directory whose
    layers/ cannot be read is passed over like one that does not list the
    id, while the error of reading a local layers/ directory (or of listing
    the remote root) is the error of the call. *)
Theorem getIdDesc_search_order (w : World os) (a : Driver)
    (targetId : string) :
  let c := path_Join os [rootLocalContainerLayers a; "layers"] in
  let i := path_Join os [rootLocalImageLayers a; "layers"] in
  let n := rootNFSImageLayers a in
  let r := λ d, path_Join os [n; d; "layers"] in
  (∀ e, loadIds w c = Err e → getIdDesc w a targetId = Err e)
  ∧ (lists w c targetId →
     getIdDesc w a targetId =
       Ok (mkIdDesc targetId (rootLocalContainerLayers a)))
  ∧ (∀ ids e, loadIds w c = Ok ids → ¬ In targetId ids →
     loadIds w i = Err e → getIdDesc w a targetId = Err e)
  ∧ (∀ ids, loadIds w c = Ok ids → ¬ In targetId ids →
     lists w i targetId →
     getIdDesc w a targetId = Ok (mkIdDesc targetId (rootLocalImageLayers a)))
  ∧ (∀ ids ids', loadIds w c = Ok ids → ¬ In targetId ids →
     loadIds w i = Ok ids' → ¬ In targetId ids' →
     (∀ e, getChildDirs w n = Err e → getIdDesc w a targetId = Err e)
     ∧ (∀ pre subdir post,
          getChildDirs w n = Ok (pre ++ subdir :: post) →
          (∀ d, In d pre → ¬ lists w (r d) targetId) →
          lists w (r subdir) targetId →
          getIdDesc w a targetId =
            Ok (mkIdDesc targetId (path_Join os [n; subdir])))
     ∧ (∀ dirs,
          getChildDirs w n = Ok dirs →
          (∀ d, In d dirs → ¬ lists w (r d) targetId) →
          getIdDesc w a targetId = Err ErrUnknownID)).
Proof.
  intros c i n r. unfold getIdDesc. simpl. fold c i.
  split; [|split; [|split; [|split]]].
  - intros e ->. reflexivity.
  - intros (ids & -> & Hin). rewrite (lookupId_In _ _ Hin). reflexivity.
  - intros ids e -> Hn ->. rewrite (lookupId_not_In _ _ Hn). reflexivity.
  - intros ids -> Hn (ids' & -> & Hin).
    rewrite (lookupId_not_In _ _ Hn), (lookupId_In _ _ Hin). reflexivity.
  - intros ids ids' -> Hn -> Hn'. 
    rewrite (lookupId_not_In _ _ Hn), (lookupId_not_In _ _ Hn'). fold n.
    repeat split.
    + intros e ->. reflexivity.
    + intros pre subdir post -> Hpre Hsub.
      now apply getIdDesc_remote_first.
    + intros dirs -> Hall. now apply getIdDesc_remote_none.
Qed.

(** The errors of the reads [getIdDesc] makes are the errors it returns. *)
Lemma getIdDesc_read_errors (w : World os) (a : Driver) (id : string) :
  let c := path_Join os [rootLocalContainerLayers a; "layers"] in
  let i := path_Join os [rootLocalImageLayers a; "layers"] in
  (∀ e, loadIds w c = Err e → getIdDesc w a id = Err e)
  ∧ (∀ ids e, loadIds w c = Ok ids → ¬ In id ids → loadIds w i = Err e →
     getIdDesc w a id = Err e)
  ∧ (∀ ids ids' e, loadIds w c = Ok ids → ¬ In id ids →
     loadIds w i = Ok ids' → ¬ In id ids' →
     getChildDirs w (rootNFSImageLayers a) = Err e →
     getIdDesc w a id = Err e).
Proof.
  intros c i. unfold getIdDesc. simpl. fold c i. repeat split.
  - intros e ->. reflexivity.
  - intros ids e -> Hn ->. rewrite (lookupId_not_In _ _ Hn). reflexivity.
  - intros ids ids' e -> Hn -> Hn' ->.
    rewrite (lookupId_not_In _ _ Hn), (lookupId_not_In _ _ Hn'). reflexivity.
Qed.

(** C10. [Exists] answers false exactly when [getIdDesc] returns an error,
    whatever the error: the id is listed nowhere ([ErrUnknownID]), a local
    layers/ directory cannot be read, or the remote root cannot be listed.
    The answer does not tell these apart. *)
Theorem Exists_false_on_any_error (w : World os) (a : Driver) (id : string) :
  let c := path_Join os [rootLocalContainerLayers a; "layers"] in
  let i := path_Join os [rootLocalImageLayers a; "layers"] in
  (Exists w a id = false ↔ ∃ e, getIdDesc w a id = Err e)
  ∧ (∀ e, loadIds w c = Err e → Exists w a id = false)
  ∧ (∀ ids e, loadIds w c = Ok ids → ¬ In id ids → loadIds w i = Err e →
     Exists w a id = false)
  ∧ (∀ ids ids' e, loadIds w c = Ok ids → ¬ In id ids →
     loadIds w i = Ok ids' → ¬ In id ids' →
     getChildDirs w (rootNFSImageLayers a) = Err e →
     Exists w a id = false)
  ∧ (getIdDesc w a id = Err ErrUnknownID → Exists w a id = false).
Proof.
  intros c i.
  destruct (getIdDesc_read_errors w a id) as (Hc & Hi & Hr).
  fold c i in Hc, Hi, Hr. unfold Exists. repeat split.
  - destruct (getIdDesc w a id) as [d|e]; [discriminate|]. eauto.
  - intros (e & ->). reflexivity.
  - intros e He. now rewrite (Hc e He).
  - intros ids e Hcl Hn Hil. now rewrite (Hi ids e Hcl Hn Hil).
  - intros ids ids' e Hcl Hn Hil Hn' Hrl.
    now rewrite (Hr ids ids' e Hcl Hn Hil Hn' Hrl).
  - intros ->. reflexivity.
Qed.

(** ** Strings and the line scanner *)

Lemma append_String (c : ascii) (s t : string) :
  String c s +:+ t = String c (s +:+ t).
Proof. reflexivity. Qed.

Lemma append_nil_l (s : string) : "" +:+ s = s.
Proof. reflexivity. Qed.

Lemma append_nil_r (s : string) : s +:+ "" = s.
Proof.
  induction s as [|c s IH]; [reflexivity|].
  now rewrite append_String, IH.
Qed.

Lemma append_assoc (s t u : string) : (s +:+ t) +:+ u = s +:+ (t +:+ u).
Proof.
  induction s as [|c s IH]; [reflexivity|].
  now rewrite !append_String, IH.
Qed.

Lemma len_String (c : ascii) (s : string) : len (String c s) = (1 + len s)%Z.
Proof. unfold len. simpl String.length. lia. Qed.

Lemma len_append (s t : string) : len (s +:+ t) = (len s + len t)%Z.
Proof.
  induction s as [|c s IH]; [reflexivity|].
  rewrite append_String, !len_String, IH. lia.
Qed.

Lemma len_nonneg (s : string) : (0 <= len s)%Z.
Proof. unfold len. lia. Qed.

(** A pending line that is ended by a line feed becomes a token. *)
Lemma scan_from_line (line cur rest : string) :
  no_LF line = true →
  (len cur + len line < MaxScanTokenSize)%Z →
  scan_from cur (line +:+ String LF rest) =
    (dropCR (cur +:+ line) :: fst (scan_from "" rest),
     snd (scan_from "" rest)).
Proof.
  revert cur. induction line as [|c line IH]; intros cur Hlf Hlen.
  - rewrite append_nil_l, append_nil_r. simpl.
    destruct (scan_from "" rest). reflexivity.
  - simpl in Hlf. apply andb_true_iff in Hlf as [Hc Hlf].
    apply negb_true_iff in Hc. rewrite len_String in Hlen.
    pose proof (len_nonneg line).
    rewrite append_String. cbn [scan_from]. rewrite Hc.
    destruct (Z.leb_spec MaxScanTokenSize (len cur + 1)) as [Hbig|_]; [lia|].
    rewrite IH; [|exact Hlf|].
    2: { rewrite len_append, len_String. change (len "") with 0%Z. lia. }
    rewrite append_assoc. reflexivity.
Qed.

Lemma scan_from_lines (chain : list string) :
  forallb valid_id chain = true →
  scan_from "" (lines chain) = (chain, None).
Proof.
  induction chain as [|i chain IH]; intros Hv; [reflexivity|].
  simpl in Hv. apply andb_true_iff in Hv as [Hi Hv].
  unfold valid_id in Hi. rewrite !andb_true_iff in Hi.
  destruct Hi as [[[_ Hlf] Hcr] Hlen].
  apply String.eqb_eq in Hcr. apply Z.ltb_lt in Hlen.
  simpl lines.
  rewrite scan_from_line; [|exact Hlf|change (len "") with 0%Z; lia].
  rewrite (IH Hv), append_nil_l. simpl. rewrite Hcr. reflexivity.
Qed.

Lemma getParentIds_loop_valid (chain out : list string) :
  forallb valid_id chain = true →
  getParentIds_loop chain out = out ++ chain.
Proof.
  revert out. induction chain as [|i chain IH]; intros out Hv; simpl.
  - now rewrite app_nil_r.
  - simpl in Hv. apply andb_true_iff in Hv as [Hi Hv].
    unfold valid_id in Hi. rewrite !andb_true_iff in Hi.
    destruct Hi as [[[Hne _] _] _]. rewrite Hne.
    rewrite (IH _ Hv), <- app_assoc. reflexivity.
Qed.

(** Reading back a file that holds the lines of a chain of valid ids. *)
Lemma getParentIds_lines (w : World os) (root id : string)
    (chain : list string) :
  forallb valid_id chain = true →
  os_Open os w (path_Join os [root; "layers"; id]) = inr (lines chain, None) →
  getParentIds w root id = (chain, None).
Proof.
  intros Hv Hf. unfold getParentIds, scan_stream. rewrite Hf. simpl.
  rewrite (scan_from_lines _ Hv). simpl.
  now rewrite (getParentIds_loop_valid _ _ Hv).
Qed.

Lemma written_Fprintln (f : string) (chain : list string) (content : string)
    (rest : list (Event * option errno)) :
  written f (map (λ i, (EvFprintln f i, None)) chain ++ rest) content =
    written f rest (content +:+ lines chain).
Proof.
  revert content. induction chain as [|i chain IH]; intros content; simpl.
  - now rewrite append_nil_r.
  - rewrite String.eqb_refl, IH, !append_assoc, append_String, append_nil_l.
    reflexivity.
Qed.

Lemma written_app (f : string) (tr1 tr2 : list (Event * option errno))
    (content : string) :
  written f (tr1 ++ tr2) content = written f tr2 (written f tr1 content).
Proof.
  revert content. induction tr1 as [|[ev e] tr1 IH]; intros content.
  - reflexivity.
  - simpl. destruct ev, e; apply IH.
Qed.

Lemma Create_loop_ok (f : string) (ids : list string) (s s' : St os) :
  Create_loop f ids s = (Val None, s') →
  trace s' = trace s ++ map (λ i, (EvFprintln f i, None)) ids.
Proof.
  revert s. induction ids as [|i ids IH]; intros s; simpl.
  - unfold ret. intros [= <-]. now rewrite app_nil_r.
  - unfold bind, call.
    destruct (fmt_Fprintln os f i (world s)) as [[e|] w]; simpl.
    + discriminate.
    + intros H. rewrite (IH _ H). simpl. now rewrite <- app_assoc.
Qed.

(** C6 (amended). A successful [Create] writes, after creating the two
    directories and the layers file, the parent and then the parent's own
    chain, one id per line, each ended by a line feed, and nothing when the
    parent is the empty string.  When every id written is valid (not empty,
    no line feed inside, no carriage return at its end, shorter than the
    scanner's buffer), [getParentIds] on a file that holds these bytes
    returns the chain that was written, and the empty chain for the empty
    file. *)
Theorem Create_then_getParentIds (s s' : St os) (a : Driver)
    (id parent : string) (isImageLayer : bool) :
  Create a id parent isImageLayer s = (Val None, s') →
  let root := rootLocalLayers a isImageLayer in
  let f := path_Join os [root; "layers"; id] in
  ∃ chain closed,
    trace s' =
      trace s
      ++ [(EvMkdirAll (path_Join os [root; "mnt"; id]) 493, None);
          (EvMkdirAll (path_Join os [root; "diff"; id]) 493, None);
          (EvCreate f, None)]
      ++ map (λ i, (EvFprintln f i, None)) chain
      ++ [(EvClose f, closed)]
    ∧ written f (trace s') "" = lines chain
    ∧ (parent = "" → chain = [])
    ∧ (parent ≠ "" →
       ∃ (w : World os) d ids, getIdDesc w a parent = Ok d
                  ∧ getParentIds w (desc_rootPath d) parent = (ids, None)
                  ∧ chain = parent :: ids)
    ∧ (forallb valid_id chain = true →
       ∀ w' : World os, os_Open os w' f = inr (written f (trace s') "", None) →
             getParentIds w' root id = (chain, None)).
Proof.
  intros H root f.
  assert (Hshape : ∃ chain closed,
    trace s' =
      trace s
      ++ [(EvMkdirAll (path_Join os [root; "mnt"; id]) 493, None);
          (EvMkdirAll (path_Join os [root; "diff"; id]) 493, None);
          (EvCreate f, None)]
      ++ map (λ i, (EvFprintln f i, None)) chain
      ++ [(EvClose f, closed)]
    ∧ (parent = "" → chain = [])
    ∧ (parent ≠ "" →
       ∃ (w : World os) d ids, getIdDesc w a parent = Ok d
                  ∧ getParentIds w (desc_rootPath d) parent = (ids, None)
                  ∧ chain = parent :: ids)).
  { unfold Create, createDirsFor in H. cbn [createDirsFor_loop] in H.
    fold root in H. unfold bind at 1 2 3, call at 1 in H.
    destruct (os_MkdirAll os _ 493 (world s)) as [[e|] w1]; simpl in H;
      [discriminate|].
    unfold bind at 1 2, call at 1 in H. simpl in H.
    destruct (os_MkdirAll os _ 493 w1) as [[e|] w2]; simpl in H;
      [discriminate|].
    fold f in H. unfold bind at 1, call at 1 in H. simpl in H.
    destruct (os_Create os f w2) as [[e|] w3]; simpl in H; [discriminate|].
    unfold defer in H.
    match type of H with
    | (let '(r, s1) := ?m ?st in _) = _ =>
        destruct (m st) as [r s1] eqn:Hbody
    end.
    unfold bind, call, ret in H.
    destruct (os_Close os f (world s1)) as [closed w4]; simpl in H.
    injection H as -> <-. simpl.
    destruct (String.eqb_spec parent "") as [->|Hne]; simpl in Hbody.
    - unfold ret in Hbody. injection Hbody as <-. simpl.
      exists [], closed. simpl. rewrite <- !app_assoc. simpl.
      split; [reflexivity|]. split; [reflexivity|]. congruence.
    - unfold bind at 1, reads at 1 in Hbody. simpl in Hbody.
      destruct (getIdDesc w3 a parent) as [d|e] eqn:Hd;
        [|unfold ret in Hbody; discriminate].
      pose proof (getIdDesc_id _ _ _ _ Hd) as Hid.
      unfold bind at 1, reads at 1 in Hbody. simpl in Hbody.
      rewrite Hid in Hbody.
      destruct (getParentIds w3 (desc_rootPath d) parent) as [ids [e|]] eqn:Hp;
        simpl in Hbody; [unfold ret in Hbody; discriminate|].
      unfold bind at 1, call at 1 in Hbody. simpl in Hbody.
      destruct (fmt_Fprintln os f parent w3) as [[e|] w5]; simpl in Hbody;
        [unfold ret in Hbody; discriminate|].
      apply Create_loop_ok in Hbody. simpl in Hbody.
      exists (parent :: ids), closed. rewrite Hbody. simpl.
      rewrite <- !app_assoc. simpl.
      split; [reflexivity|]. split; [congruence|].
      intros _. exists w3, d, ids. auto. }
  destruct Hshape as (chain & closed & Htr & Hempty & Hchain).
  assert (Hw : written f (trace s') "" = lines chain).
  { rewrite Htr, !written_app. simpl. rewrite String.eqb_refl.
    rewrite <- (app_nil_r (map _ chain)), written_Fprintln. reflexivity. }
  exists chain, closed. repeat split; try assumption.
  intros Hv w' Hopen. rewrite Hw in Hopen.
  now apply getParentIds_lines.
Qed.

(** ** Get and Put *)

Arguments mount : simpl never.
Arguments unmount : simpl never.

Ltac mrun :=
  unfold bind, reads, ret, defer, Lock, Unlock, emit, active_get, active_set,
    active_delete; simpl.

(** C8. [Get] on an id that resolves but whose layers file does not exist
    (or whose read ends in any error that [os.IsNotExist] accepts) succeeds:
    the chain is taken as empty, nothing is mounted, the path returned is
    [<root>/diff/<id>] and the count is incremented; every other error of
    reading the parents is returned and nothing else happens. *)
Theorem Get_missing_layers_file (s : St os) (a : Driver)
    (id mountLabel : string) (idDesc : IdDesc) :
  getIdDesc (world s) a id = Ok idDesc →
  let count := default 0%Z (active s !! id) in
  let ok :=
    (Val (path_Join os [desc_rootPath idDesc; "diff"; id], None),
     mkSt (world s) (trace s ++ [(EvLock, None); (EvUnlock, None)])
          (errlog s) (<[id := int_add count 1]> (active s))
          (enableDirpermLock s) (enableDirperm s) (backingFs s)) in
  (os_Open os (world s) (path_Join os [desc_rootPath idDesc; "layers"; id])
     = inl ENOENT →
   Get a id mountLabel s = ok)
  ∧ (∀ ids e,
       getParentIds (world s) (desc_rootPath idDesc) id = (ids, Some e) →
       IsNotExist e = true →
       Get a id mountLabel s = ok)
  ∧ (∀ ids e,
       getParentIds (world s) (desc_rootPath idDesc) id = (ids, Some e) →
       IsNotExist e = false →
       Get a id mountLabel s = (Val ("", Some e), s)).
Proof.
  intros Hd count ok. pose proof (getIdDesc_id _ _ _ _ Hd) as Hid.
  assert (Hsw : ∀ ids e,
       getParentIds (world s) (desc_rootPath idDesc) id = (ids, Some e) →
       IsNotExist e = true →
       Get a id mountLabel s = ok).
  { intros ids e Hp He. unfold Get. mrun. rewrite Hd. simpl.
    rewrite Hid, Hp. simpl. rewrite He. simpl.
    unfold ok. rewrite <- app_assoc. reflexivity. }
  split; [|split; [exact Hsw|]].
  - intros Ho. apply (Hsw [] (OsError ENOENT)); [|reflexivity].
    unfold getParentIds. now rewrite Ho.
  - intros ids e Hp He. unfold Get. mrun. rewrite Hd. simpl.
    rewrite Hid, Hp. simpl. rewrite He. reflexivity.
Qed.

(** [a.unmount] checks the mount table and calls [Unmount] for a target that
    is reported mounted; it never panics. *)
Lemma unmount_cases (a : Driver) (d : IdDesc) (s : St os) :
  let target := path_Join os [desc_rootPath d; "mnt"; desc_id d] in
  (mounted (world s) d = (true, None) →
   unmount a d s =
     (Val (os_error (fst (Unmount os target (world s)))),
      mkSt (snd (Unmount os target (world s)))
           (trace s ++ [(EvUnmount target, fst (Unmount os target (world s)))])
           (errlog s) (active s)
           (enableDirpermLock s) (enableDirperm s) (backingFs s)))
  ∧ (mounted (world s) d ≠ (true, None) →
     unmount a d s = (Val (os_error (snd (mounted (world s) d))), s)).
Proof.
  intros target. unfold unmount. mrun. split.
  - intros ->. simpl. unfold call. fold target.
    destruct (Unmount os target (world s)) as [r w]. reflexivity.
  - destruct (mounted (world s) d) as [m [e|]]; simpl; [reflexivity|].
    destruct m; simpl; [congruence|reflexivity].
Qed.

Lemma unmount_Val (a : Driver) (d : IdDesc) (s : St os) :
  ∃ r s', unmount a d s = (Val r, s').
Proof.
  destruct (unmount_cases a d s) as [H1 H2].
  destruct (decide (mounted (world s) d = (true, None))) as [E|E].
  - rewrite (H1 E). eauto.
  - rewrite (H2 E). eauto.
Qed.

(** How [Get] and [Put] change the active map. *)
Lemma Get_active (a : Driver) (id mountLabel : string) (s : St os) :
  let count := default 0%Z (active s !! id) in
  active (snd (Get a id mountLabel s)) = active s
  ∨ active (snd (Get a id mountLabel s))
    = <[id := int_add count 1]> (active s).
Proof.
  intros count. unfold Get. mrun.
  destruct (getIdDesc (world s) a id) as [d|e]; simpl; [|now left].
  destruct (fatal _); simpl; [now left|].
  match goal with
  | |- context [(0 <? Z.of_nat (length ?l))%Z] =>
      destruct (0 <? Z.of_nat (length l))%Z
  end; simpl; [|now right].
  destruct (default 0%Z (active s !! id) =? 0)%Z; simpl; [|now right].
  fold (locked s).
  pose proof (keeps_active_mount a d mountLabel (locked s)) as Hk.
  destruct (mount a d mountLabel (locked s)) as [[[e|]|msg] s2]; simpl in *.
  - now left.
  - right. now rewrite Hk.
  - now left.
Qed.

Lemma Put_active (a : Driver) (id : string) (s : St os) :
  Exists (world s) a id = true →
  let count := default 0%Z (active s !! id) in
  ∃ s', Put a id s = (Val None, s')
        ∧ active s' = if (1 <? count)%Z
                      then <[id := int_sub count 1]> (active s)
                      else delete id (active s).
Proof.
  intros Hex count. unfold Exists in Hex.
  destruct (getIdDesc (world s) a id) as [d|e] eqn:Hd; [|discriminate].
  pose proof (getIdDesc_id _ _ _ _ Hd) as Hid.
  unfold Put. mrun. rewrite Hd. simpl. rewrite Hid. fold count.
  destruct (1 <? count)%Z; simpl; [eauto|].
  match goal with
  | |- context [(0 <? Z.of_nat (length ?l))%Z] =>
      destruct (0 <? Z.of_nat (length l))%Z
  end; simpl; [|eauto].
  fold (locked s).
  destruct (unmount_Val a d (locked s)) as (r & s1 & Hu).
  pose proof (keeps_active_unmount a d (locked s)) as Hk.
  rewrite Hu in *. simpl in *. rewrite Hk. eauto.
Qed.

Lemma balanced_refcount (a : Driver) (id : string) (ops : list call_op) :
  ∀ (depth : nat) (s s' : St os),
    (int_min <= default 0%Z (active s !! id) <= Z.of_nat depth)%Z →
    (depth = 0 → active s !! id = None) →
    balanced_from depth ops = true →
    resolvable_during a id ops s = true →
    run_calls a id ops s = (Val tt, s') →
    active s' !! id = None.
Proof.
  induction ops as [|op ops IH]; intros depth s s' Hc Hz Hb Hr Hrun.
  - simpl in *. injection Hrun as <-. apply Hz.
    now apply Nat.eqb_eq in Hb.
  - simpl in Hr. apply andb_true_iff in Hr as [Hex Hr].
    cbn [run_calls] in Hrun. unfold bind at 1 in Hrun.
    destruct op as [mountLabel|]; cbn [run_call] in *.
    + unfold bind at 1 in Hrun. unfold bind at 1 in Hr.
      unfold ret in Hrun, Hr.
      pose proof (Get_active a id mountLabel s) as Ha.
      destruct (Get a id mountLabel s) as [[v|msg] s1]; [|discriminate].
      simpl in *. apply (IH (S depth) s1 s'); try assumption; [|lia].
      destruct Ha as [-> | ->]; [lia|].
      rewrite lookup_insert_eq. simpl. unfold int_add.
      pose proof (wrap_int_range (default 0%Z (active s !! id) + 1)).
      pose proof (wrap_int_le (default 0%Z (active s !! id) + 1)).
      lia.
    + destruct depth as [|depth]; [discriminate|].
      destruct (Put_active a id s Hex) as (s1 & HP & Ha).
      unfold bind at 1 in Hrun. unfold bind at 1 in Hr.
      unfold ret in Hrun, Hr.
      rewrite HP in Hrun, Hr. simpl in *.
      apply (IH depth s1 s'); try assumption.
      * rewrite Ha. destruct (Z.ltb_spec 1 (default 0%Z (active s !! id))).
        -- rewrite lookup_insert_eq. simpl. unfold int_sub.
           pose proof (wrap_int_range (default 0%Z (active s !! id) - 1)).
           pose proof (wrap_int_le (default 0%Z (active s !! id) - 1)).
           unfold int_min in *. lia.
        -- rewrite lookup_delete_eq. simpl. unfold int_min. lia.
      * intros ->. rewrite Ha.
        destruct (Z.ltb_spec 1 (default 0%Z (active s !! id))); [lia|].
        apply lookup_delete_eq.
Qed.

(** C3. After a balanced sequence of [Get] and [Put] calls on an id that
    is visible to [Exists] at every call, started without an entry for the
    id, the active map has no entry for the id.  A [Put] on a resolvable id
    returns nil; with a count above 1 it only stores the count minus one and
    touches nothing else; otherwise it deletes the entry, and before that it
    unmounts the mount point exactly when the layers file lists at least
    one parent ([a.unmount], which calls [Unmount] for a target the mount
    table reports mounted and does nothing for one that is not), whatever
    [Unmount] answers. *)
Theorem Put_refcount :
  (∀ (s s' : St os) (a : Driver) (id : string) (ops : list call_op),
     active s !! id = None →
     balanced ops = true →
     resolvable_during a id ops s = true →
     run_calls a id ops s = (Val tt, s') →
     active s' !! id = None)
  ∧ (∀ (s : St os) (a : Driver) (id : string) (idDesc : IdDesc),
     getIdDesc (world s) a id = Ok idDesc →
     let count := default 0%Z (active s !! id) in
     let ids := fst (getParentIds (world s) (desc_rootPath idDesc) id) in
     let target := path_Join os [desc_rootPath idDesc; "mnt"; id] in
     let put :=
       λ (w : World os) (evs : list (Event * option errno)) act,
         (Val None : Res (option error),
          mkSt w (trace s ++ [(EvLock, None)] ++ evs ++ [(EvUnlock, None)])
               (errlog s) act
               (enableDirpermLock s) (enableDirperm s) (backingFs s)) in
     ((1 < count)%Z →
      Put a id s = put (world s) [] (<[id := int_sub count 1]> (active s))
      ∧ ((count <= int_max)%Z → int_sub count 1 = (count - 1)%Z))
     ∧ ((count <= 1)%Z → ids = [] →
        Put a id s = put (world s) [] (delete id (active s)))
     ∧ ((count <= 1)%Z → ids ≠ [] →
        ∀ r s1, unmount a idDesc (locked s) = (Val r, s1) →
        Put a id s =
          (Val None,
           mkSt (world s1) (trace s1 ++ [(EvUnlock, None)]) (errlog s1)
                (delete id (active s))
                (enableDirpermLock s1) (enableDirperm s1) (backingFs s1)))
     ∧ ((count <= 1)%Z → ids ≠ [] →
        mounted (world s) idDesc ≠ (true, None) →
        Put a id s = put (world s) [] (delete id (active s)))
     ∧ ((count <= 1)%Z → ids ≠ [] →
        mounted (world s) idDesc = (true, None) →
        ∀ r w, Unmount os target (world s) = (r, w) →
        Put a id s = put w [(EvUnmount target, r)] (delete id (active s)))).
Proof.
  split.
  - intros s s' a id ops Hnone Hb Hr Hrun.
    apply (balanced_refcount a id ops 0 s s'); try assumption.
    + rewrite Hnone. simpl. unfold int_min. lia.
    + auto.
  - intros s a id idDesc Hd count ids target put.
    pose proof (getIdDesc_id _ _ _ _ Hd) as Hid.
    subst ids.
    destruct (getParentIds (world s) (desc_rootPath idDesc) id)
      as [ids perr] eqn:Hp.
    cbn [fst].
    assert (HP : Put a id s =
      if (1 <? count)%Z
      then put (world s) [] (<[id := int_sub count 1]> (active s))
      else match ids with
           | [] => put (world s) [] (delete id (active s))
           | _ :: _ =>
               match unmount a idDesc (locked s) with
               | (Val _, s1) =>
                   (Val None,
                    mkSt (world s1) (trace s1 ++ [(EvUnlock, None)])
                         (errlog s1) (delete id (active s1))
                         (enableDirpermLock s1) (enableDirperm s1)
                         (backingFs s1))
               | (Panic msg, s1) =>
                   (Panic msg,
                    mkSt (world s1) (trace s1 ++ [(EvUnlock, None)])
                         (errlog s1) (active s1)
                         (enableDirpermLock s1) (enableDirperm s1)
                         (backingFs s1))
               end
           end).
    { unfold Put. mrun. rewrite Hd. simpl. rewrite Hid. fold count.
      destruct (1 <? count)%Z; simpl.
      - unfold put. simpl. rewrite <- app_assoc. reflexivity.
      - rewrite Hp. destruct ids as [|i ids']; simpl.
        + unfold put. simpl. rewrite <- app_assoc. reflexivity.
        + fold (locked s).
          destruct (unmount a idDesc (locked s)) as [[r|msg] s1]; reflexivity. }
    destruct (unmount_cases a idDesc (locked s)) as [Hm Hn].
    rewrite Hid in Hm. fold target in Hm. simpl in Hm, Hn.
    split; [|split; [|split; [|split]]].
    + intros Hc. rewrite HP. destruct (Z.ltb_spec 1 count); [|lia].
      split; [reflexivity|]. intros Hmax. unfold int_sub.
      apply wrap_int_small. unfold int_min, int_max in *. lia.
    + intros Hc Hids. rewrite HP, Hids.
      destruct (Z.ltb_spec 1 count); [lia|]. reflexivity.
    + intros Hc Hids r s1 Hun. rewrite HP.
      destruct (Z.ltb_spec 1 count); [lia|].
      destruct ids; [congruence|]. rewrite Hun.
      pose proof (keeps_active_unmount a idDesc (locked s)) as Hk.
      rewrite Hun in Hk. simpl in Hk. rewrite Hk. reflexivity.
    + intros Hc Hids Hnm. rewrite HP. destruct (Z.ltb_spec 1 count); [lia|].
      destruct ids; [congruence|]. rewrite (Hn Hnm). unfold put. simpl.
      rewrite <- app_assoc. reflexivity.
    + intros Hc Hids Hmt r w HU. rewrite HP.
      destruct (Z.ltb_spec 1 count); [lia|].
      destruct ids; [congruence|]. rewrite (Hm Hmt), HU. unfold put. simpl.
      rewrite <- !app_assoc. reflexivity.
Qed.

(** ** Remove *)

Lemma Remove_loop_shape (d : IdDesc) (s : St os) :
  ∃ err s' R,
    Remove_loop d ["mnt"; "diff"] s = (Val err, s')
    ∧ trace s' = trace s ++ R ∧ active s' = active s
    ∧ Remove_loop_trace (os:=os) d R err.
Proof.
  cbn [Remove_loop]. unfold bind, call, defer, ret.
  fold (layer_path (os:=os) d "mnt") (removing_path (os:=os) d "mnt")
       (layer_path (os:=os) d "diff") (removing_path (os:=os) d "diff")
       (layer_path (os:=os) d "layers").
  destruct (os_Rename os (layer_path (os:=os) d "mnt") _ (world s)) as [r1 w1].
  destruct (fatal (os_error r1)) eqn:F1; simpl.
  { destruct r1 as [e|]; [|discriminate]. do 3 eexists.
    repeat split. now apply RL_first_rename_fails. }
  destruct (os_Rename os (layer_path (os:=os) d "diff") _ w1) as [r2 w2].
  destruct (fatal (os_error r2)) eqn:F2; simpl.
  { destruct (os_RemoveAll os (removing_path (os:=os) d "mnt") w2)
      as [x1 w3]. simpl.
    destruct r2 as [e|]; [|discriminate]. do 3 eexists.
    split; [reflexivity|]. simpl. rewrite <- !app_assoc. simpl.
    repeat split. now apply RL_second_rename_fails. }
  destruct (os_Remove os (layer_path (os:=os) d "layers") w2) as [r3 w3]. simpl.
  assert (∃ w4 x2 w5 x1,
    os_RemoveAll os (removing_path (os:=os) d "diff") w3 = (x2, w4)
    ∧ os_RemoveAll os (removing_path (os:=os) d "mnt") w4 = (x1, w5))
    as (w4 & x2 & w5 & x1 & E2 & E1).
  { destruct (os_RemoveAll os (removing_path (os:=os) d "diff") w3) as [x2 w4].
    exists w4, x2.
    destruct (os_RemoveAll os (removing_path (os:=os) d "mnt") w4) as [x1 w5].
    exists w5, x1. split; reflexivity. }
  destruct (fatal (os_error r3)) eqn:F3; simpl; rewrite E2; simpl;
    rewrite E1; simpl; do 3 eexists; (split; [reflexivity|]); simpl;
    rewrite <- !app_assoc; simpl; (split; [reflexivity|]);
    (split; [reflexivity|]).
  - pose proof (RL_done (os:=os) d r1 r2 r3 x2 x1 F1 F2) as H.
    now rewrite F3 in H.
  - pose proof (RL_done (os:=os) d r1 r2 r3 x2 x1 F1 F2) as H.
    now rewrite F3 in H.
Qed.

Arguments Remove_loop : simpl never.

(** C4 (amended). [Remove] on a resolvable id takes the lock and unmounts
    first: when the mount table reports the mount point mounted, [Unmount]
    is the first call after the lock, and when it does not, no [Unmount] is
    issued at all; an error of the mount table or of the unmount is
    returned and nothing else happens.  It then renames mnt/<id> and
    diff/<id> to <id>-removing, passing over NotFound, and stops at the
    first rename that fails otherwise; then it removes the layers/<id>
    file, returning its error unless NotFound; and only when it returns,
    the renamed trees are deleted recursively, in the reverse order of
    their renames (diff/<id>-removing, then mnt/<id>-removing), one
    deletion for every rename that did not stop the call, the errors of the
    deletions being dropped.  The active map is left as it was. *)
Theorem Remove_order (s : St os) (a : Driver) (id : string)
    (idDesc : IdDesc) :
  getIdDesc (world s) a id = Ok idDesc →
  let d := mkIdDesc id (desc_rootPath idDesc) in
  ∃ err s' evs,
    Remove a id s = (Val err, s')
    ∧ trace s' = trace s ++ evs
    ∧ Remove_trace (os:=os) d evs err
    ∧ (err = None →
       ∃ U r1 r2 r3 x2 x1,
         unmount_trace (os:=os) d U None
         ∧ evs =
             [(EvLock, None)] ++ U
             ++ [(EvRename (layer_path (os:=os) d "mnt")
                           (removing_path (os:=os) d "mnt"), r1);
                 (EvRename (layer_path (os:=os) d "diff")
                           (removing_path (os:=os) d "diff"), r2);
                 (EvRemove (layer_path (os:=os) d "layers"), r3);
                 (EvRemoveAll (removing_path (os:=os) d "diff"), x2);
                 (EvRemoveAll (removing_path (os:=os) d "mnt"), x1);
                 (EvUnlock, None)])
    ∧ (mounted (world s) d = (true, None) →
       let r := fst (Unmount os (layer_path (os:=os) d "mnt") (world s)) in
       ∃ rest,
         evs = [(EvLock, None);
                (EvUnmount (layer_path (os:=os) d "mnt"), r)] ++ rest
         ∧ (∀ e, r = Some e →
              err = Some (OsError e) ∧ rest = [(EvUnlock, None)])
         ∧ (r = None →
              ∃ R, rest = R ++ [(EvUnlock, None)]
                   ∧ Remove_loop_trace (os:=os) d R err))
    ∧ (mounted (world s) d ≠ (true, None) →
       Forall (λ x, ∀ t, fst x ≠ EvUnmount t) evs
       ∧ (∀ e, snd (mounted (world s) d) = Some e →
            err = Some (OsError e)
            ∧ evs = [(EvLock, None); (EvUnlock, None)])
       ∧ (snd (mounted (world s) d) = None →
            ∃ R, evs = [(EvLock, None)] ++ R ++ [(EvUnlock, None)]
                 ∧ Remove_loop_trace (os:=os) d R err))
    ∧ active s' = active s.
Proof.
  intros Hd d. pose proof (getIdDesc_id _ _ _ _ Hd) as Hid.
  assert (idDesc = d) as Hdesc.
  { subst d. destruct idDesc; simpl in *; congruence. }
  clearbody d. subst d. clear Hid.
  enough (∃ err s' evs,
            Remove a id s = (Val err, s')
            ∧ trace s' = trace s ++ evs
            ∧ Remove_trace (os:=os) idDesc evs err
            ∧ (mounted (world s) idDesc = (true, None) →
               let r :=
                 fst (Unmount os (layer_path (os:=os) idDesc "mnt") (world s))
               in
               ∃ rest,
                 evs = [(EvLock, None);
                        (EvUnmount (layer_path (os:=os) idDesc "mnt"), r)]
                       ++ rest
                 ∧ (∀ e, r = Some e →
                      err = Some (OsError e) ∧ rest = [(EvUnlock, None)])
                 ∧ (r = None →
                      ∃ R, rest = R ++ [(EvUnlock, None)]
                           ∧ Remove_loop_trace (os:=os) idDesc R err))
            ∧ (mounted (world s) idDesc ≠ (true, None) →
               Forall (λ x, ∀ t, fst x ≠ EvUnmount t) evs
               ∧ (∀ e, snd (mounted (world s) idDesc) = Some e →
                    err = Some (OsError e)
                    ∧ evs = [(EvLock, None); (EvUnlock, None)])
               ∧ (snd (mounted (world s) idDesc) = None →
                    ∃ R, evs = [(EvLock, None)] ++ R ++ [(EvUnlock, None)]
                         ∧ Remove_loop_trace (os:=os) idDesc R err))
            ∧ active s' = active s)
    as (err & s' & evs & HR & Ht & Hshape & Hm & Hn & Ha).
  { exists err, s', evs. split; [exact HR|]. split; [exact Ht|].
    split; [exact Hshape|]. split; [|split; [exact Hm|split; [exact Hn|exact Ha]]].
    intros ->. inversion Hshape; subst.
    match goal with
    | HL : Remove_loop_trace _ _ None |- _ => inversion HL; subst
    end.
    match goal with
    | HE : (if _ then _ else _) = None |- _ => rewrite HE in *
    end.
    do 6 eexists. split; [eassumption|]. simpl. reflexivity. }
  unfold Remove. unfold bind at 1. unfold Lock, emit. simpl.
  unfold defer, Unlock, emit.
  unfold bind at 1, reads at 1. simpl. rewrite Hd.
  unfold bind at 1, active_get at 1. simpl.
  unfold bind at 1.
  set (s1 := mkSt (world s) (trace s ++ [(EvLock, None)]) (errlog s)
                  (active s) (enableDirpermLock s) (enableDirperm s)
                  (backingFs s)).
  assert (∃ s2, (if negb (default 0%Z (active s !! desc_id idDesc) =? 0)%Z
                 then Errorf ("Removing active id " +:+ desc_id idDesc)
                 else ret ()) s1 = (Val tt, s2)
                ∧ world s2 = world s ∧ trace s2 = trace s1
                ∧ active s2 = active s1) as (s2 & -> & Hw2 & Ht2 & Ha2).
  { destruct (negb _); eexists; repeat split. }
  unfold bind at 1.
  destruct (unmount_cases a idDesc s2) as [Hm Hn]. rewrite Hw2 in Hm, Hn.
  fold (layer_path (os:=os) idDesc "mnt") in Hm.
  assert (Hnone : ∀ R : list (Event * option errno) , ∀ err,
            Remove_loop_trace (os:=os) idDesc R err →
            Forall (λ x : Event * option errno, ∀ t, fst x ≠ EvUnmount t) R).
  { intros R err HR. inversion HR; subst; repeat constructor; discriminate. }
  destruct (decide (mounted (world s) idDesc = (true, None))) as [E|E].
  - rewrite (Hm E). clear Hm Hn.
    destruct (Unmount os (layer_path (os:=os) idDesc "mnt") (world s))
      as [r w'] eqn:EU. cbn [fst snd].
    destruct r as [e|]; cbn [os_error].
    + unfold ret. simpl. do 3 eexists. split; [reflexivity|]. simpl.
      rewrite Ht2, Ha2. simpl. rewrite <- !app_assoc. simpl.
      split; [reflexivity|].
      split; [apply (RT_unmount_fails idDesc [_]);
              apply (UT_unmounted idDesc (Some e))|].
      split; [|split; [congruence|reflexivity]].
      intros _. eexists. split; [reflexivity|]. split.
      * intros e' [= <-]. auto.
      * discriminate.
    + match goal with
      | |- context [Remove_loop idDesc ?l ?s3] =>
          destruct (Remove_loop_shape idDesc s3)
            as (err & s4 & R & -> & Ht4 & Ha4 & HR)
      end.
      simpl. do 3 eexists. split; [reflexivity|]. simpl.
      simpl in Ht4, Ha4.
      rewrite Ht4, Ht2, Ha4, Ha2. simpl. rewrite <- !app_assoc. simpl.
      split; [reflexivity|].
      split; [apply (RT_unmounted idDesc [_]); [apply (UT_unmounted idDesc None)|exact HR]|].
      split; [|split; [congruence|reflexivity]].
      intros _. eexists. split; [reflexivity|]. split.
      * discriminate.
      * intros _. exists R. auto.
  - rewrite (Hn E). clear Hm Hn.
    destruct (mounted (world s) idDesc) as [m [e|]] eqn:Em; cbn [snd os_error].
    + unfold ret. simpl. do 3 eexists. split; [reflexivity|]. simpl.
      rewrite Ht2, Ha2. simpl. rewrite <- !app_assoc. simpl.
      split; [reflexivity|].
      split; [apply (RT_unmount_fails idDesc []);
              apply (UT_not_mounted idDesc (Some e))|].
      split; [congruence|]. split; [|reflexivity].
      intros _. split; [repeat constructor; discriminate|]. split.
      * intros e' [= <-]. auto.
      * discriminate.
    + destruct (Remove_loop_shape idDesc s2)
        as (err & s4 & R & -> & Ht4 & Ha4 & HR).
      simpl. do 3 eexists. split; [reflexivity|]. simpl.
      rewrite Ht4, Ht2, Ha4, Ha2. simpl. rewrite <- !app_assoc. simpl.
      split; [reflexivity|].
      split; [apply (RT_unmounted idDesc []); [apply (UT_not_mounted idDesc None)|exact HR]|].
      split; [congruence|]. split; [|reflexivity].
      intros _. split; [|split].
      * constructor; [discriminate|]. apply Forall_app. split; [eauto|].
        repeat constructor; discriminate.
      * discriminate.
      * intros _. exists R. auto.
Qed.

(** ** The union mount engine *)

Ltac destruct_call :=
  match goal with
  | |- context [ioutil_TempDir ?o ?d ?p ?w] =>
      destruct (ioutil_TempDir o d p w) as [[?|?] ?]
  | |- context [sys_mount ?o ?a ?b ?c ?d ?e ?w] =>
      destruct (sys_mount o a b c d e w) as [[?|] ?]
  | |- context [Unmount ?o ?t ?w] =>
      destruct (Unmount o t w) as [[?|] ?]
  | |- context [os_RemoveAll ?o ?p ?w] =>
      destruct (os_RemoveAll o p w) as [? ?]
  end.

Lemma useDirperm_probe_Val (s : St os) :
  ∃ s1, useDirperm_probe s = (Val tt, s1).
Proof.
  unfold useDirperm_probe, bind, call_value, call, defer, ret, Errorf,
    set_enableDirperm.
  repeat (destruct_call; simpl); eexists; reflexivity.
Qed.

(** The probe runs at most once: [useDirperm] returns the flag, leaves the
    once-guard fired, and is without effect when the guard has fired. *)
Lemma useDirperm_Val (s : St os) :
  ∃ d s1, useDirperm s = (Val d, s1)
          ∧ enableDirpermLock s1 = true ∧ enableDirperm s1 = d.
Proof.
  unfold useDirperm, bind, get_enableDirpermLock, get_enableDirperm, ret,
    set_enableDirpermLock.
  destruct (enableDirpermLock s) eqn:E; simpl; [eauto|].
  destruct (useDirperm_probe_Val s) as (s1 & ->). simpl. eauto.
Qed.

Lemma useDirperm_done (s : St os) :
  enableDirpermLock s = true → useDirperm s = (Val (enableDirperm s), s).
Proof.
  intros E.
  unfold useDirperm, bind, get_enableDirpermLock, get_enableDirperm, ret.
  rewrite E. reflexivity.
Qed.

Lemma substring_all (s : string) (n : nat) :
  String.length s <= n → substring 0 n s = s.
Proof.
  revert n. induction s as [|c s IH]; intros [|n] H; simpl in *;
    try reflexivity; try lia.
  rewrite IH; [reflexivity|lia].
Qed.

Lemma copy_into_fits (cap : Z) (b src : string) :
  (len b + len src <= cap)%Z → copy_into cap b src = b +:+ src.
Proof.
  intros H. unfold copy_into. rewrite substring_all; [reflexivity|].
  unfold len in *. lia.
Qed.

Lemma branches_len_nonneg (ro : list string) : (0 <= branches_len ro)%Z.
Proof.
  induction ro as [|r ro IH]; simpl; [lia|].
  pose proof (len_nonneg (":" +:+ r +:+ "=ro+wh")). lia.
Qed.

(** The branches copied into the buffer are the longest run of leading
    branches that fits. *)
Lemma aufsMount_fill_spec (cap : Z) (ro : list string) :
  ∀ b : string,
    ∃ k : nat,
      k <= length ro
      ∧ aufsMount_fill cap b ro = (b +:+ branches (take k ro), drop k ro)
      ∧ (len b + branches_len (take k ro) <= Z.max cap (len b))%Z
      ∧ (k < length ro → (cap < len b + branches_len (take (S k) ro))%Z).
Proof.
  induction ro as [|r ro IH]; intros b.
  - exists 0. simpl. rewrite append_nil_r.
    split; [lia|]. split; [reflexivity|]. split; lia.
  - cbn [aufsMount_fill].
    destruct (Z.ltb_spec cap (len b + len (":" +:+ r +:+ "=ro+wh")))
      as [Hno|Hfit].
    + exists 0. simpl. rewrite append_nil_r.
      split; [lia|]. split; [reflexivity|]. split; [lia|]. intros _.
      change (branches_len []) with 0%Z. lia.
    + rewrite copy_into_fits by lia.
      destruct (IH (b +:+ (":" +:+ r +:+ "=ro+wh")))
        as (k & Hk & Hf & Hle & Hgt).
      exists (S k). rewrite len_append in Hle, Hgt. simpl.
      rewrite Hf, !append_assoc.
      split; [lia|]. split; [reflexivity|]. split; [lia|].
      intros Hlt. simpl in Hgt. lia.
Qed.

Lemma aufsMount_append_spec (target mountLabel : string) (ro : list string) :
  ∀ s : St os,
    ∃ err s',
      aufsMount_append target mountLabel ro s = (Val err, s')
      ∧ match err with
        | None =>
            trace s' =
              trace s
              ++ map (λ r, (remount_call (os:=os) target mountLabel r, None))
                     ro
        | Some e =>
            ∃ j r e0,
              ro !! j = Some r ∧ e = OsError e0
              ∧ trace s' =
                  trace s
                  ++ map (λ r, (remount_call (os:=os) target mountLabel r, None))
                         (take j ro)
                  ++ [(remount_call (os:=os) target mountLabel r, Some e0)]
        end.
Proof.
  induction ro as [|r ro IH]; intros s.
  - exists None, s. simpl. rewrite app_nil_r. auto.
  - cbn [aufsMount_append]. unfold bind at 1, call at 1.
    change ("append" +:+ ":" +:+ r +:+ "=ro+wh")
      with ("append:" +:+ r +:+ "=ro+wh").
    fold (remount_call (os:=os) target mountLabel r).
    destruct (sys_mount os "none" target "aufs" MsRemount _ (world s))
      as [[e0|] w1]; simpl.
    + exists (Some (OsError e0)). eexists. split; [reflexivity|].
      exists 0, r, e0. simpl. auto.
    + match goal with
      | |- context [aufsMount_append _ _ _ ?st] =>
          destruct (IH st) as (err & s' & -> & Htr)
      end.
      exists err, s'. split; [reflexivity|]. simpl in Htr.
      destruct err as [e|].
      * destruct Htr as (j & r' & e0 & Hj & -> & Htr).
        exists (S j), r', e0. simpl. rewrite Htr, <- !app_assoc. auto.
      * rewrite Htr, <- app_assoc. reflexivity.
Qed.

Lemma Forall_mount_succeeded_remounts (target mountLabel : string)
    (ro : list string) :
  Forall (mount_succeeded target)
         (map (λ r, (remount_call (os:=os) target mountLabel r, None)) ro).
Proof.
  apply Forall_forall. intros x Hx. apply list_elem_of_In, in_map_iff in Hx.
  destruct Hx as (r & <- & _). unfold mount_succeeded, remount_call. eauto.
Qed.

(** Every run of [aufsMount], after the feature probe: a panic when the
    buffer would have a negative size; else the first mount with the
    branches that fit and, when it succeeds, the remounts of the others
    until one fails; after a failed mount call the target is unmounted. *)
Lemma aufsMount_run (s s1 : St os) (ro : list string)
    (rw target mountLabel : string) (d : bool) :
  useDirperm s = (Val d, s1) →
  let cap := mount_room (os:=os) d mountLabel in
  let filled :=
    aufsMount_fill cap (copy_into cap "" ("br:" +:+ rw +:+ "=rw")) ro in
  let first := first_mount_call (os:=os) target mountLabel (fst filled) d in
  ((cap < 0)%Z →
   aufsMount ro rw target mountLabel s
   = (Panic "makeslice: len out of range", s1))
  ∧ ((0 <= cap)%Z →
     ∃ err s',
       aufsMount ro rw target mountLabel s = (Val err, s')
       ∧ match err with
         | None =>
             trace s' =
               trace s1
               ++ (first, None)
                  :: map (λ r, (remount_call (os:=os) target mountLabel r,
                                None))
                         (snd filled)
         | Some e =>
             ∃ pre flags data e0 u,
               e = OsError e0
               ∧ Forall (mount_succeeded target) pre
               ∧ trace s' =
                   trace s1 ++ pre
                   ++ [(EvMount "none" target "aufs" flags data, Some e0);
                       (EvUnmount target, u)]
         end).
Proof.
  intros Hu cap filled first.
  destruct (useDirperm_Val s) as (d' & s1' & Hu' & Hlock & Hflag).
  rewrite Hu in Hu'. injection Hu' as <- <-.
  pose proof (useDirperm_done s1 Hlock) as Hu2. rewrite Hflag in Hu2.
  unfold aufsMount, bind. rewrite Hu. cbv beta iota zeta.
  fold (mount_room (os:=os) d mountLabel). fold cap.
  split.
  - intros Hneg. apply Z.ltb_lt in Hneg. rewrite Hneg. reflexivity.
  - intros Hpos. destruct (Z.ltb_spec cap 0) as [?|_]; [lia|].
    subst first filled.
    destruct (aufsMount_fill cap _ ro) as [b rest] eqn:Hfill.
    cbn [fst snd].
    set (first := first_mount_call (os:=os) target mountLabel b d).
    rewrite Hu2. cbv beta iota. fold (mount_opts d).
    fold (first_mount_call (os:=os) target mountLabel b d). fold first.
    unfold call at 1.
    destruct (sys_mount os "none" target "aufs" 0 _ (world s1))
      as [[e0|] w2] eqn:Hm; cbv beta iota.
    + unfold ret at 1. cbv beta iota. unfold call, ret.
      destruct (Unmount os target _) as [u w3] eqn:HU. simpl.
      do 2 eexists. split; [reflexivity|].
      exists [], 0%Z. do 3 eexists. split; [reflexivity|].
      split; [constructor|]. simpl. unfold first, first_mount_call.
      rewrite <- app_assoc. reflexivity.
    + match goal with
      | |- context [aufsMount_append target mountLabel rest ?st] =>
          destruct (aufsMount_append_spec target mountLabel rest st)
            as (err & s2 & -> & Htr)
      end.
      simpl in Htr. destruct err as [e|]; cbv beta iota.
      * destruct Htr as (j & r & e0 & Hj & -> & Htr).
        unfold call, ret.
        destruct (Unmount os target _) as [u w3] eqn:HU. simpl.
        do 2 eexists. split; [reflexivity|].
        exists ((first, None)
                :: map (λ r, (remount_call (os:=os) target mountLabel r, None))
                       (take j rest)), MsRemount.
        do 3 eexists. split; [reflexivity|]. split.
        -- constructor.
           ++ unfold first, first_mount_call, mount_succeeded. eauto.
           ++ apply Forall_mount_succeeded_remounts.
        -- simpl. rewrite Htr. unfold remount_call.
           rewrite <- ?app_assoc. simpl. rewrite <- ?app_assoc. reflexivity.
      * unfold ret. do 2 eexists. split; [reflexivity|].
        rewrite Htr, <- app_assoc. reflexivity.
Qed.

(** C2 (amended). When the engine succeeds and its buffer of
    [pagesize - len(mountLabel) - offset] bytes holds [br:<rw>=rw], the
    calls it issues after the feature probe are exactly one first mount
    (flags 0) whose options start with [br:<rw>=rw], followed by the [k]
    leading branches that fit in the buffer, nearest parent first, and then
    one remount (flag [MsRemount]) per remaining branch, in the same order,
    with the options [append:<ro>=ro+wh]; the options of each call pass
    through [label.FormatMountLabel].  [k] is the number of leading
    branches that fit: they fit, and with one more they do not. *)
Theorem aufsMount_first_mount_and_remounts (s s1 s' : St os)
    (ro : list string) (rw target mountLabel : string) (d : bool) :
  useDirperm s = (Val d, s1) →
  aufsMount ro rw target mountLabel s = (Val None, s') →
  let cap := mount_room (os:=os) d mountLabel in
  let br := "br:" +:+ rw +:+ "=rw" in
  (len br <= cap)%Z →
  ∃ k : nat,
    k <= length ro
    ∧ (len br + branches_len (take k ro) <= cap)%Z
    ∧ (k < length ro → (cap < len br + branches_len (take (S k) ro))%Z)
    ∧ trace s' =
        trace s1
        ++ (first_mount_call (os:=os) target mountLabel
                             (br +:+ branches (take k ro)) d, None)
           :: map (λ r, (remount_call (os:=os) target mountLabel r, None))
                  (drop k ro).
Proof.
  intros Hu Hrun cap br Hfit.
  pose proof (len_nonneg br) as Hbr.
  destruct (aufsMount_run s s1 ro rw target mountLabel d Hu) as [_ Hok].
  fold cap br in Hok. destruct (Hok ltac:(lia)) as (err & s2 & Hrun' & Htr).
  rewrite Hrun in Hrun'. injection Hrun' as <- <-.
  rewrite copy_into_fits in Htr by (change (len "") with 0%Z; lia).
  rewrite append_nil_l in Htr.
  destruct (aufsMount_fill_spec cap ro br) as (k & Hk & Hf & Hle & Hgt).
  rewrite Hf in Htr. cbn [fst snd] in Htr.
  exists k. repeat split; try assumption. lia.
Qed.

(** C7. Whenever a mount call of the engine fails, be it the first mount or
    a remount, no further mount is issued: the engine calls [Unmount] on
    the target next and returns the error of the failed call.  When no
    mount call fails it returns nil and unmounts nothing. *)
Theorem aufsMount_failure_unmounts (s s' : St os) (ro : list string)
    (rw target mountLabel : string) (err : option error) :
  aufsMount ro rw target mountLabel s = (Val err, s') →
  ∃ (d : bool) (s1 : St os) (evs : list (Event * option errno)),
    useDirperm s = (Val d, s1)
    ∧ trace s' = trace s1 ++ evs
    ∧ match err with
      | None => Forall (mount_succeeded target) evs
      | Some e =>
          ∃ pre flags data e0 u,
            e = OsError e0
            ∧ Forall (mount_succeeded target) pre
            ∧ evs = pre ++ [(EvMount "none" target "aufs" flags data, Some e0);
                            (EvUnmount target, u)]
      end.
Proof.
  intros Hrun.
  destruct (useDirperm_Val s) as (d & s1 & Hu & _ & _).
  destruct (aufsMount_run s s1 ro rw target mountLabel d Hu) as [Hneg Hok].
  destruct (Z.ltb_spec (mount_room (os:=os) d mountLabel) 0) as [Hlt|Hge].
  { rewrite (Hneg Hlt) in Hrun. discriminate. }
  destruct (Hok Hge) as (err' & s2 & Hrun' & Htr).
  rewrite Hrun in Hrun'. injection Hrun' as <- <-.
  exists d, s1. destruct err as [e|].
  - destruct Htr as (pre & flags & data & e0 & u & -> & Hpre & Htr).
    eexists. split; [exact Hu|]. split; [exact Htr|].
    exists pre, flags, data, e0, u. auto.
  - eexists. split; [exact Hu|]. split; [exact Htr|].
    constructor.
    + unfold mount_succeeded, first_mount_call. eauto.
    + apply Forall_mount_succeeded_remounts.
Qed.

(** ** Init *)


Arguments createRootDir_loop : simpl never.


Arguments createRootDir : simpl never.



(** ** Listing a directory *)

(** X1. [getChilds] returns the error of [ioutil.ReadDir]; of the entries read,
    [loadIds] keeps the names of those that are not directories,
    [getChildDirs] the names of the directories, both in the order of the
    listing, and every other [includeType] keeps all names. *)
Theorem getChilds_kinds (w : World os) (root : string) :
  (∀ e, ioutil_ReadDir os w root = inl e →
        ∀ includeType, getChilds w root includeType = Err (OsError e))
  ∧ (∀ ents, ioutil_ReadDir os w root = inr ents →
       loadIds w root
       = Ok (map fst (List.filter (λ d : dirent, negb (snd d)) ents))
       ∧ getChildDirs w root
         = Ok (map fst (List.filter (λ d : dirent, snd d) ents))
       ∧ (∀ includeType, includeType ≠ 1%Z → includeType ≠ 2%Z →
            getChilds w root includeType = Ok (map fst ents))).
Proof.
  split.
  - intros e H includeType. unfold getChilds. now rewrite H.
  - intros ents H. split; [now apply loadIds_files|]. split.
    + unfold getChildDirs, getChilds. rewrite H, getChilds_loop_filter.
      simpl. do 2 f_equal. apply filter_ext. intros [n []]; reflexivity.
    + intros t H1 H2. unfold getChilds. rewrite H, getChilds_loop_filter.
      simpl. do 2 f_equal.
      apply Z.eqb_neq in H1, H2. rewrite H1, H2. simpl. clear H.
      induction ents as [|d ents IH]; simpl; [reflexivity|]. now rewrite IH.
Qed.

(** ** Resolving an id: what the answer of [getIdDesc] tells *)

Lemma lookupId_In_inv (targetId : string) (ids : list string) (d : IdDesc) :
  lookupId targetId ids = Some d → In targetId ids.
Proof.
  induction ids as [|i ids IH]; simpl; [discriminate|].
  destruct (String.eqb i targetId) eqn:E; [|auto].
  apply String.eqb_eq in E. auto.
Qed.

Lemma lookupId_None (targetId : string) (ids : list string) :
  lookupId targetId ids = None → ¬ In targetId ids.
Proof.
  intros H Hin. now rewrite (lookupId_In _ _ Hin) in H.
Qed.

Lemma not_lists (w : World os) (dir targetId : string) (ids : list string) :
  loadIds w dir = Ok ids → ¬ In targetId ids → ¬ lists w dir targetId.
Proof. intros H Hn (ids' & H' & Hin). congruence. Qed.

Lemma getIdDesc_remote_Ok (w : World os) (a : Driver) (targetId : string)
    (dirs : list string) (d : IdDesc) :
  getIdDesc_remote w a targetId dirs = Ok d →
  ∃ subdir, In subdir dirs
            ∧ desc_rootPath d = path_Join os [rootNFSImageLayers a; subdir]
            ∧ lists w (path_Join os [rootNFSImageLayers a; subdir; "layers"])
                    targetId.
Proof.
  induction dirs as [|sub dirs IH]; simpl; [discriminate|].
  destruct (loadIds w (path_Join os [rootNFSImageLayers a; sub; "layers"]))
    as [ids|e] eqn:E.
  - destruct (lookupId targetId ids) as [d'|] eqn:L.
    + intros [= <-]. exists sub. split; [now left|]. split; [reflexivity|].
      exists ids. split; [exact E|]. eapply lookupId_In_inv, L.
    + intros H. destruct (IH H) as (s & ? & ? & ?). exists s. auto.
  - intros H. destruct (IH H) as (s & ? & ? & ?). exists s. auto.
Qed.

Lemma getIdDesc_remote_Err (w : World os) (a : Driver) (targetId : string)
    (dirs : list string) (e : error) :
  getIdDesc_remote w a targetId dirs = Err e →
  e = ErrUnknownID
  ∧ ∀ subdir, In subdir dirs →
      ¬ lists w (path_Join os [rootNFSImageLayers a; subdir; "layers"])
              targetId.
Proof.
  induction dirs as [|sub dirs IH]; simpl.
  - intros [= <-]. split; [reflexivity|]. intros ? [].
  - destruct (loadIds w (path_Join os [rootNFSImageLayers a; sub; "layers"]))
      as [ids|e'] eqn:E.
    + destruct (lookupId targetId ids) as [d'|] eqn:L; [discriminate|].
      intros H. destruct (IH H) as [-> Hall]. split; [reflexivity|].
      intros s [<-|Hin]; [|auto].
      eapply not_lists; [exact E|]. now apply lookupId_None.
    + intros H. destruct (IH H) as [-> Hall]. split; [reflexivity|].
      intros s [<-|Hin]; [|auto].
      intros (ids & Hl & _). congruence.
Qed.

Lemma loadIds_Err (w : World os) (dir : string) (e : error) :
  loadIds w dir = Err e → ∃ n, e = OsError n.
Proof.
  unfold loadIds, getChilds.
  destruct (ioutil_ReadDir os w dir); intros [= <-]. eauto.
Qed.

Lemma getChildDirs_Err (w : World os) (dir : string) (e : error) :
  getChildDirs w dir = Err e → ∃ n, e = OsError n.
Proof.
  unfold getChildDirs, getChilds.
  destruct (ioutil_ReadDir os w dir); intros [= <-]. eauto.
Qed.

(** X2. The answers of [getIdDesc] are sound.  A descriptor carries the id asked
    for and the first root, in the order of the search, whose layers/
    directory lists it; [ErrUnknownID] is returned only when both local
    layers/ directories and the remote root could be read and no root lists
    the id; every other error is an error of the platform. *)
Theorem getIdDesc_sound (w : World os) (a : Driver) (targetId : string) :
  let c := path_Join os [rootLocalContainerLayers a; "layers"] in
  let i := path_Join os [rootLocalImageLayers a; "layers"] in
  let n := rootNFSImageLayers a in
  let r := λ d, path_Join os [n; d; "layers"] in
  (∀ d, getIdDesc w a targetId = Ok d →
     desc_id d = targetId
     ∧ ((desc_rootPath d = rootLocalContainerLayers a ∧ lists w c targetId)
        ∨ (desc_rootPath d = rootLocalImageLayers a
           ∧ ¬ lists w c targetId ∧ lists w i targetId)
        ∨ (∃ dirs subdir,
             getChildDirs w n = Ok dirs ∧ In subdir dirs
             ∧ desc_rootPath d = path_Join os [n; subdir]
             ∧ ¬ lists w c targetId ∧ ¬ lists w i targetId
             ∧ lists w (r subdir) targetId)))
  ∧ (getIdDesc w a targetId = Err ErrUnknownID →
     (∃ ids, loadIds w c = Ok ids ∧ ¬ In targetId ids)
     ∧ (∃ ids, loadIds w i = Ok ids ∧ ¬ In targetId ids)
     ∧ ∃ dirs, getChildDirs w n = Ok dirs
               ∧ ∀ subdir, In subdir dirs → ¬ lists w (r subdir) targetId)
  ∧ (∀ e, getIdDesc w a targetId = Err e →
          e = ErrUnknownID ∨ ∃ k, e = OsError k).
Proof.
  intros c i n r. unfold getIdDesc. simpl. fold c i n.
  destruct (loadIds w c) as [ids|e1] eqn:Ec.
  2: { destruct (loadIds_Err _ _ _ Ec) as (k & ->).
       split; [discriminate|]. split; [discriminate|].
       intros e [= <-]. eauto. }
  destruct (lookupId targetId ids) as [d1|] eqn:L1.
  { split; [|split; discriminate].
    intros d [= <-]. simpl. split; [eapply lookupId_Some, L1|].
    left. split; [reflexivity|]. exists ids. split; [exact Ec|].
    eapply lookupId_In_inv, L1. }
  apply lookupId_None in L1.
  pose proof (not_lists _ _ _ _ Ec L1) as Nc.
  destruct (loadIds w i) as [ids'|e2] eqn:Ei.
  2: { destruct (loadIds_Err _ _ _ Ei) as (k & ->).
       split; [discriminate|]. split; [discriminate|].
       intros e [= <-]. eauto. }
  destruct (lookupId targetId ids') as [d2|] eqn:L2.
  { split; [|split; discriminate].
    intros d [= <-]. simpl. split; [eapply lookupId_Some, L2|].
    right. left. split; [reflexivity|]. split; [exact Nc|].
    exists ids'. split; [exact Ei|]. eapply lookupId_In_inv, L2. }
  apply lookupId_None in L2.
  pose proof (not_lists _ _ _ _ Ei L2) as Ni.
  destruct (getChildDirs w n) as [dirs|e3] eqn:En.
  2: { destruct (getChildDirs_Err _ _ _ En) as (k & ->).
       split; [discriminate|]. split; [discriminate|].
       intros e [= <-]. eauto. }
  split; [|split].
  - intros d H. split; [eapply getIdDesc_remote_id, H|].
    destruct (getIdDesc_remote_Ok _ _ _ _ _ H) as (sub & Hin & Hroot & Hl).
    right. right. exists dirs, sub. auto 10.
  - intros H. apply getIdDesc_remote_Err in H as [_ Hall].
    split; [eauto|]. split; [eauto|]. exists dirs. auto.
  - intros e H. apply getIdDesc_remote_Err in H as [-> _]. now left.
Qed.

(** ** Every id: [loadAllIds] *)

Lemma loadAllIds_remote_In (w : World os) (a : Driver) (dirs : list string) :
  ∀ (allIds : list string) (id : string),
    In id (loadAllIds_remote w a dirs allIds)
    ↔ In id allIds
      ∨ ∃ subdir, In subdir dirs
                  ∧ lists w (path_Join os [rootNFSImageLayers a; subdir;
                                           "layers"]) id.
Proof.
  induction dirs as [|sub dirs IH]; intros allIds id; simpl.
  - split; [auto|]. intros [H|(s & [] & _)]. exact H.
  - destruct (loadIds w (path_Join os [rootNFSImageLayers a; sub; "layers"]))
      as [ids|e] eqn:E; rewrite IH.
    + rewrite in_app_iff. split.
      * intros [[H|H]|(s & Hin & Hl)]; [now left| |].
        -- right. exists sub. split; [now left|]. exists ids. auto.
        -- right. exists s. auto.
      * intros [H|(s & [<-|Hin] & Hl)]; [auto| |].
        -- destruct Hl as (ids' & Hl & Hin). left. right. congruence.
        -- right. exists s. auto.
    + split.
      * intros [H|(s & Hin & Hl)]; [now left|]. right. exists s. auto.
      * intros [H|(s & [<-|Hin] & Hl)]; [auto| |].
        -- destruct Hl as (ids' & Hl & _). congruence.
        -- right. exists s. auto.
Qed.

Lemma getIdDesc_remote_lists (w : World os) (a : Driver) (id : string)
    (dirs : list string) :
  (∃ d, getIdDesc_remote w a id dirs = Ok d)
  ↔ ∃ subdir, In subdir dirs
              ∧ lists w (path_Join os [rootNFSImageLayers a; subdir;
                                       "layers"]) id.
Proof.
  split.
  - intros (d & H). destruct (getIdDesc_remote_Ok _ _ _ _ _ H) as (s & ? & _ & ?).
    exists s. auto.
  - intros (s & Hin & Hl).
    destruct (getIdDesc_remote w a id dirs) as [d|e] eqn:E; [eauto|].
    apply getIdDesc_remote_Err in E as [_ Hall]. destruct (Hall s Hin Hl).
Qed.

(** X3. [loadAllIds] and [Exists] agree: when [loadAllIds] succeeds, the ids it
    returns are exactly the ids [Exists] answers true for, also when the
    remote root cannot be listed (then both know the local ids only).  When
    it fails, a local layers/ directory cannot be read, and the only ids
    that still resolve are those of the local-container root. *)
Theorem loadAllIds_agrees_with_Exists (w : World os) (a : Driver) :
  (∀ ids, loadAllIds w a = Ok ids →
          ∀ id, In id ids ↔ Exists w a id = true)
  ∧ (∀ e, loadAllIds w a = Err e →
          (∃ k, e = OsError k)
          ∧ ∀ id d, getIdDesc w a id = Ok d →
                    desc_rootPath d = rootLocalContainerLayers a).
Proof.
  unfold loadAllIds, Exists, getIdDesc. simpl.
  destruct (loadIds w (path_Join os [rootLocalContainerLayers a; "layers"]))
    as [ids1|e1] eqn:Ec.
  2: { split; [discriminate|]. intros e [= <-].
       split; [eapply loadIds_Err, Ec|]. discriminate. }
  destruct (loadIds w (path_Join os [rootLocalImageLayers a; "layers"]))
    as [ids2|e2] eqn:Ei.
  2: { split; [discriminate|]. intros e [= <-].
       split; [eapply loadIds_Err, Ei|]. intros id d.
       destruct (lookupId id ids1) as [d1|]; [|discriminate].
       now intros [= <-]. }
  split; [|destruct (getChildDirs w _); discriminate].
  intros ids Hall id.
  destruct (lookupId id ids1) as [d1|] eqn:L1.
  { split; [reflexivity|]. intros _. apply lookupId_In_inv in L1.
    destruct (getChildDirs w _); injection Hall as <-.
    - apply loadAllIds_remote_In. left. apply in_app_iff. now left.
    - apply in_app_iff. now left. }
  apply lookupId_None in L1.
  destruct (lookupId id ids2) as [d2|] eqn:L2.
  { split; [reflexivity|]. intros _. apply lookupId_In_inv in L2.
    destruct (getChildDirs w _); injection Hall as <-.
    - apply loadAllIds_remote_In. left. apply in_app_iff. now right.
    - apply in_app_iff. now right. }
  apply lookupId_None in L2.
  destruct (getChildDirs w (rootNFSImageLayers a)) as [dirs|e3];
    injection Hall as <-.
  - rewrite loadAllIds_remote_In. simpl. rewrite in_app_iff.
    pose proof (getIdDesc_remote_lists w a id dirs) as Hr.
    destruct (getIdDesc_remote w a id dirs) as [d|e] eqn:E.
    + split; [reflexivity|]. intros _. right. apply Hr. eauto.
    + split; [|discriminate]. intros [[H|H]|H]; [tauto|tauto|].
      apply Hr in H as (d & ?). discriminate.
  - simpl. rewrite in_app_iff. split; [tauto|discriminate].
Qed.

(** ** The parent chain *)

Lemma dropCR_no_LF (s : string) : no_LF s = true → no_LF (dropCR s) = true.
Proof.
  induction s as [|c s IH]; [reflexivity|].
  intros H. simpl in H. apply andb_true_iff in H as [Hc Hs].
  destruct s as [|c' s'].
  - simpl. destruct (Ascii.eqb c CR); [reflexivity|]. simpl. now rewrite Hc.
  - change (dropCR (String c (String c' s')))
      with (String c (dropCR (String c' s'))).
    simpl no_LF. rewrite Hc. simpl. apply IH, Hs.
Qed.

Lemma dropCR_len (s : string) : (len (dropCR s) <= len s)%Z.
Proof.
  induction s as [|c s IH]; [reflexivity|].
  destruct s as [|c' s'].
  - simpl. destruct (Ascii.eqb c CR); [|reflexivity].
    rewrite len_String. change (len "") with 0%Z. lia.
  - change (dropCR (String c (String c' s')))
      with (String c (dropCR (String c' s'))).
    rewrite !(len_String c). lia.
Qed.

Lemma no_LF_append (s t : string) :
  no_LF (s +:+ t) = no_LF s && no_LF t.
Proof.
  induction s as [|c s IH]; [reflexivity|].
  rewrite append_String. simpl. rewrite IH. now rewrite andb_assoc.
Qed.

(** Every token of the scanner is free of line feeds and shorter than the
    buffer. *)
Lemma scan_from_tokens (s : string) :
  ∀ cur : string,
    no_LF cur = true → (len cur < MaxScanTokenSize)%Z →
    Forall (λ t, no_LF t = true ∧ (len t < MaxScanTokenSize)%Z)
           (fst (scan_from cur s)).
Proof.
  induction s as [|c s IH]; intros cur Hlf Hlen.
  - cbn [scan_from]. destruct cur as [|c0 cur]; cbn [fst]; [constructor|].
    constructor; [|constructor]. split; [now apply dropCR_no_LF|].
    pose proof (dropCR_len (String c0 cur)). lia.
  - cbn [scan_from]. destruct (Ascii.eqb c LF) eqn:Ec.
    + specialize (IH "" eq_refl ltac:(reflexivity)).
      destruct (scan_from "" s) as [toks e]. cbn [fst] in *.
      constructor; [|exact IH]. split; [now apply dropCR_no_LF|].
      pose proof (dropCR_len cur). lia.
    + destruct (Z.leb_spec MaxScanTokenSize (len cur + 1)); [constructor|].
      apply IH.
      * rewrite no_LF_append, Hlf. simpl. now rewrite Ec.
      * rewrite len_append, len_String. change (len "") with 0%Z. lia.
Qed.

Lemma getParentIds_loop_In (toks : list string) :
  ∀ (out : list string) (i : string),
    In i (getParentIds_loop toks out) ↔ In i out ∨ (In i toks ∧ i ≠ "").
Proof.
  induction toks as [|t toks IH]; intros out i; simpl.
  - tauto.
  - destruct (String.eqb_spec t "") as [->|Hne]; simpl; rewrite IH.
    + split; [tauto|]. intros [H|[[<-|H] Hi]]; tauto.
    + rewrite in_app_iff. simpl. split.
      * intros [[H|[<-|[]]]|[H Hi]]; auto.
      * intros [H|[[<-|H] Hi]]; auto.
Qed.

(** X4. The parents [getParentIds] returns, whatever the layers file holds and
    also when the read ends in an error: none is empty, none holds a line
    feed, each is shorter than the scanner's buffer; and no parent is
    returned for a file that cannot be opened. *)
Theorem getParentIds_ids_are_lines (w : World os) (root id : string) :
  (∀ i, In i (fst (getParentIds w root id)) →
        i ≠ "" ∧ no_LF i = true ∧ (len i < MaxScanTokenSize)%Z)
  ∧ (∀ e, os_Open os w (path_Join os [root; "layers"; id]) = inl e →
          getParentIds w root id = ([], Some (OsError e))).
Proof.
  unfold getParentIds, scan_stream. split.
  - intros i.
    destruct (os_Open os w _) as [e|f]; simpl; [tauto|].
    pose proof (scan_from_tokens (fst f) "" eq_refl ltac:(reflexivity)) as Ht.
    destruct (scan_from "" (fst f)) as [toks e]. simpl in *.
    rewrite getParentIds_loop_In. intros [[]|[Hin Hne]].
    split; [exact Hne|]. rewrite Forall_forall in Ht.
    apply Ht. now apply list_elem_of_In.
  - intros e ->. reflexivity.
Qed.

Lemma getParentLayerPaths_loop_Ok (w : World os) (a : Driver)
    (ids layers : list string) :
  getParentLayerPaths_loop w a ids = Ok layers
  ↔ Forall2 (λ p l, ∃ pd, getIdDesc w a p = Ok pd
                          ∧ l = path_Join os [desc_rootPath pd; "diff"; p])
            ids layers.
Proof.
  revert layers. induction ids as [|p ids IH]; intros layers; simpl.
  - split.
    + intros [= <-]. constructor.
    + intros H. inversion H. reflexivity.
  - destruct (getIdDesc w a p) as [pd|e] eqn:E.
    + pose proof (getIdDesc_id _ _ _ _ E) as Hid. subst p.
      destruct (getParentLayerPaths_loop w a ids) as [ls|e] eqn:El.
      * split.
        -- intros [= <-]. constructor; [|now apply IH].
           exists pd. auto.
        -- intros H. inversion H as [|? l ? ls' (pd' & Hpd & ->) Hrest]; subst.
           apply IH in Hrest. injection Hrest as <-.
           rewrite E in Hpd. injection Hpd as <-. reflexivity.
      * split; [discriminate|].
        intros H. inversion H as [|? l ? ls' _ Hrest]; subst.
        apply IH in Hrest. discriminate.
    + split; [discriminate|].
      intros H. inversion H as [|? l ? ls' (pd' & Hpd & _) _]; subst.
      congruence.
Qed.

Lemma getParentLayerPaths_loop_Err (w : World os) (a : Driver)
    (pre post : list string) (p : string) (e : error) :
  Forall (λ q, Exists w a q = true) pre →
  getIdDesc w a p = Err e →
  getParentLayerPaths_loop w a (pre ++ p :: post) = Err e.
Proof.
  intros Hpre Hp. induction Hpre as [|q pre Hq _ IH]; simpl.
  - now rewrite Hp.
  - unfold Exists in Hq. destruct (getIdDesc w a q); [|discriminate].
    now rewrite IH.
Qed.

(** X5. [getParentLayerPaths] turns the chain of a layer into the diff
    directories of its parents, one per parent and in the order of the
    chain, each below the root where that parent resolves; it fails with the
    error of reading the chain, and with the error of the first parent that
    does not resolve. *)
Theorem getParentLayerPaths_chain (w : World os) (a : Driver) (d : IdDesc) :
  (∀ ids e, getParentIds w (desc_rootPath d) (desc_id d) = (ids, Some e) →
            getParentLayerPaths w a d = Err e)
  ∧ (∀ ids, getParentIds w (desc_rootPath d) (desc_id d) = (ids, None) →
       (∀ layers,
          getParentLayerPaths w a d = Ok layers
          ↔ Forall2 (λ p l, ∃ pd, getIdDesc w a p = Ok pd
                                  ∧ l = path_Join os [desc_rootPath pd;
                                                      "diff"; p])
                    ids layers)
       ∧ (∀ pre p post e,
            ids = pre ++ p :: post →
            Forall (λ q, Exists w a q = true) pre →
            getIdDesc w a p = Err e →
            getParentLayerPaths w a d = Err e)).
Proof.
  unfold getParentLayerPaths. split.
  - intros ids e ->. reflexivity.
  - intros ids ->. split.
    + intros layers. apply getParentLayerPaths_loop_Ok.
    + intros pre p post e -> Hpre Hp.
      now apply getParentLayerPaths_loop_Err.
Qed.

(** ** Mounting and unmounting one layer *)

(** X6. [a.mount] and [a.unmount] ask the mount table first.  When the table
    cannot be read both return its error, when the target is already in the
    wanted state both return nil, and in either case nothing is called and
    nothing changes.  A target that is not mounted is mounted by
    [aufsMount] over the diff directories of the parents; a parent that
    does not resolve is the error of [a.mount], before any call, and an
    error of [aufsMount] is returned wrapped with the target. *)
Theorem mount_unmount_ask_mount_table (a : Driver) (d : IdDesc)
    (mountLabel : string) (s : St os) :
  let m := mounted (world s) d in
  let target := path_Join os [desc_rootPath d; "mnt"; desc_id d] in
  let rw := path_Join os [desc_rootPath d; "diff"; desc_id d] in
  (snd m ≠ None ∨ fst m = true →
   mount a d mountLabel s = (Val (os_error (snd m)), s))
  ∧ (snd m ≠ None ∨ fst m = false →
     unmount a d s = (Val (os_error (snd m)), s))
  ∧ (m = (false, None) →
     ∀ e, getParentLayerPaths (world s) a d = Err e →
          mount a d mountLabel s = (Val (Some e), s))
  ∧ (m = (false, None) →
     ∀ layers, getParentLayerPaths (world s) a d = Ok layers →
       ∀ err s', aufsMount layers rw target mountLabel s = (Val err, s') →
         mount a d mountLabel s
         = (Val (match err with
                 | Some e => Some (ErrAufsMount target e)
                 | None => None
                 end), s')).
Proof.
  intros m target rw. subst m. unfold mount, unmount. mrun.
  destruct (mounted (world s) d) as [b r]. simpl.
  split; [|split; [|split]].
  - intros [H|H].
    + destruct r; [reflexivity|congruence].
    + subst b. destruct r; reflexivity.
  - intros [H|H].
    + destruct r; [reflexivity|congruence].
    + subst b. destruct r; reflexivity.
  - intros [= -> ->] e He. simpl. now rewrite He.
  - intros [= -> ->] layers Hl err s' Hm. simpl. rewrite Hl.
    fold target rw. rewrite Hm. destruct err; reflexivity.
Qed.

(** ** The probe for dirperm1 *)

(** X7. [useDirperm] runs its probe at most once: whatever the state, after one
    call a second call returns the same answer and changes nothing, and a
    call made after the once-guard has fired is itself without effect. *)
Theorem useDirperm_once (s : St os) :
  ∃ d s1,
    useDirperm s = (Val d, s1)
    ∧ useDirperm s1 = (Val d, s1)
    ∧ (enableDirpermLock s = true → s1 = s ∧ d = enableDirperm s).
Proof.
  destruct (useDirperm_Val s) as (d & s1 & Hu & Hlock & Hflag).
  exists d, s1. split; [exact Hu|]. split.
  - rewrite (useDirperm_done s1 Hlock), Hflag. reflexivity.
  - intros E. rewrite (useDirperm_done s E) in Hu. injection Hu as <- <-. auto.
Qed.

(** X8. The first call of [useDirperm] probes the kernel: it creates a base and
    a union directory, mounts the union over the base with the option
    dirperm1 and unmounts it.  Every directory it created is removed before
    it returns, the union before the base, also when a later step fails;
    the flag it answers with is set exactly when the mount was accepted,
    and a failed unmount of the probe does not clear it.  The active map is
    left alone. *)
Theorem useDirperm_probe_cleans_up (s : St os) :
  enableDirpermLock s = false →
  ∃ d s1 evs,
    useDirperm s = (Val d, s1)
    ∧ trace s1 = trace s ++ evs
    ∧ probe_trace (world s) (enableDirperm s) evs d
    ∧ enableDirperm s1 = d
    ∧ enableDirpermLock s1 = true
    ∧ active s1 = active s.
Proof.
  intros E.
  unfold useDirperm, bind, get_enableDirpermLock, get_enableDirperm, ret,
    set_enableDirpermLock.
  rewrite E. cbv beta iota.
  unfold useDirperm_probe, bind, call_value, call, defer, ret, Errorf,
    set_enableDirperm.
  destruct (ioutil_TempDir os "" "docker-aufs-base" (world s))
    as [[e|base] w1] eqn:H1; simpl.
  { do 3 eexists. split; [reflexivity|]. simpl. split; [reflexivity|].
    split; [|auto]. apply PT_no_base. now rewrite H1. }
  destruct (ioutil_TempDir os "" "docker-aufs-union" w1)
    as [[e|union] w2] eqn:H2; simpl.
  { destruct_call. simpl.
    do 3 eexists. split; [reflexivity|]. simpl. rewrite <- !app_assoc.
    split; [reflexivity|]. split; [|auto].
    apply PT_no_union. now rewrite H1. }
  destruct (sys_mount os "none" union "aufs" 0 _ w2) as [[e|] w3]; simpl.
  { repeat (destruct_call; simpl).
    do 3 eexists. split; [reflexivity|]. simpl. rewrite <- !app_assoc.
    split; [reflexivity|]. split; [|auto].
    apply PT_refused; [now rewrite H1|]. rewrite H1. simpl. now rewrite H2. }
  repeat (destruct_call; simpl);
    do 3 eexists; (split; [reflexivity|]); simpl; rewrite <- !app_assoc;
    (split; [reflexivity|]); (split; [|auto]);
    (apply PT_accepted; [now rewrite H1|]); rewrite H1; simpl; now rewrite H2.
Qed.

(** ** Bootstrapping a root *)

Lemma createRootDir_loop_cons (root p : string) (rest : list string) :
  createRootDir_loop root (p :: rest)
  = (err <- call (EvMkdirAll (path_Join os [root; p]) 493)
                 (os_MkdirAll os (path_Join os [root; p]) 493) ;;
     match err with
     | Some e => ret (Some (OsError e))
     | None => createRootDir_loop root rest
     end).
Proof. reflexivity. Qed.

Lemma createRootDir_loop_plan (root : string) (paths : list string) :
  ∀ s : St os,
    ∃ r s' evs,
      createRootDir_loop root paths s = (Val (os_error r), s')
      ∧ trace s' = trace s ++ evs
      ∧ stops_at_first_error
          (map (λ p, EvMkdirAll (path_Join os [root; p]) 493) paths) evs r.
Proof.
  induction paths as [|p paths IH]; intros s.
  - exists None, s, []. unfold createRootDir_loop, ret.
    rewrite app_nil_r. repeat split. apply plan_done.
  - rewrite createRootDir_loop_cons. unfold bind at 1, call at 1.
    destruct (os_MkdirAll os _ 493 (world s)) as [[n|] w1]; simpl.
    + exists (Some n). do 2 eexists. split; [reflexivity|].
      split; [reflexivity|].
      apply (plan_fails _ 0 (EvMkdirAll (path_Join os [root; p]) 493) n).
      reflexivity.
    + match goal with
      | |- context [createRootDir_loop root paths ?st] =>
          destruct (IH st) as (r & s' & evs & -> & Ht & Hp)
      end.
      exists r, s'. eexists. split; [reflexivity|]. simpl in Ht.
      rewrite Ht, <- app_assoc. split; [reflexivity|].
      destruct Hp as [|j ev e Hj].
      * apply (plan_done
                 (EvMkdirAll (path_Join os [root; p]) 493 :: map _ paths)).
      * apply (plan_fails
                 (EvMkdirAll (path_Join os [root; p]) 493 :: map _ paths)
                 (S j) ev e Hj).
Qed.

(** X9. [createRootDir] creates the root, then mnt, diff and layers below it,
    then makes the root a private mount, and stops at the first of these
    calls that fails, whose error it returns.  The one exception is the
    creation of the root itself: when that fails with an error that
    [os.IsExist] accepts, [createRootDir] returns nil at once, without
    creating the three directories and without making the root private. *)
Theorem createRootDir_calls (root : string) (s : St os) :
  ∃ err s' evs r,
    createRootDir root s = (Val err, s')
    ∧ trace s' = trace s ++ evs
    ∧ stops_at_first_error
        [EvMkdirAll root 493;
         EvMkdirAll (path_Join os [root; "mnt"]) 493;
         EvMkdirAll (path_Join os [root; "diff"]) 493;
         EvMkdirAll (path_Join os [root; "layers"]) 493;
         EvMakePrivate root] evs r
    ∧ err = match evs with
            | [(_, Some e)] =>
                if IsExist (OsError e) then None else Some (OsError e)
            | _ => os_error r
            end.
Proof.
  unfold createRootDir. unfold bind at 1, call at 1.
  destruct (os_MkdirAll os root 493 (world s)) as [[n|] w1]; cbv beta iota.
  - exists (if IsExist (OsError n) then None else Some (OsError n)).
    eexists. exists [(EvMkdirAll root 493, Some n)], (Some n).
    split; [destruct (IsExist (OsError n)); reflexivity|].
    split; [destruct (IsExist (OsError n)); reflexivity|].
    split; [|reflexivity].
    apply (plan_fails _ 0 (EvMkdirAll root 493) n). reflexivity.
  - unfold bind at 1.
    match goal with
    | |- context [createRootDir_loop root ?ps ?st] =>
        destruct (createRootDir_loop_plan root ps st)
          as (r & s1 & evs & -> & Ht & Hp)
    end.
    simpl in Ht. simpl in Hp.
    destruct r as [e|]; cbn [os_error]; cbv beta iota.
    + inversion Hp as [|j ev e' Hj Hevs]; subst.
      unfold ret.
      exists (Some (OsError e)), s1. eexists. exists (Some e).
      split; [reflexivity|]. rewrite Ht, <- app_assoc.
      split; [reflexivity|].
      destruct j as [|[|[|j]]]; simpl in Hj; try discriminate;
        injection Hj as <-; (split; [|reflexivity]).
      * apply (plan_fails [EvMkdirAll root 493; _; _; _; EvMakePrivate root]
                          1 _ e). reflexivity.
      * apply (plan_fails [EvMkdirAll root 493; _; _; _; EvMakePrivate root]
                          2 _ e). reflexivity.
      * apply (plan_fails [EvMkdirAll root 493; _; _; _; EvMakePrivate root]
                          3 _ e). reflexivity.
    + inversion Hp as [Hevs|]; subst.
      unfold bind, call, ret.
      destruct (mountpk_MakePrivate os root (world s1)) as [[n|] w2];
        cbv beta iota.
      * exists (Some (OsError n)). eexists. eexists. exists (Some n).
        split; [reflexivity|]. simpl. rewrite Ht.
        rewrite <- !app_assoc. split; [reflexivity|]. split; [|reflexivity].
        exact (plan_fails
                 [EvMkdirAll root 493;
                  EvMkdirAll (path_Join os [root; "mnt"]) 493;
                  EvMkdirAll (path_Join os [root; "diff"]) 493;
                  EvMkdirAll (path_Join os [root; "layers"]) 493;
                  EvMakePrivate root] 4 (EvMakePrivate root) n eq_refl).
      * exists None. eexists. eexists. exists None.
        split; [reflexivity|]. simpl. rewrite Ht.
        rewrite <- !app_assoc. split; [reflexivity|]. split; [|reflexivity].
        apply (plan_done [EvMkdirAll root 493; _; _; _; EvMakePrivate root]).
Qed.

(** ** Creating a layer *)

Lemma Create_loop_plan (f : string) (ids : list string) :
  ∀ s : St os,
    ∃ r s' evs,
      Create_loop f ids s = (Val (os_error r), s')
      ∧ trace s' = trace s ++ evs
      ∧ stops_at_first_error (map (EvFprintln f) ids) evs r.
Proof.
  induction ids as [|i ids IH]; intros s.
  - exists None, s, []. cbn [Create_loop]. unfold ret.
    rewrite app_nil_r. repeat split. apply plan_done.
  - cbn [Create_loop]. unfold bind at 1, call at 1.
    destruct (fmt_Fprintln os f i (world s)) as [[n|] w1]; simpl.
    + exists (Some n). do 2 eexists. split; [reflexivity|].
      split; [reflexivity|].
      apply (plan_fails _ 0 (EvFprintln f i) n). reflexivity.
    + match goal with
      | |- context [Create_loop f ids ?st] =>
          destruct (IH st) as (r & s' & evs & -> & Ht & Hp)
      end.
      exists r, s'. eexists. split; [reflexivity|]. simpl in Ht.
      rewrite Ht, <- app_assoc. split; [reflexivity|].
      destruct Hp as [|j ev e Hj].
      * apply (plan_done (EvFprintln f i :: map _ ids)).
      * apply (plan_fails (EvFprintln f i :: map _ ids) (S j) ev e Hj).
Qed.

(** X10. Every run of [Create].  It creates mnt/<id>, diff/<id> and the layers
    file below the local root chosen by [isImageLayer] and stops at the
    first of these calls that fails.  Once the file is created it is closed
    as the last call of every path.  In between the parent and the parent's
    chain are written, one line each, until a write fails; nothing is
    written for the empty parent, and nothing when the parent does not
    resolve or its chain cannot be read: [Create] then returns that error
    and leaves the directories and an empty layers file behind. *)
Theorem Create_calls (a : Driver) (id parent : string) (isImageLayer : bool)
    (s : St os) :
  let root := rootLocalLayers a isImageLayer in
  let mnt := path_Join os [root; "mnt"; id] in
  let diff := path_Join os [root; "diff"; id] in
  let f := path_Join os [root; "layers"; id] in
  let w3 :=
    snd (os_Create os f
           (snd (os_MkdirAll os diff 493
                   (snd (os_MkdirAll os mnt 493 (world s)))))) in
  ∃ err s' evs,
    Create a id parent isImageLayer s = (Val err, s')
    ∧ trace s' = trace s ++ evs
    ∧ ((∃ e, err = Some (OsError e)
             ∧ stops_at_first_error
                 [EvMkdirAll mnt 493; EvMkdirAll diff 493; EvCreate f]
                 evs (Some e))
       ∨ (∃ chain W r closed,
            evs = [(EvMkdirAll mnt 493, None); (EvMkdirAll diff 493, None);
                   (EvCreate f, None)]
                  ++ W ++ [(EvClose f, closed)]
            ∧ stops_at_first_error (map (EvFprintln f) chain) W r
            ∧ if String.eqb parent "" then chain = [] ∧ err = None
              else
                match getIdDesc w3 a parent with
                | Err e => chain = [] ∧ err = Some e
                | Ok pd =>
                    match getParentIds w3 (desc_rootPath pd) parent with
                    | (_, Some e) => chain = [] ∧ err = Some e
                    | (ids, None) => chain = parent :: ids ∧ err = os_error r
                    end
                end)).
Proof.
  intros root mnt diff f w3.
  unfold Create, createDirsFor. cbn [createDirsFor_loop].
  fold root. fold mnt diff. unfold bind at 1 2 3, call at 1.
  subst w3.
  destruct (os_MkdirAll os mnt 493 (world s)) as [[e|] w1]; simpl.
  { do 3 eexists. split; [reflexivity|]. split; [reflexivity|]. left.
    exists e. split; [reflexivity|].
    apply (plan_fails _ 0 (EvMkdirAll mnt 493) e). reflexivity. }
  unfold bind at 1 2, call at 1. simpl.
  destruct (os_MkdirAll os diff 493 w1) as [[e|] w2]; simpl.
  { do 3 eexists. split; [reflexivity|]. simpl. rewrite <- !app_assoc.
    split; [reflexivity|]. left.
    exists e. split; [reflexivity|].
    exact (plan_fails [EvMkdirAll mnt 493; EvMkdirAll diff 493; EvCreate f]
                      1 (EvMkdirAll diff 493) e eq_refl). }
  fold f. unfold bind at 1, call at 1. simpl.
  destruct (os_Create os f w2) as [[e|] w3]; simpl.
  { do 3 eexists. split; [reflexivity|]. simpl. rewrite <- !app_assoc.
    split; [reflexivity|]. left.
    exists e. split; [reflexivity|].
    exact (plan_fails [EvMkdirAll mnt 493; EvMkdirAll diff 493; EvCreate f]
                      2 (EvCreate f) e eq_refl). }
  unfold defer.
  match goal with
  | |- context [let '(r, s1) := ?m ?st in _] =>
      assert (∃ err s1 chain W r,
                m st = (Val err, s1)
                ∧ trace s1 = trace st ++ W
                ∧ stops_at_first_error (map (EvFprintln f) chain) W r
                ∧ if String.eqb parent "" then chain = [] ∧ err = None
                  else
                    match getIdDesc w3 a parent with
                    | Err e => chain = [] ∧ err = Some e
                    | Ok pd =>
                        match getParentIds w3 (desc_rootPath pd) parent with
                        | (_, Some e) => chain = [] ∧ err = Some e
                        | (ids, None) =>
                            chain = parent :: ids ∧ err = os_error r
                        end
                    end)
        as (err & s1 & chain & W & r & -> & Ht & Hp & Hc)
  end.
  { destruct (String.eqb parent "") eqn:Ep; simpl.
    - unfold ret. exists None. eexists. exists [], [], None.
      split; [reflexivity|]. simpl. rewrite app_nil_r.
      repeat split. apply (plan_done []).
    - unfold bind at 1, reads at 1. simpl.
      destruct (getIdDesc w3 a parent) as [pd|e] eqn:Hd.
      2: { unfold ret. exists (Some e). eexists. exists [], [], None.
           split; [reflexivity|]. simpl. rewrite app_nil_r.
           repeat split. apply (plan_done []). }
      pose proof (getIdDesc_id _ _ _ _ Hd) as Hid.
      unfold bind at 1, reads at 1. simpl. rewrite Hid.
      destruct (getParentIds w3 (desc_rootPath pd) parent) as [ids [e|]]
        eqn:Hp; simpl.
      { unfold ret. exists (Some e). eexists. exists [], [], None.
        split; [reflexivity|]. simpl. rewrite app_nil_r.
        repeat split. apply (plan_done []). }
      unfold bind at 1, call at 1. simpl.
      destruct (fmt_Fprintln os f parent w3) as [[e|] w4]; simpl.
      { unfold ret. exists (Some (OsError e)). eexists.
        exists (parent :: ids). eexists. exists (Some e).
        split; [reflexivity|]. simpl. split; [reflexivity|].
        split; [|auto].
        apply (plan_fails _ 0 (EvFprintln f parent) e). reflexivity. }
      match goal with
      | |- context [Create_loop f ids ?st] =>
          destruct (Create_loop_plan f ids st) as (r & s1 & W & -> & Ht & Hp')
      end.
      exists (os_error r), s1, (parent :: ids). eexists. exists r.
      split; [reflexivity|]. simpl in Ht. rewrite Ht, <- app_assoc.
      split; [reflexivity|]. split; [|auto].
      destruct Hp' as [|j ev e Hj].
      * apply (plan_done (EvFprintln f parent :: map _ ids)).
      * apply (plan_fails (EvFprintln f parent :: map _ ids) (S j) ev e Hj). }
  unfold bind, call, ret.
  destruct (os_Close os f (world s1)) as [closed w4]. simpl.
  exists err. eexists. eexists. split; [reflexivity|]. simpl.
  rewrite Ht. simpl. rewrite <- !app_assoc. simpl.
  split; [reflexivity|]. right. exists chain, W, r, closed.
  split; [reflexivity|]. split; [exact Hp|exact Hc].
Qed.

(** ** An id that does not resolve *)

(** X11. When the id does not resolve, [Get] and [Put] return the error of
    [getIdDesc] and change nothing: they do not even take the mutex.
    [Remove] takes the mutex first, so it locks and unlocks, and returns the
    same error with everything else unchanged. *)
Theorem unknown_id_changes_nothing (a : Driver) (id : string) (s : St os)
    (e : error) :
  getIdDesc (world s) a id = Err e →
  (∀ mountLabel, Get a id mountLabel s = (Val ("", Some e), s))
  ∧ Put a id s = (Val (Some e), s)
  ∧ Remove a id s
    = (Val (Some e),
       mkSt (world s) (trace s ++ [(EvLock, None); (EvUnlock, None)])
            (errlog s) (active s)
            (enableDirpermLock s) (enableDirperm s) (backingFs s)).
Proof.
  intros H. split; [|split].
  - intros mountLabel. unfold Get. mrun. now rewrite H.
  - unfold Put. mrun. now rewrite H.
  - unfold Remove. mrun. rewrite H. simpl. rewrite <- app_assoc. reflexivity.
Qed.

(** ** The mutex *)

Lemma lock_free_quiet {A : Type} (m : M os A) :
  (∀ s, trace (snd (m s)) = trace s) → lock_free (os:=os) m.
Proof.
  intros H s. exists []. rewrite app_nil_r. split; [apply H|constructor].
Qed.

Lemma lock_free_bind {A B : Type} (m : M os A) (k : A → M os B) :
  lock_free (os:=os) m →
  (∀ a, lock_free (os:=os) (k a)) →
  lock_free (os:=os) (bind m k).
Proof.
  intros Hm Hk s. unfold bind. destruct (Hm s) as (evs & Ht & Hf).
  destruct (m s) as [[a|msg] s1]; simpl in *.
  - destruct (Hk a s1) as (evs' & Ht' & Hf'). exists (evs ++ evs').
    rewrite Ht', Ht, <- app_assoc. split; [reflexivity|].
    apply Forall_app. auto.
  - exists evs. auto.
Qed.

Lemma lock_free_defer {A : Type} (c : M os unit) (m : M os A) :
  lock_free (os:=os) c →
  lock_free (os:=os) m →
  lock_free (os:=os) (defer c m).
Proof.
  intros Hc Hm s. unfold defer. destruct (Hm s) as (evs & Ht & Hf).
  destruct (m s) as [r s1]; simpl in *.
  destruct (Hc s1) as (evs' & Ht' & Hf').
  exists (evs ++ evs').
  destruct (c s1) as [[u|msg] s2]; simpl in *;
    rewrite Ht', Ht, <- app_assoc; (split; [reflexivity|]);
    apply Forall_app; auto.
Qed.

Lemma lock_free_call (ev : Event) f :
  ev ≠ EvLock → ev ≠ EvUnlock → lock_free (os:=os) (call ev f).
Proof.
  intros H1 H2 s. unfold call. destruct (f (world s)) as [e w]. simpl.
  exists [(ev, e)]. split; [reflexivity|].
  constructor; [|constructor]. intros [H|H]; simpl in H; congruence.
Qed.

Lemma lock_free_call_value {A : Type} (ev : Event)
    (f : World os → (errno + A) * World os) :
  ev ≠ EvLock → ev ≠ EvUnlock → lock_free (os:=os) (call_value ev f).
Proof.
  intros H1 H2 s. unfold call_value. destruct (f (world s)) as [r w]. simpl.
  eexists [(ev, _)]. split; [reflexivity|].
  constructor; [|constructor]. intros [H|H]; simpl in H; congruence.
Qed.

Ltac lockfree :=
  repeat first
    [ solve [auto with aufs nocore]
    | apply lock_free_bind; [|intros ?]
    | apply lock_free_defer
    | apply lock_free_call; discriminate
    | apply lock_free_call_value; discriminate
    | match goal with
      | |- lock_free (match ?x with _ => _ end) => destruct x
      end
    | (apply lock_free_quiet; intros ?; reflexivity) ].

Lemma lock_free_useDirperm : lock_free (os:=os) useDirperm.
Proof. unfold useDirperm, useDirperm_probe. lockfree. Qed.
Hint Resolve lock_free_useDirperm : aufs.

Lemma lock_free_aufsMount_append (target mountLabel : string)
    (ro : list string) :
  lock_free (os:=os) (aufsMount_append target mountLabel ro).
Proof. induction ro as [|r ro IH]; simpl; lockfree. Qed.
Hint Resolve lock_free_aufsMount_append : aufs.

Lemma lock_free_aufsMount (ro : list string) (rw target mountLabel : string) :
  lock_free (os:=os) (aufsMount ro rw target mountLabel).
Proof. unfold aufsMount. lockfree. Qed.
Hint Resolve lock_free_aufsMount : aufs.

Lemma lock_free_mount (a : Driver) (d : IdDesc) (mountLabel : string) :
  lock_free (os:=os) (mount a d mountLabel).
Proof. unfold mount. lockfree. Qed.
Hint Resolve lock_free_mount : aufs.

Lemma lock_free_unmount (a : Driver) (d : IdDesc) :
  lock_free (os:=os) (unmount a d).
Proof. unfold unmount. lockfree. Qed.
Hint Resolve lock_free_unmount : aufs.

Lemma Remove_loop_cons (d : IdDesc) (p : string) (rest : list string) :
  Remove_loop d (p :: rest)
  = (let realPath := path_Join os [desc_rootPath d; p; desc_id d] in
     let tmpPath :=
       path_Join os [desc_rootPath d; p; desc_id d +:+ "-removing"] in
     err <- call (EvRename realPath tmpPath)
                 (os_Rename os realPath tmpPath) ;;
     if fatal (os_error err) then ret (os_error err)
     else
       defer (call (EvRemoveAll tmpPath) (os_RemoveAll os tmpPath) ;;; ret tt)
         (Remove_loop d rest)).
Proof. reflexivity. Qed.

Lemma lock_free_Remove_loop (d : IdDesc) (tmpDirs : list string) :
  lock_free (os:=os) (Remove_loop d tmpDirs).
Proof.
  induction tmpDirs as [|p rest IH].
  - unfold Remove_loop. lockfree.
  - rewrite Remove_loop_cons. cbv zeta. lockfree.
Qed.
Hint Resolve lock_free_Remove_loop : aufs.

(** A body that runs between [a.Lock()] and the deferred [a.Unlock()]. *)
Lemma locked_section {A : Type} (body : M os A) (s : St os) :
  lock_free (os:=os) body →
  ∃ mid,
    trace (snd ((Lock ;;; defer Unlock body) s))
    = trace s ++ (EvLock, None) :: mid ++ [(EvUnlock, None)]
    ∧ Forall (λ x, ¬ is_lock_event x) mid.
Proof.
  intros Hb. unfold bind at 1, Lock at 1, emit at 1. cbv beta iota.
  unfold defer, Unlock, emit.
  match goal with
  | |- context [body ?st] => destruct (Hb st) as (mid & Ht & Hf);
                             destruct (body st) as [r s1]
  end.
  simpl in *. exists mid. rewrite Ht, <- !app_assoc. auto.
Qed.

(** X12. [Get], [Put] and [Remove] take the mutex at most once and never keep
    it: the events of a call are none at all, or a lock, then events that
    are not of the mutex, then the unlock as the last event.  This holds on
    every path, also when a call fails and when [Get] ends in the panic of
    [aufsMount].  [Remove] always locks. *)
Theorem mutex_released (a : Driver) (id mountLabel : string) (s : St os) :
  (∃ evs, trace (snd (Get a id mountLabel s)) = trace s ++ evs
          ∧ critical_section evs)
  ∧ (∃ evs, trace (snd (Put a id s)) = trace s ++ evs
            ∧ critical_section evs)
  ∧ (∃ evs, trace (snd (Remove a id s)) = trace s ++ evs
            ∧ critical_section evs ∧ evs ≠ []).
Proof.
  assert (Hnone : ∃ evs : list (Event * option errno),
             trace s = trace s ++ evs ∧ critical_section evs).
  { exists []. rewrite app_nil_r. split; [reflexivity|now left]. }
  split; [|split].
  - unfold Get. unfold bind at 1, reads at 1. cbv beta iota.
    destruct (getIdDesc (world s) a id) as [d|e]; [|exact Hnone].
    unfold bind at 1, reads at 1. cbv beta iota.
    destruct (fatal _); [exact Hnone|].
    match goal with
    | |- context [defer Unlock ?b] =>
        destruct (locked_section b s) as (mid & Ht & Hf)
    end.
    { lockfree. }
    eexists. split; [exact Ht|]. right. eauto.
  - unfold Put. unfold bind at 1, reads at 1. cbv beta iota.
    destruct (getIdDesc (world s) a id) as [d|e]; [|exact Hnone].
    match goal with
    | |- context [defer Unlock ?b] =>
        destruct (locked_section b s) as (mid & Ht & Hf)
    end.
    { lockfree. }
    eexists. split; [exact Ht|]. right. eauto.
  - unfold Remove.
    match goal with
    | |- context [defer Unlock ?b] =>
        destruct (locked_section b s) as (mid & Ht & Hf)
    end.
    { lockfree. }
    eexists. split; [exact Ht|]. split; [right; eauto|discriminate].
Qed.

(** ** The first mount call of the engine *)

Lemma substring_length_le (s : string) (n : nat) :
  String.length (substring 0 n s) <= n.
Proof.
  revert n. induction s as [|c s IH]; intros [|n]; simpl; try lia.
  specialize (IH n). lia.
Qed.

Lemma substring_length_exact (s : string) (n : nat) :
  n <= String.length s → String.length (substring 0 n s) = n.
Proof.
  revert n. induction s as [|c s IH]; intros [|n]; simpl; try lia.
  intros H. rewrite IH; lia.
Qed.

Lemma len_branches (ro : list string) : len (branches ro) = branches_len ro.
Proof.
  induction ro as [|r ro IH]; [reflexivity|].
  simpl. rewrite <- IH, !len_append. lia.
Qed.

(** The buffer the engine starts from never exceeds its capacity. *)
Lemma copy_into_empty_len (cap : Z) (src : string) :
  (0 <= cap)%Z → (len (copy_into cap "" src) <= cap)%Z.
Proof.
  intros H. unfold copy_into. rewrite append_nil_l.
  change (len "") with 0%Z. rewrite Z.sub_0_r. unfold len.
  pose proof (substring_length_le src (Z.to_nat cap)). lia.
Qed.

(** A full buffer takes no branch. *)
Lemma aufsMount_fill_full (cap : Z) (b : string) (ro : list string) :
  (cap <= len b)%Z → aufsMount_fill cap b ro = (b, ro).
Proof.
  intros H. destruct ro as [|r ro]; [reflexivity|].
  cbn [aufsMount_fill].
  destruct (Z.ltb_spec cap (len b + len (":" +:+ r +:+ "=ro+wh")))
    as [_|Hfit]; [reflexivity|].
  rewrite !len_append in Hfit. pose proof (len_nonneg r).
  change (len ":") with 1%Z in Hfit. change (len "=ro+wh") with 6%Z in Hfit.
  lia.
Qed.

(** Whenever the buffer can be made, the first call of the engine after the
    probe is the first mount, with the buffer as it was filled; when that
    call fails the only call after it is the unmount of the target. *)
Lemma aufsMount_first_call (s s1 : St os) (ro : list string)
    (rw target mountLabel : string) (d : bool) :
  useDirperm s = (Val d, s1) →
  let cap := mount_room (os:=os) d mountLabel in
  let filled :=
    aufsMount_fill cap (copy_into cap "" ("br:" +:+ rw +:+ "=rw")) ro in
  (0 <= cap)%Z →
  ∃ r rest,
    trace (snd (aufsMount ro rw target mountLabel s))
    = trace s1
      ++ (first_mount_call (os:=os) target mountLabel (fst filled) d, r)
         :: rest
    ∧ (r ≠ None → ∃ u, rest = [(EvUnmount target, u)]).
Proof.
  intros Hu cap filled Hpos.
  destruct (useDirperm_Val s) as (d' & s1' & Hu' & Hlock & Hflag).
  rewrite Hu in Hu'. injection Hu' as <- <-.
  pose proof (useDirperm_done s1 Hlock) as Hu2. rewrite Hflag in Hu2.
  unfold aufsMount, bind. rewrite Hu. cbv beta iota zeta.
  fold (mount_room (os:=os) d mountLabel). fold cap.
  destruct (Z.ltb_spec cap 0) as [?|_]; [lia|].
  subst filled.
  destruct (aufsMount_fill cap _ ro) as [b rest] eqn:Hfill.
  cbn [fst snd].
  rewrite Hu2. cbv beta iota. fold (mount_opts d).
  fold (first_mount_call (os:=os) target mountLabel b d).
  unfold call at 1.
  destruct (sys_mount os "none" target "aufs" 0 _ (world s1))
    as [[e0|] w2] eqn:Hm; cbv beta iota.
  - unfold ret at 1. cbv beta iota. unfold call, ret.
    destruct (Unmount os target _) as [u w3] eqn:HU. simpl.
    do 2 eexists. rewrite <- app_assoc. split; [reflexivity|].
    intros _. eauto.
  - match goal with
    | |- context [aufsMount_append target mountLabel rest ?st] =>
        destruct (lock_free_aufsMount_append target mountLabel rest st)
          as (evs & Ht & _);
        destruct (aufsMount_append target mountLabel rest st) as [[err|msg] s2]
    end; simpl in Ht.
    + destruct err as [e|]; cbv beta iota.
      * unfold call, ret. destruct (Unmount os target _) as [u w3]. simpl.
        do 2 eexists. rewrite Ht, <- !app_assoc. simpl.
        split; [reflexivity|]. congruence.
      * unfold ret. simpl. do 2 eexists. rewrite Ht, <- !app_assoc. simpl.
        split; [reflexivity|]. congruence.
    + simpl. do 2 eexists. rewrite Ht, <- !app_assoc. simpl.
      split; [reflexivity|]. congruence.
Qed.

(** X13. The options of the first mount fit the page.  The buffer holds at most
    [pagesize - len(mountLabel) - offset] bytes, so the option string handed
    to [label.FormatMountLabel] (buffer, comma and trailing options) and the
    mount label together never exceed the page size less 25 bytes, with or
    without dirperm1, whatever the number and the length of the branches. *)
Theorem aufsMount_first_mount_fits_page (s s1 : St os) (ro : list string)
    (rw target mountLabel : string) (d : bool) :
  useDirperm s = (Val d, s1) →
  (0 <= mount_room (os:=os) d mountLabel)%Z →
  ∃ b r rest,
    trace (snd (aufsMount ro rw target mountLabel s))
    = trace s1
      ++ (first_mount_call (os:=os) target mountLabel b d, r) :: rest
    ∧ (len b <= mount_room (os:=os) d mountLabel)%Z
    ∧ (len (b +:+ "," +:+ mount_opts d) + len mountLabel
       <= syscall_Getpagesize os - 25)%Z.
Proof.
  intros Hu Hpos.
  destruct (aufsMount_first_call s s1 ro rw target mountLabel d Hu Hpos)
    as (r & rest & Ht & _).
  set (cap := mount_room (os:=os) d mountLabel) in *.
  set (b0 := copy_into cap "" ("br:" +:+ rw +:+ "=rw")) in *.
  destruct (aufsMount_fill_spec cap ro b0) as (k & _ & Hf & Hle & _).
  rewrite Hf in Ht. cbn [fst] in Ht.
  pose proof (copy_into_empty_len cap ("br:" +:+ rw +:+ "=rw") Hpos) as Hb0.
  fold b0 in Hb0.
  assert (Hb : (len (b0 +:+ branches (take k ro)) <= cap)%Z).
  { rewrite len_append, len_branches. lia. }
  exists (b0 +:+ branches (take k ro)), r, rest.
  split; [exact Ht|]. split; [exact Hb|].
  rewrite !len_append. unfold cap, mount_room in Hb.
  unfold mount_opts. rewrite len_append.
  rewrite len_append in Hb.
  change (len ",") with 1%Z.
  change (len "dio,xino=/dev/shm/aufs.xino") with 27%Z.
  destruct d.
  - change (len "dirperm1") with 8%Z in Hb.
    change (len ",dirperm1") with 9%Z. lia.
  - change (len "") with 0%Z. lia.
Qed.

(** X14. When the writable branch [br:<rw>=rw] alone is longer than the buffer,
    the engine does not fail: [copy] keeps the bytes that fit, so the first
    mount is issued with the branch cut off at the size of the buffer and
    with no parent, and every parent is left to a remount. *)
Theorem aufsMount_cuts_long_writable_branch (s s1 : St os) (ro : list string)
    (rw target mountLabel : string) (d : bool) :
  useDirperm s = (Val d, s1) →
  let cap := mount_room (os:=os) d mountLabel in
  let br := "br:" +:+ rw +:+ "=rw" in
  let cut := substring 0 (Z.to_nat cap) br in
  (0 <= cap < len br)%Z →
  len cut = cap
  ∧ (∃ r rest,
       trace (snd (aufsMount ro rw target mountLabel s))
       = trace s1
         ++ (first_mount_call (os:=os) target mountLabel cut d, r) :: rest)
  ∧ (∀ s', aufsMount ro rw target mountLabel s = (Val None, s') →
       trace s'
       = trace s1
         ++ (first_mount_call (os:=os) target mountLabel cut d, None)
            :: map (λ r, (remount_call (os:=os) target mountLabel r, None))
                   ro).
Proof.
  intros Hu cap br cut Hcap.
  assert (Hcopy : copy_into cap "" br = cut).
  { unfold copy_into. rewrite append_nil_l. change (len "") with 0%Z.
    now rewrite Z.sub_0_r. }
  assert (Hlen : len cut = cap).
  { unfold cut, len. rewrite substring_length_exact; unfold len in *; lia. }
  assert (Hfill : aufsMount_fill cap (copy_into cap "" br) ro = (cut, ro)).
  { rewrite Hcopy. apply aufsMount_fill_full. lia. }
  split; [exact Hlen|]. split.
  - destruct (aufsMount_first_call s s1 ro rw target mountLabel d Hu)
      as (r & rest & Ht & _); [fold cap; lia|].
    fold cap br in Ht. rewrite Hfill in Ht. eauto.
  - intros s' Hrun.
    destruct (aufsMount_run s s1 ro rw target mountLabel d Hu) as [_ Hok].
    fold cap br in Hok. destruct (Hok ltac:(lia)) as (err & s2 & Hrun' & Htr).
    rewrite Hrun in Hrun'. injection Hrun' as <- <-.
    rewrite Hfill in Htr. exact Htr.
Qed.

(** ** Get: a label that leaves no room *)

(** What [Get] does for an id that resolves and whose chain reads as
    [ids]. *)
Lemma Get_run (s : St os) (a : Driver) (id mountLabel : string)
    (idDesc : IdDesc) (ids : list string) :
  getIdDesc (world s) a id = Ok idDesc →
  getParentIds (world s) (desc_rootPath idDesc) id = (ids, None) →
  let count := default 0%Z (active s !! id) in
  let diff := path_Join os [desc_rootPath idDesc; "diff"; id] in
  let mnt := path_Join os [desc_rootPath idDesc; "mnt"; id] in
  let counted :=
    λ (w : World os) tr,
      mkSt w tr (errlog s) (<[id := int_add count 1]> (active s))
           (enableDirpermLock s) (enableDirperm s) (backingFs s) in
  Get a id mountLabel s =
    match ids with
    | [] => (Val (diff, None),
             counted (world s) (trace s ++ [(EvLock, None); (EvUnlock, None)]))
    | _ :: _ =>
        if (count =? 0)%Z then
          match mount a idDesc mountLabel (locked s) with
          | (Val None, s2) =>
              (Val (mnt, None),
               mkSt (world s2) (trace s2 ++ [(EvUnlock, None)]) (errlog s2)
                    (<[id := int_add count 1]> (active s2))
                    (enableDirpermLock s2) (enableDirperm s2) (backingFs s2))
          | (Val (Some e), s2) =>
              (Val ("", Some e),
               mkSt (world s2) (trace s2 ++ [(EvUnlock, None)]) (errlog s2)
                    (active s2)
                    (enableDirpermLock s2) (enableDirperm s2) (backingFs s2))
          | (Panic msg, s2) =>
              (Panic msg,
               mkSt (world s2) (trace s2 ++ [(EvUnlock, None)]) (errlog s2)
                    (active s2)
                    (enableDirpermLock s2) (enableDirperm s2) (backingFs s2))
          end
        else (Val (mnt, None),
              counted (world s)
                      (trace s ++ [(EvLock, None); (EvUnlock, None)]))
    end.
Proof.
  intros Hd Hp count diff mnt counted.
  pose proof (getIdDesc_id _ _ _ _ Hd) as Hid.
  unfold Get. mrun. rewrite Hd. simpl. rewrite Hid, Hp. simpl.
  fold count diff mnt. destruct ids as [|i ids']; simpl.
  - unfold counted. rewrite <- app_assoc. reflexivity.
  - destruct (count =? 0)%Z eqn:Hc.
    + fold (locked s).
      destruct (mount a idDesc mountLabel (locked s)) as [[[e|]|msg] s2];
        reflexivity.
    + simpl. unfold counted. rewrite <- app_assoc. reflexivity.
Qed.

(** X15. A mount label that leaves no room for the buffer makes the first [Get]
    of a layer with parents panic.  With [pagesize - len(mountLabel)] below
    54 the size handed to [make] is negative whatever the probe answers:
    [Get] takes the mutex, runs the probe when it has not run yet, panics
    before any mount call, and on the way out only the deferred unlock
    runs; the target is not unmounted and the count is not changed. *)
Theorem Get_panics_without_room (s : St os) (a : Driver)
    (id mountLabel : string) (idDesc : IdDesc) (ids layers : list string) :
  getIdDesc (world s) a id = Ok idDesc →
  getParentIds (world s) (desc_rootPath idDesc) id = (ids, None) →
  ids ≠ [] →
  default 0%Z (active s !! id) = 0%Z →
  mounted (world s) idDesc = (false, None) →
  getParentLayerPaths (world s) a idDesc = Ok layers →
  (syscall_Getpagesize os - len mountLabel < 54)%Z →
  let s1 := snd (useDirperm (locked s)) in
  Get a id mountLabel s
  = (Panic "makeslice: len out of range",
     mkSt (world s1) (trace s1 ++ [(EvUnlock, None)]) (errlog s1) (active s)
          (enableDirpermLock s1) (enableDirperm s1) (backingFs s1)).
Proof.
  intros Hd Hp Hne Hc Hm Hl Hroom s1.
  rewrite (Get_run s a id mountLabel idDesc ids Hd Hp).
  destruct ids as [|i ids']; [congruence|]. rewrite Hc. simpl.
  assert (Hmount : mount a idDesc mountLabel (locked s)
                   = (Panic "makeslice: len out of range", s1)).
  { unfold mount. unfold bind at 1, reads at 1. cbv beta iota.
    change (world (locked s)) with (world s). rewrite Hm. simpl.
    unfold bind at 1, reads at 1. cbv beta iota.
    change (world (locked s)) with (world s). rewrite Hl.
    destruct (useDirperm_Val (locked s)) as (d & s1' & Hu & _ & _).
    destruct (aufsMount_run (locked s) s1' layers
                (path_Join os [desc_rootPath idDesc; "diff"; desc_id idDesc])
                (path_Join os [desc_rootPath idDesc; "mnt"; desc_id idDesc])
                mountLabel d Hu) as [Hneg _].
    unfold bind. rewrite Hneg.
    - subst s1. rewrite Hu. reflexivity.
    - unfold mount_room. change (len "dirperm1") with 8%Z.
      destruct d; lia. }
  rewrite Hmount.
  pose proof (keeps_active_useDirperm (locked s)) as Hk. fold s1 in Hk.
  simpl in Hk. rewrite Hk. reflexivity.
Qed.

(** ** Get on an id that resolves *)

(** [a.mount] step by step: the mount table is asked first; a target it
    reports mounted is left alone, else the paths of the parents are
    resolved and handed to the engine. *)
Lemma mount_run (a : Driver) (d : IdDesc) (mountLabel : string) (s : St os) :
  let target := path_Join os [desc_rootPath d; "mnt"; desc_id d] in
  let rw := path_Join os [desc_rootPath d; "diff"; desc_id d] in
  mount a d mountLabel s =
    match mounted (world s) d with
    | (_, Some e) => (Val (Some (OsError e)), s)
    | (true, None) => (Val None, s)
    | (false, None) =>
        match getParentLayerPaths (world s) a d with
        | Err e => (Val (Some e), s)
        | Ok layers =>
            match aufsMount layers rw target mountLabel s with
            | (Val (Some e), s') => (Val (Some (ErrAufsMount target e)), s')
            | (Val None, s') => (Val None, s')
            | (Panic msg, s') => (Panic msg, s')
            end
        end
    end.
Proof.
  intros target rw. unfold mount. unfold bind at 1, reads at 1.
  cbv beta iota.
  destruct (mounted (world s) d) as [m [e|]]; cbn [fst snd os_error].
  { destruct m; reflexivity. }
  destruct m; [reflexivity|]. cbn [negb orb bool_decide].
  rewrite bool_decide_eq_false_2 by (intros H; now apply H). cbn [orb].
  unfold bind at 1, reads at 1. cbv beta iota zeta.
  destruct (getParentLayerPaths (world s) a d) as [layers|e]; [|reflexivity].
  unfold bind. fold target rw.
  destruct (aufsMount layers rw target mountLabel s) as [[[e|]|msg] s'];
    reflexivity.
Qed.

(** C1. For an id that [getIdDesc] resolves and whose layers file reads as
    the chain [ids]: with an empty chain [Get] returns [<root>/diff/<id>],
    with a chain of at least one parent [<root>/mnt/<id>].  When the count
    read under the lock is not 0 nothing is mounted (the only events are
    the lock and the unlock, the world is unchanged).  When it is 0 the
    outcome of [Get] is the outcome of [a.mount] under the lock: a mount
    point that the mount table reports mounted is left alone; an error of
    the mount table or of resolving the paths of the parents is returned
    and nothing is counted; otherwise the union mount engine runs under
    the lock on the paths of the parents, with the writable branch
    [<root>/diff/<id>] and the target [<root>/mnt/<id>], and the state
    [Get] leaves is the state the engine leaves, then the unlock and, on
    success only, the new count.  A [Get] that succeeds this way has issued,
    after the feature probe, the first mount of the engine, one remount for
    each branch that did not fit, and the unlock.  Whenever [Get] succeeds
    the count of the id becomes the count read plus one (Go's [count + 1],
    which is the mathematical sum below the largest [int]). *)
Theorem Get_resolved (s : St os) (a : Driver) (id mountLabel : string)
    (idDesc : IdDesc) (ids : list string) :
  getIdDesc (world s) a id = Ok idDesc →
  getParentIds (world s) (desc_rootPath idDesc) id = (ids, None) →
  let count := default 0%Z (active s !! id) in
  let diff := path_Join os [desc_rootPath idDesc; "diff"; id] in
  let mnt := path_Join os [desc_rootPath idDesc; "mnt"; id] in
  let counted :=
    λ (w : World os) tr,
      mkSt w tr (errlog s) (<[id := int_add count 1]> (active s))
           (enableDirpermLock s) (enableDirperm s) (backingFs s) in
  let unlocked :=
    λ (s2 : St os) (act : gmap string Z),
      mkSt (world s2) (trace s2 ++ [(EvUnlock, None)]) (errlog s2) act
           (enableDirpermLock s2) (enableDirperm s2) (backingFs s2) in
  (ids = [] →
   Get a id mountLabel s =
     (Val (diff, None),
      counted (world s) (trace s ++ [(EvLock, None); (EvUnlock, None)])))
  ∧ (ids ≠ [] → count ≠ 0%Z →
     Get a id mountLabel s =
       (Val (mnt, None),
        counted (world s) (trace s ++ [(EvLock, None); (EvUnlock, None)])))
  ∧ (ids ≠ [] → count = 0%Z →
     fst (Get a id mountLabel s) =
       match fst (mount a idDesc mountLabel (locked s)) with
       | Val None => Val (mnt, None)
       | Val (Some e) => Val ("", Some e)
       | Panic msg => Panic msg
       end)
  ∧ (ids ≠ [] → count = 0%Z →
     (mounted (world s) idDesc = (true, None) →
      Get a id mountLabel s =
        (Val (mnt, None),
         counted (world s) (trace s ++ [(EvLock, None); (EvUnlock, None)])))
     ∧ (∀ b e, mounted (world s) idDesc = (b, Some e) →
        Get a id mountLabel s =
          (Val ("", Some (OsError e)), unlocked (locked s) (active s)))
     ∧ (mounted (world s) idDesc = (false, None) →
        (∀ e, getParentLayerPaths (world s) a idDesc = Err e →
           Get a id mountLabel s =
             (Val ("", Some e), unlocked (locked s) (active s)))
        ∧ (∀ layers, getParentLayerPaths (world s) a idDesc = Ok layers →
             Get a id mountLabel s =
               match aufsMount layers diff mnt mountLabel (locked s) with
               | (Val None, s2) =>
                   (Val (mnt, None),
                    unlocked s2 (<[id := int_add count 1]> (active s)))
               | (Val (Some e), s2) =>
                   (Val ("", Some (ErrAufsMount mnt e)),
                    unlocked s2 (active s))
               | (Panic msg, s2) => (Panic msg, unlocked s2 (active s))
               end
             ∧ ∀ out s', Get a id mountLabel s = (Val (out, None), s') →
                 ∃ (d : bool) (s1 : St os),
                   useDirperm (locked s) = (Val d, s1)
                   ∧ let cap := mount_room (os:=os) d mountLabel in
                     let filled :=
                       aufsMount_fill cap
                         (copy_into cap "" ("br:" +:+ diff +:+ "=rw")) layers in
                     trace s' =
                       trace s1
                       ++ [(first_mount_call (os:=os) mnt mountLabel
                              (fst filled) d, None)]
                       ++ map (λ r, (remount_call (os:=os) mnt mountLabel r,
                                     None)) (snd filled)
                       ++ [(EvUnlock, None)])))
  ∧ (∀ out s', Get a id mountLabel s = (Val (out, None), s') →
     out = match ids with [] => diff | _ => mnt end
     ∧ active s' = <[id := int_add count 1]> (active s))
  ∧ ((int_min <= count < int_max)%Z → int_add count 1 = (count + 1)%Z).
Proof.
  intros Hd Hp count diff mnt counted unlocked.
  pose proof (getIdDesc_id _ _ _ _ Hd) as Hid.
  pose proof (Get_run s a id mountLabel idDesc ids Hd Hp) as Hget.
  cbv zeta in Hget. fold count diff mnt in Hget.
  assert (Hzero : ids ≠ [] → count = 0%Z →
    Get a id mountLabel s =
      match mount a idDesc mountLabel (locked s) with
      | (Val None, s2) =>
          (Val (mnt, None),
           unlocked s2 (<[id := int_add count 1]> (active s)))
      | (Val (Some e), s2) => (Val ("", Some e), unlocked s2 (active s))
      | (Panic msg, s2) => (Panic msg, unlocked s2 (active s))
      end).
  { intros Hne Hc. rewrite Hget. destruct ids; [congruence|].
    apply Z.eqb_eq in Hc. rewrite Hc.
    pose proof (keeps_active_mount a idDesc mountLabel (locked s)) as Hk.
    destruct (mount a idDesc mountLabel (locked s)) as [[[e|]|msg] s2];
      simpl in Hk; rewrite Hk; reflexivity. }
  pose proof (mount_run a idDesc mountLabel (locked s)) as Hmount.
  cbv zeta in Hmount. rewrite Hid in Hmount. fold diff mnt in Hmount.
  change (world (locked s)) with (world s) in Hmount.
  split; [|split; [|split; [|split; [|split]]]].
  - intros ->. exact Hget.
  - intros Hne Hc. rewrite Hget. destruct ids; [congruence|].
    apply Z.eqb_neq in Hc. now rewrite Hc.
  - intros Hne Hc. rewrite (Hzero Hne Hc).
    destruct (mount a idDesc mountLabel (locked s)) as [[[e|]|msg] s2];
      reflexivity.
  - intros Hne Hc. specialize (Hzero Hne Hc). split; [|split].
    + intros Hm. rewrite Hm in Hmount. rewrite Hzero, Hmount.
      unfold unlocked, counted, locked. simpl. rewrite <- app_assoc.
      reflexivity.
    + intros b e Hm. rewrite Hm in Hmount. rewrite Hzero, Hmount.
      destruct b; reflexivity.
    + intros Hm. rewrite Hm in Hmount. split.
      * intros e He. rewrite He in Hmount. rewrite Hzero, Hmount.
        reflexivity.
      * intros layers Hl. rewrite Hl in Hmount.
        assert (Hrun : Get a id mountLabel s =
          match aufsMount layers diff mnt mountLabel (locked s) with
          | (Val None, s2) =>
              (Val (mnt, None),
               unlocked s2 (<[id := int_add count 1]> (active s)))
          | (Val (Some e), s2) =>
              (Val ("", Some (ErrAufsMount mnt e)), unlocked s2 (active s))
          | (Panic msg, s2) => (Panic msg, unlocked s2 (active s))
          end).
        { rewrite Hzero, Hmount.
          destruct (aufsMount layers diff mnt mountLabel (locked s))
            as [[[e|]|msg] s2]; reflexivity. }
        split; [exact Hrun|].
        intros out s' Hs. rewrite Hrun in Hs.
        destruct (useDirperm_Val (locked s)) as (d & s1 & Hu & _ & _).
        exists d, s1. split; [exact Hu|].
        destruct (aufsMount_run (locked s) s1 layers diff mnt mountLabel d Hu)
          as [Hneg Hok].
        destruct (Z.ltb_spec (mount_room (os:=os) d mountLabel) 0)
          as [Hlt|Hge].
        { rewrite (Hneg Hlt) in Hs. discriminate. }
        destruct (Hok Hge) as (err & s2 & Hrun2 & Htr).
        rewrite Hrun2 in Hs. destruct err as [e|]; [discriminate|].
        injection Hs as <- <-. cbv zeta. unfold unlocked. cbn [trace].
        rewrite Htr, <- app_assoc. reflexivity.
  - intros out s' Hs. rewrite Hget in Hs. destruct ids as [|i ids'].
    + injection Hs as <- <-. auto.
    + destruct (count =? 0)%Z.
      * pose proof (keeps_active_mount a idDesc mountLabel (locked s)) as Hk.
        destruct (mount a idDesc mountLabel (locked s)) as [[[e|]|msg] s2];
          try discriminate.
        injection Hs as <- <-. simpl in *. rewrite Hk. auto.
      * injection Hs as <- <-. auto.
  - intros Hr. unfold int_add. apply wrap_int_small.
    unfold int_min, int_max in *. lia.
Qed.

(** ** The reference counts *)

Hint Resolve keeps_active_mount keeps_active_unmount : aufs.

Lemma keeps_active_Remove_loop (d : IdDesc) (tmpDirs : list string) :
  keeps_active (os:=os) (Remove_loop d tmpDirs).
Proof.
  induction tmpDirs as [|p rest IH].
  - unfold Remove_loop. keeps.
  - rewrite Remove_loop_cons. cbv zeta. keeps.
Qed.
Hint Resolve keeps_active_Remove_loop : aufs.

Lemma keeps_active_Remove (a : Driver) (id : string) :
  keeps_active (os:=os) (Remove a id).
Proof. unfold Remove. keeps. Qed.

(** A [Get] that succeeds counts one more use. *)
Lemma Get_success_active (a : Driver) (id mountLabel out : string)
    (s s' : St os) :
  Get a id mountLabel s = (Val (out, None), s') →
  active s' = <[id := int_add (default 0%Z (active s !! id)) 1]> (active s).
Proof.
  unfold Get. mrun.
  destruct (getIdDesc (world s) a id) as [d|e]; simpl; [|discriminate].
  destruct (getParentIds (world s) (desc_rootPath d) (desc_id d))
    as [ids perr]. simpl.
  destruct (fatal perr) eqn:F.
  { destruct perr; [discriminate|]. discriminate F. }
  match goal with
  | |- context [(0 <? Z.of_nat (length ?l))%Z] =>
      destruct (0 <? Z.of_nat (length l))%Z
  end; simpl; [|now intros [= <- <-]].
  destruct (default 0%Z (active s !! id) =? 0)%Z; simpl;
    [|now intros [= <- <-]].
  fold (locked s).
  pose proof (keeps_active_mount a d mountLabel (locked s)) as Hk.
  destruct (mount a d mountLabel (locked s)) as [[[e|]|msg] s2]; simpl in *;
    try discriminate.
  intros [= <- <-]. simpl. now rewrite Hk.
Qed.

(** How [Put] changes the active map, whatever the id. *)
Lemma Put_active_cases (a : Driver) (id : string) (s : St os) :
  let count := default 0%Z (active s !! id) in
  active (snd (Put a id s)) = active s
  ∨ ((1 < count)%Z
     ∧ active (snd (Put a id s)) = <[id := int_sub count 1]> (active s))
  ∨ ((count <= 1)%Z ∧ active (snd (Put a id s)) = delete id (active s)).
Proof.
  intros count.
  destruct (getIdDesc (world s) a id) as [d|e] eqn:Hd.
  - assert (Hex : Exists (world s) a id = true)
      by (unfold Exists; now rewrite Hd).
    destruct (Put_active a id s Hex) as (s' & -> & Ha). simpl in *.
    fold count in Ha. rewrite Ha.
    destruct (Z.ltb_spec 1 count); [right; left|right; right]; auto.
  - left. unfold Put. mrun. now rewrite Hd.
Qed.

(** X16. [Get] followed by [Put] leaves the active map as it was.  For an id
    without an entry, or with a count from 1 to below the largest [int], a
    successful [Get] and the [Put] that answers it (the id still resolving)
    restore the map exactly: the entry [Get] made is deleted, the count
    [Get] raised is lowered again. *)
Theorem Get_then_Put_restores_active (s s1 : St os) (a : Driver)
    (id mountLabel out : string) :
  Get a id mountLabel s = (Val (out, None), s1) →
  Exists (world s1) a id = true →
  (∀ c, active s !! id = Some c → (1 <= c < int_max)%Z) →
  ∃ s2, Put a id s1 = (Val None, s2) ∧ active s2 = active s.
Proof.
  intros HG Hex Hc.
  pose proof (Get_success_active _ _ _ _ _ _ HG) as Ha1.
  destruct (Put_active a id s1 Hex) as (s2 & HP & Ha2).
  exists s2. split; [exact HP|].
  rewrite Ha1, lookup_insert_eq in Ha2. simpl in Ha2. rewrite Ha2.
  destruct (active s !! id) as [c|] eqn:E; simpl.
  - specialize (Hc c eq_refl). unfold int_add, int_sub.
    rewrite (wrap_int_small (c + 1)) by (unfold int_min, int_max in *; lia).
    destruct (Z.ltb_spec 1 (c + 1)); [|lia].
    rewrite (wrap_int_small (c + 1 - 1))
      by (unfold int_min, int_max in *; lia).
    replace (c + 1 - 1)%Z with c by lia.
    rewrite insert_insert_eq. now apply insert_id.
  - unfold int_add. rewrite (wrap_int_small (0 + 1)) by (vm_compute; split; discriminate).
    simpl. now apply delete_insert_id.
Qed.

(** X17. [Get], [Put] and [Remove] on one id never touch the count of another
    id, whatever they return; [Remove] changes no count at all, not even
    that of the id it removes. *)
Theorem other_ids_untouched (a : Driver) (id mountLabel other : string)
    (s : St os) :
  other ≠ id →
  active (snd (Get a id mountLabel s)) !! other = active s !! other
  ∧ active (snd (Put a id s)) !! other = active s !! other
  ∧ active (snd (Remove a id s)) = active s.
Proof.
  intros Hne. split; [|split].
  - destruct (Get_active a id mountLabel s) as [-> | ->]; [reflexivity|].
    now apply lookup_insert_ne.
  - destruct (Put_active_cases a id s) as [-> | [[_ ->] | [_ ->]]];
      [reflexivity| |].
    + now apply lookup_insert_ne.
    + now apply lookup_delete_ne.
  - apply keeps_active_Remove.
Qed.

(** X18. The counts stay positive.  When every count in the active map is an
    [int] of at least 1, it is so again after [Put] and after [Remove],
    and after [Get] unless the count of the id is the largest [int] (where
    Go's [count + 1] wraps around).  So a key is in the map exactly while
    its layer is in use. *)
Theorem counts_stay_positive (a : Driver) (id mountLabel : string)
    (s : St os) :
  counts_positive (active s) →
  ((default 0%Z (active s !! id) < int_max)%Z →
   counts_positive (active (snd (Get a id mountLabel s))))
  ∧ counts_positive (active (snd (Put a id s)))
  ∧ counts_positive (active (snd (Remove a id s))).
Proof.
  intros Hpos.
  assert (Hcount : (0 <= default 0%Z (active s !! id) <= int_max)%Z).
  { destruct (active s !! id) as [c|] eqn:E; simpl.
    - specialize (Hpos id c E). lia.
    - unfold int_max. lia. }
  split; [|split].
  - intros Hmax.
    destruct (Get_active a id mountLabel s) as [-> | ->]; [exact Hpos|].
    intros k v. destruct (decide (k = id)) as [->|Hk].
    + rewrite lookup_insert_eq. intros [= <-]. unfold int_add.
      rewrite wrap_int_small; unfold int_min, int_max in *; lia.
    + rewrite lookup_insert_ne by congruence. apply Hpos.
  - destruct (Put_active_cases a id s) as [-> | [[Hc ->] | [_ ->]]];
      [exact Hpos| |].
    + intros k v. destruct (decide (k = id)) as [->|Hk].
      * rewrite lookup_insert_eq. intros [= <-]. unfold int_sub.
        rewrite wrap_int_small; unfold int_min, int_max in *; lia.
      * rewrite lookup_insert_ne by congruence. apply Hpos.
    + intros k v. destruct (decide (k = id)) as [->|Hk].
      * rewrite lookup_delete_eq. discriminate.
      * rewrite lookup_delete_ne by congruence. apply Hpos.
  - rewrite keeps_active_Remove. exact Hpos.
Qed.

(** ** Cleanup *)

Section Cleanup.

Variable mountpk_Unmount : string → World os → option errno * World os.
Variable stringid_TruncateID : string → string.

(** The loop of [Cleanup] never fails and never panics: it takes the steps
    of [Cleanup_steps] from the world of the state it starts in. *)
Lemma Cleanup_loop_steps (a : Driver) (ids : list string) :
  ∀ s : St os,
    ∃ (evs : list (Event * option errno)) (log : list string) (w' : World os),
      Cleanup_steps stringid_TruncateID a (world s) ids evs log w'
      ∧ Cleanup_loop stringid_TruncateID a ids s
        = (Val tt,
           mkSt w' (trace s ++ evs) (errlog s ++ log) (active s)
                (enableDirpermLock s) (enableDirperm s) (backingFs s)).
Proof.
  induction ids as [|id ids IH]; intros s.
  - exists [], [], (world s). split; [constructor|].
    simpl. unfold ret. rewrite !app_nil_r. now destruct s.
  - cbn [Cleanup_loop]. unfold bind at 1, reads at 1. cbv beta iota.
    destruct (getIdDesc (world s) a id) as [d|e] eqn:Hd.
    + unfold bind at 1.
      destruct (unmount_cases a d s) as [Hm Hn].
      fold (layer_path (os:=os) d "mnt") in Hm.
      destruct (decide (mounted (world s) d = (true, None))) as [E|E].
      * rewrite (Hm E). clear Hm Hn.
        destruct (Unmount os (layer_path (os:=os) d "mnt") (world s))
          as [r w1] eqn:EU. cbn [fst snd].
        destruct r as [e|]; cbn [os_error]; cbv beta iota;
          unfold bind at 1; try unfold Errorf at 1; try unfold ret at 1;
          cbv beta iota;
          match goal with
          | |- context [Cleanup_loop stringid_TruncateID a ids ?st] =>
              destruct (IH st) as (evs & log & w' & Hsteps & ->)
          end; cbn [world trace errlog active enableDirpermLock enableDirperm
                    backingFs] in *.
        -- exists ((EvUnmount (layer_path (os:=os) d "mnt"), Some e) :: evs),
                  (("Unmounting " +:+ stringid_TruncateID id) :: log), w'.
           split.
           ++ apply CS_unmount_fails; try assumption; rewrite EU;
                [reflexivity|exact Hsteps].
           ++ rewrite <- !app_assoc. reflexivity.
        -- exists ((EvUnmount (layer_path (os:=os) d "mnt"), None) :: evs),
                  log, w'.
           split.
           ++ apply CS_unmounted; try assumption; rewrite EU;
                [reflexivity|exact Hsteps].
           ++ rewrite <- !app_assoc. reflexivity.
      * rewrite (Hn E). clear Hm Hn.
        destruct (mounted (world s) d) as [m [e|]] eqn:Em;
          cbn [snd os_error]; cbv beta iota;
          unfold bind at 1; try unfold Errorf at 1; try unfold ret at 1;
          cbv beta iota;
          match goal with
          | |- context [Cleanup_loop stringid_TruncateID a ids ?st] =>
              destruct (IH st) as (evs & log & w' & Hsteps & ->)
          end; cbn [world trace errlog active enableDirpermLock enableDirperm
                    backingFs] in *.
        -- exists evs, (("Unmounting " +:+ stringid_TruncateID id) :: log), w'.
           split.
           ++ eapply CS_no_mount_table; eassumption.
           ++ rewrite <- !app_assoc. reflexivity.
        -- destruct m; [congruence|].
           exists evs, log, w'. split.
           ++ eapply CS_not_mounted; eassumption.
           ++ reflexivity.
    + unfold bind at 1, Errorf at 1. cbv beta iota.
      match goal with
      | |- context [Cleanup_loop stringid_TruncateID a ids ?st] =>
          destruct (IH st) as (evs & log & w' & Hsteps & ->)
      end; cbn [world trace errlog active enableDirpermLock enableDirperm
                backingFs] in *.
      exists evs, (("Unknown ID: " +:+ id) :: log), w'. split.
      * eapply CS_unknown; eassumption.
      * rewrite <- !app_assoc. reflexivity.
Qed.

(** X21. [Cleanup] fails only when [loadAllIds] fails, and then nothing has
    happened.  Otherwise it returns nil whatever the unmounts answer, and
    the state it leaves is told in full: the loop has gone through the ids
    in the order [loadAllIds] lists them, resolving each in the world the
    calls before it left; it has logged and passed over an id that does not
    resolve, called [Unmount] exactly once on the mount point of each layer
    that the mount table reports mounted and on no other, and gone on with
    the next id after an unmount that failed, which it has logged; then the
    two local roots are unmounted.  The active map is left as it was: the
    counts of the layers in use survive the cleanup. *)
Theorem Cleanup_outcomes (a : Driver) (s : St os) :
  (∀ e, loadAllIds (world s) a = Err e →
        Cleanup mountpk_Unmount stringid_TruncateID a s = (Val (Some e), s))
  ∧ (∀ ids, loadAllIds (world s) a = Ok ids →
       ∃ (evs : list (Event * option errno)) (log : list string)
         (w' : World os),
         Cleanup_steps stringid_TruncateID a (world s) ids evs log w'
         ∧ Cleanup mountpk_Unmount stringid_TruncateID a s
           = (Val None,
              mkSt (snd (mountpk_Unmount (rootLocalImageLayers a)
                           (snd (mountpk_Unmount (rootLocalContainerLayers a)
                                                 w'))))
                   (trace s ++ evs) (errlog s ++ log) (active s)
                   (enableDirpermLock s) (enableDirperm s) (backingFs s))).
Proof.
  unfold Cleanup. split.
  - intros e He. unfold bind, reads. now rewrite He.
  - intros ids Hids. unfold bind at 1, reads at 1. rewrite Hids.
    unfold bind at 1.
    destruct (Cleanup_loop_steps a ids s) as (evs & log & w' & Hsteps & ->).
    exists evs, log, w'. split; [exact Hsteps|].
    cbv beta iota. unfold bind, effect, ret. cbn [world].
    destruct (mountpk_Unmount (rootLocalContainerLayers a) w') as [e1 w1].
    cbn [snd world].
    destruct (mountpk_Unmount (rootLocalImageLayers a) w1) as [e2 w2].
    reflexivity.
Qed.

End Cleanup.

(** ** Get: what is counted, and when it mounts *)

(** X19. Only a [Get] that succeeds is counted.  Whatever [Get] does, its outcome
    and the active map agree: with a path and a nil error the count of the
    id is the count read plus one; with an error the path is empty and the
    map is as before; and the map is as before when [Get] panics. *)
Theorem Get_counts_only_success (a : Driver) (id mountLabel : string)
    (s : St os) :
  match Get a id mountLabel s with
  | (Val (out, None), s') =>
      active s'
      = <[id := int_add (default 0%Z (active s !! id)) 1]> (active s)
  | (Val (out, Some e), s') => out = "" ∧ active s' = active s
  | (Panic msg, s') => active s' = active s
  end.
Proof.
  unfold Get. mrun.
  destruct (getIdDesc (world s) a id) as [d|e]; simpl; [|auto].
  destruct (getParentIds (world s) (desc_rootPath d) (desc_id d))
    as [ids perr]. simpl.
  destruct (fatal perr) eqn:F.
  { destruct perr; [auto|discriminate F]. }
  match goal with
  | |- context [(0 <? Z.of_nat (length ?l))%Z] =>
      destruct (0 <? Z.of_nat (length l))%Z
  end; simpl; [|reflexivity].
  destruct (default 0%Z (active s !! id) =? 0)%Z; simpl; [|reflexivity].
  fold (locked s).
  pose proof (keeps_active_mount a d mountLabel (locked s)) as Hk.
  destruct (mount a d mountLabel (locked s)) as [[[e|]|msg] s2]; simpl in *;
    rewrite ?Hk; auto.
Qed.

(** X20. A layer in use is not mounted again.  After a [Get] that succeeded
    (the count read being a count with room for two more uses), a further
    [Get] of the same id, while the id resolves and its chain can be read,
    succeeds with lock and unlock as its only events, leaves the platform
    alone whatever its mount label, and counts the second use. *)
Theorem Get_in_use_mounts_nothing (s s1 : St os) (a : Driver)
    (id mountLabel mountLabel' out : string) (d : IdDesc)
    (ids : list string) :
  Get a id mountLabel s = (Val (out, None), s1) →
  (0 <= default 0%Z (active s !! id) < int_max - 1)%Z →
  getIdDesc (world s1) a id = Ok d →
  getParentIds (world s1) (desc_rootPath d) id = (ids, None) →
  ∃ out' s2,
    Get a id mountLabel' s1 = (Val (out', None), s2)
    ∧ world s2 = world s1
    ∧ trace s2 = trace s1 ++ [(EvLock, None); (EvUnlock, None)]
    ∧ active s2 !! id = Some (default 0%Z (active s !! id) + 2)%Z.
Proof.
  intros HG Hc Hd Hp.
  pose proof (Get_success_active _ _ _ _ _ _ HG) as Ha.
  set (c := default 0%Z (active s !! id)) in *.
  assert (Hcount : default 0%Z (active s1 !! id) = (c + 1)%Z).
  { rewrite Ha, lookup_insert_eq.
    change (int_add c 1 = (c + 1)%Z). unfold int_add.
    apply wrap_int_small. unfold int_min, int_max in *. lia. }
  rewrite (Get_run s1 a id mountLabel' d ids Hd Hp).
  assert (Hnz : (default 0%Z (active s1 !! id) =? 0)%Z = false)
    by (apply Z.eqb_neq; lia).
  assert (Hnew : int_add (default 0%Z (active s1 !! id)) 1 = (c + 2)%Z).
  { rewrite Hcount. unfold int_add. rewrite wrap_int_small;
      unfold int_min, int_max in *; lia. }
  destruct ids as [|i ids']; [|rewrite Hnz];
    do 2 eexists; (split; [reflexivity|]); simpl;
    (split; [reflexivity|]); (split; [reflexivity|]);
    rewrite lookup_insert_eq, Hnew; reflexivity.
Qed.

End Properties.

(** * The properties on the simulated platform *)

Import Sim.

(** C1 on the scenario: the first [Get] of the container layer C, whose
    chain is B, A, mounts it with both parents in the first mount, returns
    its mount point and counts one use. *)
Lemma Get_resolved_witness :
  getIdDesc (world s_C) driver "C" = Ok d_C
  ∧ getParentIds (world s_C) containers "C" = (["B"; "A"], None)
  ∧ eval (Get driver "C" "") s_C
    = Val ("/var/lib/docker-aufs/container-layers/mnt/C", None)
  ∧ active s_got = <["C" := 1%Z]> ∅
  ∧ ∃ (d : bool) (s1 : St sim),
      useDirperm (locked s_C) = (Val d, s1)
      ∧ trace s_got =
          trace s1
          ++ [(first_mount_call (os:=sim) mnt_C ""
                 ("br:" +:+ rw_C +:+ "=rw" +:+ branches parents_C) d, None);
              (EvUnlock, None)].
Proof.
  assert (H1 : getIdDesc (world s_C) driver "C" = Ok d_C)
    by (vm_compute; reflexivity).
  assert (H2 : getParentIds (world s_C) (desc_rootPath d_C) "C"
               = (["B"; "A"], None)) by (vm_compute; reflexivity).
  assert (H3 : Get driver "C" "" s_C
               = (Val ("/var/lib/docker-aufs/container-layers/mnt/C", None),
                  s_got)) by (vm_compute; reflexivity).
  destruct (Get_resolved s_C driver "C" "" d_C ["B"; "A"] H1 H2)
    as (_ & _ & _ & Hfirst & H & _).
  destruct (H _ _ H3) as [_ Ha].
  destruct Hfirst as (_ & _ & Hmount).
  { discriminate. }
  { vm_compute. reflexivity. }
  destruct Hmount as [_ Hmount].
  { vm_compute. reflexivity. }
  destruct (Hmount parents_C) as [_ Htr].
  { vm_compute. reflexivity. }
  destruct (Htr _ _ H3) as (d & s1 & Hu & Ht).
  split; [exact H1|]. split; [exact H2|]. split; [|split].
  - unfold eval. rewrite H3. reflexivity.
  - rewrite Ha. vm_compute. reflexivity.
  - exists d, s1. split; [exact Hu|]. rewrite Ht.
    assert (Hd : d = true).
    { assert (Hv : fst (useDirperm (locked s_C)) = Val true)
        by (vm_compute; reflexivity).
      rewrite Hu in Hv. simpl in Hv. congruence. }
    subst d. vm_compute. reflexivity.
Defined.

(** C3 on the scenario: two uses of C and their two releases leave no
    entry. *)
Lemma Put_refcount_witness :
  active (exec (run_calls driver "C"
                  [CallGet ""; CallGet ""; CallPut; CallPut]) s_C) !! "C"
  = None.
Proof.
  destruct (Put_refcount (os:=sim)) as [H _].
  apply (H s_C _ driver "C" [CallGet ""; CallGet ""; CallPut; CallPut]).
  - vm_compute. reflexivity.
  - vm_compute. reflexivity.
  - vm_compute. reflexivity.
  - vm_compute. reflexivity.
Defined.

(** C4 on the scenario: the removal of the layer C while it is in use and
    mounted starts with the lock and the unmount. *)
Lemma Remove_order_witness :
  ∃ err s' evs,
    Remove driver "C" s_got = (Val err, s')
    ∧ trace s' = trace s_got ++ evs
    ∧ Remove_trace (os:=sim) d_C evs err
    ∧ (∃ rest, evs = [(EvLock, None); (EvUnmount mnt_C, None)] ++ rest)
    ∧ active s' = active s_got.
Proof.
  destruct (Remove_order s_got driver "C" d_C)
    as (err & s' & evs & HR & Ht & Hshape & _ & Hm & _ & Ha).
  { vm_compute. reflexivity. }
  destruct Hm as (rest & Hevs & _).
  { vm_compute. reflexivity. }
  exists err, s', evs. split; [exact HR|]. split; [exact Ht|].
  split; [exact Hshape|]. split; [|exact Ha].
  exists rest. rewrite Hevs. vm_compute. reflexivity.
Defined.

(** C4 as stated fails: [Remove] deletes the layers file first and the
    renamed trees after it, when it returns. *)
Lemma Remove_deletes_metadata_first :
  eval (Remove driver "C") s_got = Val None
  ∧ remove_events
    = [EvLock;
           EvUnmount "/var/lib/docker-aufs/container-layers/mnt/C";
           EvRename "/var/lib/docker-aufs/container-layers/mnt/C"
                    "/var/lib/docker-aufs/container-layers/mnt/C-removing";
           EvRename "/var/lib/docker-aufs/container-layers/diff/C"
                    "/var/lib/docker-aufs/container-layers/diff/C-removing";
           EvRemove "/var/lib/docker-aufs/container-layers/layers/C";
           EvRemoveAll "/var/lib/docker-aufs/container-layers/diff/C-removing";
           EvRemoveAll "/var/lib/docker-aufs/container-layers/mnt/C-removing";
           EvUnlock]
  ∧ ¬ trees_deleted_before_metadata remove_events.
Proof.
  assert (E : remove_events
              = [EvLock;
           EvUnmount "/var/lib/docker-aufs/container-layers/mnt/C";
           EvRename "/var/lib/docker-aufs/container-layers/mnt/C"
                    "/var/lib/docker-aufs/container-layers/mnt/C-removing";
           EvRename "/var/lib/docker-aufs/container-layers/diff/C"
                    "/var/lib/docker-aufs/container-layers/diff/C-removing";
           EvRemove "/var/lib/docker-aufs/container-layers/layers/C";
           EvRemoveAll "/var/lib/docker-aufs/container-layers/diff/C-removing";
           EvRemoveAll "/var/lib/docker-aufs/container-layers/mnt/C-removing";
           EvUnlock]) by (vm_compute; reflexivity).
  rewrite E. split; [vm_compute; reflexivity|].
  split; [reflexivity|].
  intros H. specialize (H 5 4 _ _ eq_refl eq_refl). lia.
Qed.

(** C5 on the scenario: the layer R is found in the remote partition p1,
    and A, which p1 holds as well, in the local-image root. *)
Lemma getIdDesc_search_order_witness :
  getIdDesc (world s_remote) driver "R" = Ok (mkIdDesc "R" "/mnt/p1")
  ∧ getIdDesc (world s_remote) driver "A" = Ok d_A.
Proof.
  destruct (getIdDesc_search_order (world s_remote) driver "R")
    as (_ & _ & _ & _ & HR).
  destruct (getIdDesc_search_order (world s_remote) driver "A")
    as (_ & _ & _ & HA & _).
  split.
  - destruct (HR ["C"] ["A"; "B"]) as (_ & Hfirst & _).
    + vm_compute. reflexivity.
    + vm_compute. intros [|[]]; discriminate.
    + vm_compute. reflexivity.
    + vm_compute. intros [|[|[]]]; discriminate.
    + apply (Hfirst [] "p1" []).
      * vm_compute. reflexivity.
      * intros d [].
      * exists ["A"; "R"]. split; [vm_compute; reflexivity|]. simpl. auto.
  - apply (HA ["C"]).
    + vm_compute. reflexivity.
    + vm_compute. intros [|[]]; discriminate.
    + exists ["A"; "B"]. split; [vm_compute; reflexivity|]. simpl. auto.
Defined.

(** C6 on the scenario: the layers file of B holds the line A and reads
    back as the chain A. *)
Lemma Create_then_getParentIds_witness :
  Create driver "B" "A" true s_A = (Val None, s_B)
  ∧ ∃ chain,
      written "/var/lib/docker-aufs/image-layers/layers/B" (trace s_B) ""
      = lines chain
      ∧ (forallb valid_id chain = true →
         getParentIds (world s_B) images "B" = (chain, None)).
Proof.
  assert (H : Create driver "B" "A" true s_A = (Val None, s_B))
    by (vm_compute; reflexivity).
  split; [exact H|].
  destruct (Create_then_getParentIds s_A s_B driver "B" "A" true H)
    as (chain & closed & _ & Hw & _ & _ & Hr).
  exists chain. split; [exact Hw|].
  intros Hv. apply (Hr Hv). vm_compute. reflexivity.
Defined.

(** C6 as stated fails: a parent whose id holds a line feed is written as
    one line with a line feed inside and read back as two parents, and a
    parent whose id ends in a carriage return is read back without it. *)
Lemma Create_line_feed_in_id :
  eval (Create driver "c" two_lines true) s_nl = Val None
  ∧ getParentIds (world s_nl) images two_lines = ([], None)
  ∧ getParentIds (world s_on_nl) images "c" = (["a"; "b"], None)
  ∧ fst (getParentIds (world s_on_nl) images "c")
    ≠ two_lines :: fst (getParentIds (world s_nl) images two_lines)
  ∧ eval (Create driver "c" with_cr true) s_cr = Val None
  ∧ getParentIds (world s_on_cr) images "c" = (["a"], None)
  ∧ fst (getParentIds (world s_on_cr) images "c")
    ≠ with_cr :: fst (getParentIds (world s_cr) images with_cr).
Proof.
  assert (H1 : getParentIds (world s_nl) images two_lines = ([], None))
    by (vm_compute; reflexivity).
  assert (H2 : getParentIds (world s_on_nl) images "c" = (["a"; "b"], None))
    by (vm_compute; reflexivity).
  assert (H3 : getParentIds (world s_cr) images with_cr = ([], None))
    by (vm_compute; reflexivity).
  assert (H4 : getParentIds (world s_on_cr) images "c" = (["a"], None))
    by (vm_compute; reflexivity).
  split; [vm_compute; reflexivity|]. split; [exact H1|]. split; [exact H2|].
  split; [rewrite H1, H2; discriminate|].
  split; [vm_compute; reflexivity|]. split; [exact H4|].
  rewrite H3, H4. vm_compute. discriminate.
Qed.

(** C2 on the scenario: with room for the writable branch and one parent,
    the engine mounts C with B and appends A by one remount. *)
Lemma aufsMount_first_mount_and_remounts_witness :
  useDirperm s_C = (Val true, s_probed)
  ∧ aufsMount parents_C rw_C mnt_C long_label s_C = (Val None, s_mounted)
  ∧ (len ("br:" +:+ rw_C +:+ "=rw")
     <= mount_room (os:=sim) true long_label)%Z
  ∧ ∃ k : nat,
      k <= length parents_C
      ∧ (len ("br:" +:+ rw_C +:+ "=rw") + branches_len (take k parents_C)
         <= mount_room (os:=sim) true long_label)%Z
      ∧ (k < length parents_C →
         (mount_room (os:=sim) true long_label
          < len ("br:" +:+ rw_C +:+ "=rw")
            + branches_len (take (S k) parents_C))%Z)
      ∧ trace s_mounted =
          trace s_probed
          ++ (first_mount_call (os:=sim) mnt_C long_label
                ("br:" +:+ rw_C +:+ "=rw" +:+ branches (take k parents_C))
                true, None)
             :: map (λ r, (remount_call (os:=sim) mnt_C long_label r, None))
                    (drop k parents_C).
Proof.
  assert (H1 : useDirperm s_C = (Val true, s_probed))
    by (vm_compute; reflexivity).
  assert (H2 : aufsMount parents_C rw_C mnt_C long_label s_C
               = (Val None, s_mounted)) by (vm_compute; reflexivity).
  assert (H3 : (len ("br:" +:+ rw_C +:+ "=rw")
                <= mount_room (os:=sim) true long_label)%Z)
    by (vm_compute; discriminate).
  split; [exact H1|]. split; [exact H2|]. split; [exact H3|].
  exact (aufsMount_first_mount_and_remounts
           s_C s_probed s_mounted parents_C rw_C mnt_C long_label true
           H1 H2 H3).
Defined.

(** C2 as stated fails.  With a label that leaves a buffer of 10 bytes the
    engine succeeds, and its first mount carries [br:/var/li], the writable
    branch cut off, and no parent.  And when the platform refuses the first
    mount, the parent that did not fit is never remounted: the target is
    unmounted and the error returned. *)
Lemma aufsMount_cut_or_refused :
  (eval (aufsMount parents_C rw_C mnt_C tight_label) s_C = Val None
   ∧ cut_calls
     = [first_mount_call (os:=sim) mnt_C tight_label "br:/var/li" true;
        remount_call (os:=sim) mnt_C tight_label
                     "/var/lib/docker-aufs/image-layers/diff/B";
        remount_call (os:=sim) mnt_C tight_label
                     "/var/lib/docker-aufs/image-layers/diff/A"]
   ∧ ¬ one_mount_then_remounts (os:=sim) rw_C mnt_C tight_label parents_C true
                               cut_calls)
  ∧ (eval (aufsMount parents_C rw_C mnt_C long_label) s_closed
     = Val (Some (OsError EIO))
     ∧ refused_calls
       = [first_mount_call (os:=sim) mnt_C long_label
            ("br:" +:+ rw_C +:+ "=rw"
             +:+ ":/var/lib/docker-aufs/image-layers/diff/B=ro+wh") true;
          EvUnmount mnt_C]
     ∧ ¬ one_mount_then_remounts (os:=sim) rw_C mnt_C long_label parents_C true
                                 refused_calls).
Proof.
  split.
  - split; [vm_compute; reflexivity|]. split; [vm_compute; reflexivity|].
    intros (k & Hk & H).
    destruct k as [|[|[|k]]]; [| | |simpl in Hk; lia];
      vm_compute in H; discriminate.
  - split; [vm_compute; reflexivity|]. split; [vm_compute; reflexivity|].
    intros (k & Hk & H).
    destruct k as [|[|[|k]]]; [| | |simpl in Hk; lia];
      vm_compute in H; discriminate.
Qed.

(** C7 on the scenario: the platform refuses the remount of A; the engine
    unmounts the target and returns the error. *)
Lemma aufsMount_failure_unmounts_witness :
  aufsMount parents_C rw_C mnt_C long_label s_refusing
  = (Val (Some (OsError EIO)), s_refused)
  ∧ ∃ (d : bool) (s1 : St sim) (evs : list (Event * option errno)),
      useDirperm s_refusing = (Val d, s1)
      ∧ trace s_refused = trace s1 ++ evs
      ∧ ∃ pre flags data e0 u,
          OsError EIO = OsError e0
          ∧ Forall (mount_succeeded mnt_C) pre
          ∧ evs = pre ++ [(EvMount "none" mnt_C "aufs" flags data, Some e0);
                          (EvUnmount mnt_C, u)].
Proof.
  assert (H : aufsMount parents_C rw_C mnt_C long_label s_refusing
              = (Val (Some (OsError EIO)), s_refused))
    by (vm_compute; reflexivity).
  split; [exact H|].
  exact (aufsMount_failure_unmounts s_refusing s_refused parents_C rw_C mnt_C
           long_label (Some (OsError EIO)) H).
Defined.

(** C8 on the scenario: the layers file of A is still listed but gone when
    [Get] opens it. *)
Lemma Get_missing_layers_file_witness :
  getIdDesc (world (on_machine (losing [images +:+ "/layers/A"]) s_C))
            driver "A" = Ok d_A
  ∧ os_Open sim (world (on_machine (losing [images +:+ "/layers/A"]) s_C))
            (images +:+ "/layers/A") = inl ENOENT
  ∧ eval (Get driver "A" "")
         (on_machine (losing [images +:+ "/layers/A"]) s_C)
    = Val ("/var/lib/docker-aufs/image-layers/diff/A", None).
Proof.
  assert (H1 : getIdDesc
                 (world (on_machine (losing [images +:+ "/layers/A"]) s_C))
                 driver "A" = Ok d_A) by (vm_compute; reflexivity).
  assert (H2 : os_Open sim
                 (world (on_machine (losing [images +:+ "/layers/A"]) s_C))
                 (path_Join sim [desc_rootPath d_A; "layers"; "A"])
               = inl ENOENT) by (vm_compute; reflexivity).
  split; [exact H1|]. split; [vm_compute; reflexivity|].
  destruct (Get_missing_layers_file _ driver "A" "" d_A H1) as (H & _ & _).
  unfold eval. rewrite (H H2). reflexivity.
Defined.


(** C10 on the scenario: A is in the local-image root, yet [Exists] answers
    false when the layers/ directory of the local-container root cannot be
    read, as it does for an id that is nowhere. *)
Lemma Exists_false_on_any_error_witness :
  Exists (world s_C) driver "A" = true
  ∧ Exists (world (on_machine (hiding [containers +:+ "/layers"]) s_C))
           driver "A" = false
  ∧ Exists (world s_C) driver "Z" = false.
Proof.
  split; [vm_compute; reflexivity|]. split.
  - destruct (Exists_false_on_any_error
                (world (on_machine (hiding [containers +:+ "/layers"]) s_C))
                driver "A") as (_ & H & _).
    apply (H (OsError EIO)). vm_compute. reflexivity.
  - destruct (Exists_false_on_any_error (world s_C) driver "Z")
      as (_ & _ & _ & _ & H).
    apply H. vm_compute. reflexivity.
Defined.

(** ** The scenarios of the specification on the simulated platform *)

(** The scanner: lines end at a line feed, a carriage return before it is
    dropped, an empty line is an empty token, the last line needs no line
    feed. *)
Example scan_stream_lines :
  scan_stream ("B" +:+ String CR (String LF (String LF "A")), None)
  = (["B"; ""; "A"], None).
Proof. vm_compute. reflexivity. Qed.

Example path_Join_cleans :
  Join ["/var/lib"; ""; "../lib/./docker//"; "layers"]
  = "/var/lib/docker/layers".
Proof. vm_compute. reflexivity. Qed.

(** S1: a single leaf is never mounted. *)
Example scenario_single_leaf :
  Exists (world s_A) driver "A" = true
  ∧ eval (Get driver "A" "") s_A
    = Val ("/var/lib/docker-aufs/image-layers/diff/A", None)
  ∧ eval (Put driver "A") (exec (Get driver "A" "") s_A) = Val None
  ∧ mounts (world (exec (Put driver "A") (exec (Get driver "A" "") s_A)))
    = [].
Proof. vm_compute. repeat split. Qed.

(** S2: the layers file of B holds the line A; [Get] of B issues one mount
    of B over A. *)
Example scenario_two_deep :
  os_Open sim (world s_B) "/var/lib/docker-aufs/image-layers/layers/B"
  = inr ("A" +:+ String LF "", None)
  ∧ eval (Get driver "B" "") (exec useDirperm s_B)
    = Val ("/var/lib/docker-aufs/image-layers/mnt/B", None)
  ∧ drop (length (trace (exec useDirperm s_B)))
         (trace (exec (Get driver "B" "") (exec useDirperm s_B)))
    = [(EvLock, None);
       (EvMount "none" "/var/lib/docker-aufs/image-layers/mnt/B" "aufs" 0
          ("br:/var/lib/docker-aufs/image-layers/diff/B=rw"
           +:+ ":/var/lib/docker-aufs/image-layers/diff/A=ro+wh"
           +:+ ",dio,xino=/dev/shm/aufs.xino,dirperm1"), None);
       (EvUnlock, None)].
Proof. vm_compute. repeat split. Qed.

(** S4: two uses mount once, two releases unmount once, at the second. *)
Example scenario_refcount :
  map fst
      (drop (length (trace s_got))
            (trace (exec (run_calls driver "C" [CallGet ""; CallPut; CallPut])
                         s_got)))
  = [EvLock; EvUnlock; EvLock; EvUnlock; EvLock;
     EvUnmount "/var/lib/docker-aufs/container-layers/mnt/C"; EvUnlock].
Proof. vm_compute. reflexivity. Qed.

(** S5: after the removal of C, which is logged as in use, C is unknown. *)
Example scenario_remove_under_use :
  errlog (exec (Remove driver "C") s_got) = ["Removing active id C"]
  ∧ Exists (world (exec (Remove driver "C") s_got)) driver "C" = false
  ∧ active (exec (Remove driver "C") s_got) = active s_got.
Proof. vm_compute. repeat split. Qed.

(** S6: a layer that only a remote partition holds resolves there. *)
Example scenario_remote_lookup :
  eval (Get driver "R" "") s_remote = Val ("/mnt/p1/diff/R", None).
Proof. vm_compute. reflexivity. Qed.

(** ** More properties on the simulated platform *)

(** [getChilds] on the remote root, which holds the partition p1 and a
    file, and on a directory that does not exist. *)
Lemma getChilds_kinds_witness :
  ioutil_ReadDir sim (world s_mixed) "/mnt"
  = inr [("notes", false); ("p1", true)]
  ∧ loadIds (world s_mixed) "/mnt" = Ok ["notes"]
  ∧ getChildDirs (world s_mixed) "/mnt" = Ok ["p1"]
  ∧ getChilds (world s_mixed) "/mnt" 0 = Ok ["notes"; "p1"]
  ∧ getChilds (world s_mixed) "/nowhere" 2 = Err (OsError ENOENT).
Proof.
  assert (H : ioutil_ReadDir sim (world s_mixed) "/mnt"
              = inr [("notes", false); ("p1", true)])
    by (vm_compute; reflexivity).
  destruct (getChilds_kinds (world s_mixed) "/mnt") as [_ Hok].
  destruct (getChilds_kinds (world s_mixed) "/nowhere") as [Herr _].
  destruct (Hok _ H) as (Hf & Hd & Hall).
  split; [exact H|]. split; [exact Hf|]. split; [exact Hd|].
  split; [apply Hall; discriminate|].
  apply Herr. vm_compute. reflexivity.
Defined.

(** The layer R resolves in the partition p1, which lists it; Z is unknown,
    and no root lists it. *)
Lemma getIdDesc_sound_witness :
  getIdDesc (world s_remote) driver "R" = Ok (mkIdDesc "R" "/mnt/p1")
  ∧ (∃ subdir, "/mnt/p1" = Join ["/mnt"; subdir]
               ∧ lists (os:=sim) (world s_remote)
                       (Join ["/mnt"; subdir; "layers"]) "R")
  ∧ getIdDesc (world s_remote) driver "Z" = Err ErrUnknownID
  ∧ ∃ dirs, getChildDirs (world s_remote) "/mnt" = Ok dirs
            ∧ ∀ subdir, In subdir dirs →
                ¬ lists (os:=sim) (world s_remote)
                        (Join ["/mnt"; subdir; "layers"]) "Z".
Proof.
  assert (HR : getIdDesc (world s_remote) driver "R"
               = Ok (mkIdDesc "R" "/mnt/p1")) by (vm_compute; reflexivity).
  assert (HZ : getIdDesc (world s_remote) driver "Z" = Err ErrUnknownID)
    by (vm_compute; reflexivity).
  destruct (getIdDesc_sound (world s_remote) driver "R") as (Hok & _ & _).
  destruct (getIdDesc_sound (world s_remote) driver "Z") as (_ & Hno & _).
  split; [exact HR|]. split.
  - destruct (Hok _ HR) as (_ & [[Hc _] | [[Hi _] | Hr]]).
    + discriminate Hc.
    + discriminate Hi.
    + destruct Hr as (dirs & subdir & _ & _ & Hroot & _ & _ & Hl).
      exists subdir. split; [exact Hroot|exact Hl].
  - split; [exact HZ|]. destruct (Hno HZ) as (_ & _ & Hdirs). exact Hdirs.
Defined.

(** [loadAllIds] lists A twice, once for the local-image root and once for
    the partition p1; R is listed and exists, Z is not and does not.  With
    an unreadable layers/ directory of the local-image root [loadAllIds]
    fails, while C still resolves in the local-container root. *)
Lemma loadAllIds_agrees_with_Exists_witness :
  loadAllIds (world s_remote) driver = Ok ["C"; "A"; "B"; "A"; "R"]
  ∧ Exists (world s_remote) driver "R" = true
  ∧ Exists (world s_remote) driver "Z" ≠ true
  ∧ loadAllIds (world (on_machine (hiding [images +:+ "/layers"]) s_remote))
               driver = Err (OsError EIO)
  ∧ ∀ d, getIdDesc (world (on_machine (hiding [images +:+ "/layers"])
                                      s_remote)) driver "C" = Ok d →
         desc_rootPath d = containers.
Proof.
  assert (H : loadAllIds (world s_remote) driver
              = Ok ["C"; "A"; "B"; "A"; "R"]) by (vm_compute; reflexivity).
  assert (He : loadAllIds
                 (world (on_machine (hiding [images +:+ "/layers"]) s_remote))
                 driver = Err (OsError EIO)) by (vm_compute; reflexivity).
  destruct (loadAllIds_agrees_with_Exists (world s_remote) driver)
    as [Hok _].
  destruct (loadAllIds_agrees_with_Exists
              (world (on_machine (hiding [images +:+ "/layers"]) s_remote))
              driver) as [_ Herr].
  split; [exact H|]. split; [|split; [|split; [exact He|]]].
  - apply (Hok _ H "R"). simpl. auto 10.
  - intros E. apply (Hok _ H "Z") in E. simpl in E.
    repeat (destruct E as [E|E]; [discriminate E|]). exact E.
  - intros d Hd. destruct (Herr _ He) as [_ Hroot]. exact (Hroot "C" d Hd).
Defined.

(** The chain of the layer written on the id with a line feed inside reads
    as two parents, each a line; the chain of a layers file that is gone
    reads as empty, with the error. *)
Lemma getParentIds_ids_are_lines_witness :
  getParentIds (world s_on_nl) images "c" = (["a"; "b"], None)
  ∧ ("b" ≠ "" ∧ no_LF "b" = true ∧ (len "b" < MaxScanTokenSize)%Z)
  ∧ getParentIds (world (on_machine (losing [images +:+ "/layers/A"]) s_C))
                 images "A" = ([], Some (OsError ENOENT)).
Proof.
  assert (H : getParentIds (world s_on_nl) images "c" = (["a"; "b"], None))
    by (vm_compute; reflexivity).
  destruct (getParentIds_ids_are_lines (world s_on_nl) images "c")
    as [Hin _].
  destruct (getParentIds_ids_are_lines
              (world (on_machine (losing [images +:+ "/layers/A"]) s_C))
              images "A") as [_ Hopen].
  split; [exact H|]. split.
  - apply Hin. rewrite H. simpl. auto.
  - apply Hopen. vm_compute. reflexivity.
Defined.

(** The parents of C are B and A, both in the local-image root; once B is
    removed, the chain of C names a layer that does not resolve. *)
Lemma getParentLayerPaths_chain_witness :
  getParentLayerPaths (world s_C) driver d_C = Ok parents_C
  ∧ getParentLayerPaths (world s_dangling) driver d_C = Err ErrUnknownID.
Proof.
  destruct (getParentLayerPaths_chain (world s_C) driver d_C) as [_ Hok].
  destruct (getParentLayerPaths_chain (world s_dangling) driver d_C)
    as [_ Hbad].
  split.
  - destruct (Hok ["B"; "A"]) as [Hiff _]; [vm_compute; reflexivity|].
    apply Hiff. repeat constructor.
    + exists (mkIdDesc "B" images). split; vm_compute; reflexivity.
    + exists (mkIdDesc "A" images). split; vm_compute; reflexivity.
  - destruct (Hbad ["B"; "A"]) as [_ Herr]; [vm_compute; reflexivity|].
    apply (Herr [] "B" ["A"]); [reflexivity|constructor|].
    vm_compute. reflexivity.
Defined.

(** Mounting C again while it is mounted, and unmounting it while it is
    not, do nothing; mounting it after its parent B is gone fails before
    any call. *)
Lemma mount_unmount_ask_mount_table_witness :
  mount driver d_C "" s_got = (Val None, s_got)
  ∧ unmount driver d_C s_C = (Val None, s_C)
  ∧ mount driver d_C "" s_dangling = (Val (Some ErrUnknownID), s_dangling).
Proof.
  destruct (mount_unmount_ask_mount_table driver d_C "" s_got)
    as (Hm & _ & _ & _).
  destruct (mount_unmount_ask_mount_table driver d_C "" s_C)
    as (_ & Hu & _ & _).
  destruct (mount_unmount_ask_mount_table driver d_C "" s_dangling)
    as (_ & _ & Hd & _).
  split; [|split].
  - apply Hm. right. vm_compute. reflexivity.
  - apply Hu. right. vm_compute. reflexivity.
  - apply Hd; vm_compute; reflexivity.
Defined.

(** The probe on the simulated machine, whose kernel knows dirperm1. *)
Lemma useDirperm_once_witness :
  ∃ d s1, useDirperm s_C = (Val d, s1) ∧ useDirperm s1 = (Val d, s1).
Proof.
  destruct (useDirperm_once s_C) as (d & s1 & H1 & H2 & _).
  exists d, s1. auto.
Defined.

Lemma useDirperm_probe_cleans_up_witness :
  ∃ d s1 evs,
    useDirperm s_C = (Val d, s1)
    ∧ trace s1 = trace s_C ++ evs
    ∧ probe_trace (os:=sim) (world s_C) false evs d.
Proof.
  destruct (useDirperm_probe_cleans_up s_C eq_refl)
    as (d & s1 & evs & H1 & H2 & H3 & _).
  exists d, s1, evs. auto.
Defined.

(** Z is unknown. *)
Lemma unknown_id_changes_nothing_witness :
  Get driver "Z" "" s_C = (Val ("", Some ErrUnknownID), s_C)
  ∧ Put driver "Z" s_C = (Val (Some ErrUnknownID), s_C)
  ∧ trace (exec (Remove driver "Z") s_C)
    = trace s_C ++ [(EvLock, None); (EvUnlock, None)].
Proof.
  destruct (unknown_id_changes_nothing driver "Z" s_C ErrUnknownID)
    as (HG & HP & HR); [vm_compute; reflexivity|].
  split; [apply HG|]. split; [exact HP|].
  unfold exec. rewrite HR. reflexivity.
Defined.

(** Mounting C with the label that leaves room for one parent. *)
Lemma aufsMount_first_mount_fits_page_witness :
  ∃ b r rest,
    trace s_mounted
    = trace s_probed
      ++ (first_mount_call (os:=sim) mnt_C long_label b true, r) :: rest
    ∧ (len (b +:+ "," +:+ mount_opts true) + len long_label <= 4096 - 25)%Z.
Proof.
  destruct (aufsMount_first_mount_fits_page
              s_C s_probed parents_C rw_C mnt_C long_label true)
    as (b & r & rest & Ht & _ & Hlen).
  - vm_compute. reflexivity.
  - vm_compute. discriminate.
  - exists b, r, rest. split; [exact Ht|exact Hlen].
Defined.

(** Mounting C with a label that leaves a buffer of 10 bytes: the first
    mount is issued with [br:/var/li], both parents are remounted. *)
Lemma aufsMount_cuts_long_writable_branch_witness :
  mount_room (os:=sim) true tight_label = 10%Z
  ∧ ∃ s',
      aufsMount parents_C rw_C mnt_C tight_label s_C = (Val None, s')
      ∧ trace s'
        = trace s_probed
          ++ (first_mount_call (os:=sim) mnt_C tight_label "br:/var/li" true,
              None)
             :: map (λ r, (remount_call (os:=sim) mnt_C tight_label r, None))
                    parents_C.
Proof.
  split; [vm_compute; reflexivity|].
  destruct (aufsMount_cuts_long_writable_branch
              s_C s_probed parents_C rw_C mnt_C tight_label true)
    as (_ & _ & Hok).
  - vm_compute. reflexivity.
  - vm_compute. split; [discriminate|reflexivity].
  - exists (exec (aufsMount parents_C rw_C mnt_C tight_label) s_C).
    assert (Hrun : aufsMount parents_C rw_C mnt_C tight_label s_C
                   = (Val None,
                      exec (aufsMount parents_C rw_C mnt_C tight_label) s_C))
      by (vm_compute; reflexivity).
    split; [exact Hrun|].
    assert (Hcut : substring 0 (Z.to_nat (mount_room (os:=sim) true
                                                     tight_label))
                             ("br:" +:+ rw_C +:+ "=rw") = "br:/var/li")
      by (vm_compute; reflexivity).
    rewrite (Hok _ Hrun), Hcut. reflexivity.
Defined.

(** The first [Get] of C with a label of 4050 bytes. *)
Lemma Get_panics_without_room_witness :
  eval (Get driver "C" huge_label) s_C = Panic "makeslice: len out of range"
  ∧ active (exec (Get driver "C" huge_label) s_C) = active s_C.
Proof.
  pose proof (Get_panics_without_room s_C driver "C" huge_label d_C
                ["B"; "A"] parents_C) as H.
  unfold eval, exec. rewrite H.
  - split; reflexivity.
  - vm_compute. reflexivity.
  - vm_compute. reflexivity.
  - discriminate.
  - vm_compute. reflexivity.
  - vm_compute. reflexivity.
  - vm_compute. reflexivity.
  - vm_compute. reflexivity.
Defined.

(** The use of C and its release. *)
Lemma Get_then_Put_restores_active_witness :
  ∃ s2, Put driver "C" s_got = (Val None, s2) ∧ active s2 = active s_C.
Proof.
  apply (Get_then_Put_restores_active s_C s_got driver "C" ""
           "/var/lib/docker-aufs/container-layers/mnt/C").
  - vm_compute. reflexivity.
  - vm_compute. reflexivity.
  - intros c H. vm_compute in H. discriminate H.
Defined.

(** The count of C while A is used, released and removed. *)
Lemma other_ids_untouched_witness :
  active (exec (Get driver "A" "") s_got) !! "C" = active s_got !! "C"
  ∧ active (exec (Put driver "A") s_got) !! "C" = active s_got !! "C"
  ∧ active (exec (Remove driver "A") s_got) = active s_got.
Proof.
  apply (other_ids_untouched driver "A" "" "C" s_got). discriminate.
Defined.

(** The active map while C is in use once. *)
Lemma counts_stay_positive_witness :
  counts_positive (active s_got)
  ∧ counts_positive (active (exec (Get driver "C" "") s_got))
  ∧ counts_positive (active (exec (Put driver "C") s_got))
  ∧ counts_positive (active (exec (Remove driver "C") s_got)).
Proof.
  assert (Ha : active s_got = <["C" := 1%Z]> ∅) by (vm_compute; reflexivity).
  assert (H : counts_positive (active s_got)).
  { rewrite Ha. intros k v. destruct (decide (k = "C")) as [->|Hk].
    - rewrite lookup_insert_eq. intros [= <-]. vm_compute.
      split; discriminate.
    - rewrite lookup_insert_ne by congruence. rewrite lookup_empty.
      discriminate. }
  destruct (counts_stay_positive driver "C" "" s_got H) as (HG & HP & HR).
  split; [exact H|]. split; [|split; [exact HP|exact HR]].
  apply HG. vm_compute. reflexivity.
Defined.

(** [Get] of C: the first use, and a failed one after its parent B is
    removed. *)
Lemma Get_counts_only_success_witness :
  active s_got = <["C" := 1%Z]> (active s_C)
  ∧ eval (Get driver "C" "") s_dangling = Val ("", Some ErrUnknownID)
  ∧ active (exec (Get driver "C" "") s_dangling) = active s_dangling.
Proof.
  pose proof (Get_counts_only_success driver "C" "" s_C) as H1.
  pose proof (Get_counts_only_success driver "C" "" s_dangling) as H2.
  assert (E1 : Get driver "C" "" s_C
               = (Val ("/var/lib/docker-aufs/container-layers/mnt/C", None),
                  s_got)) by (vm_compute; reflexivity).
  assert (E2 : Get driver "C" "" s_dangling
               = (Val ("", Some ErrUnknownID),
                  exec (Get driver "C" "") s_dangling))
    by (vm_compute; reflexivity).
  rewrite E1 in H1. rewrite E2 in H2. destruct H2 as [_ H2].
  split; [|split].
  - rewrite H1. vm_compute. reflexivity.
  - unfold eval. rewrite E2. reflexivity.
  - exact H2.
Defined.

(** The second use of C. *)
Lemma Get_in_use_mounts_nothing_witness :
  ∃ out' s2,
    Get driver "C" "another label" s_got = (Val (out', None), s2)
    ∧ world s2 = world s_got
    ∧ trace s2 = trace s_got ++ [(EvLock, None); (EvUnlock, None)]
    ∧ active s2 !! "C" = Some 2%Z.
Proof.
  destruct (Get_in_use_mounts_nothing s_C s_got driver "C" "" "another label"
              "/var/lib/docker-aufs/container-layers/mnt/C" d_C ["B"; "A"])
    as (out' & s2 & HG & Hw & Ht & Ha).
  - vm_compute. reflexivity.
  - vm_compute. split; [discriminate|reflexivity].
  - vm_compute. reflexivity.
  - vm_compute. reflexivity.
  - exists out', s2. split; [exact HG|]. split; [exact Hw|].
    split; [exact Ht|]. rewrite Ha. vm_compute. reflexivity.
Defined.

(** The cleanup while B and C are mounted and the platform refuses to
    unmount C: both unmounts are tried, the failure is logged, the counts
    stay. *)
Lemma Cleanup_outcomes_witness :
  (∃ (evs : list (Event * option errno)) (log : list string) (w' : machine),
     Cleanup_steps (os:=sim) sim_TruncateID driver (world s_two_mounted)
                   ["C"; "A"; "B"] evs log w'
     ∧ Cleanup (os:=sim) sim_mountpk_Unmount sim_TruncateID driver
               s_two_mounted
       = (Val None,
          mkSt (os:=sim)
               (snd (sim_mountpk_Unmount images
                       (snd (sim_mountpk_Unmount containers w'))))
               (trace s_two_mounted ++ evs) (errlog s_two_mounted ++ log)
               (active s_two_mounted) (enableDirpermLock s_two_mounted)
               (enableDirperm s_two_mounted) (backingFs s_two_mounted)))
  ∧ drop (length (trace s_two_mounted))
         (trace (exec (Cleanup (os:=sim) sim_mountpk_Unmount sim_TruncateID
                               driver) s_two_mounted))
    = [(EvUnmount "/var/lib/docker-aufs/container-layers/mnt/C", Some EIO);
       (EvUnmount "/var/lib/docker-aufs/image-layers/mnt/B", None)]
  ∧ drop (length (errlog s_two_mounted))
         (errlog (exec (Cleanup (os:=sim) sim_mountpk_Unmount sim_TruncateID
                                driver) s_two_mounted))
    = ["Unmounting C"]
  ∧ Cleanup (os:=sim) sim_mountpk_Unmount sim_TruncateID driver
            (on_machine (hiding [images +:+ "/layers"]) s_two_mounted)
    = (Val (Some (OsError EIO)),
       on_machine (hiding [images +:+ "/layers"]) s_two_mounted).
Proof.
  destruct (Cleanup_outcomes (os:=sim) sim_mountpk_Unmount sim_TruncateID
              driver s_two_mounted) as [_ Hok].
  destruct (Cleanup_outcomes (os:=sim) sim_mountpk_Unmount sim_TruncateID
              driver
              (on_machine (hiding [images +:+ "/layers"]) s_two_mounted))
    as [Herr _].
  split; [|split; [|split]].
  - destruct (Hok ["C"; "A"; "B"]) as (evs & log & w' & Hsteps & HC).
    + vm_compute. reflexivity.
    + exists evs, log, w'. split; [exact Hsteps|exact HC].
  - vm_compute. reflexivity.
  - vm_compute. reflexivity.
  - apply Herr. vm_compute. reflexivity.
Defined.

(** A layer created on a parent that does not exist: [Create] fails, and
    the layer is there, with an empty chain. *)
Example scenario_orphan_layer :
  eval (Create driver "D" "nowhere" true) s_C = Val (Some ErrUnknownID)
  ∧ Exists (world s_orphan) driver "D" = true
  ∧ getParentIds (world s_orphan) images "D" = ([], None).
Proof. vm_compute. repeat split. Qed.
